(** * The upgrade supervisor of nanobot (nanobot/supervisor/service.py)

    A shallow embedding of [UpgradeRequest], [UpgradeTaskStore] and
    [UpgradeSupervisor], and the properties of the design document checked
    against it.

    Python [str] values are sequences of Unicode code points; the tables
    behind [str.isalnum], [str.lower] and [str.isspace] belong to the
    interpreter and are an interface here.  The outside world (clock,
    executables on the path, results of external commands, liveness of the
    supervised process, faults of the operating system) is an oracle indexed
    by the number of interactions made so far.  The methods are computations
    in a state and exception monad over the supervisor, the directories of
    its store and the trace of its effects; the loop of
    [_develop_and_verify] runs on fuel, and ends without it once the clock
    has passed the deadline.  Writes of the task log that raise, interrupts
    and queue files that do not parse are the [Hazards] at the end of the
    definitions, with the round of [run_forever] under them. *)

From Stdlib Require Import ZArith QArith Qround List Ascii String DecimalString Lia.
From stdpp Require Import base option list sorting gmap.

Local Open Scope Z_scope.

(* ===================================================================== *)
(** ** Strings *)
(* ===================================================================== *)

Abbreviation pystr := (list N).

(** A literal of the source. *)
Definition py (s : string) : pystr :=
  List.map N_of_ascii (list_ascii_of_string s).
Arguments py s%_string : simpl never.

Definition hyphen : N := 45%N.
Definition newline : N := 10%N.

(** The part of the interpreter's Unicode database the code consults.
    On ASCII the tables are the familiar ones. *)
Definition ascii_isalnum (c : N) : bool :=
  ((48 <=? c) && (c <=? 57) || (65 <=? c) && (c <=? 90)
   || (97 <=? c) && (c <=? 122))%N.
Definition ascii_lower (c : N) : N :=
  (if (65 <=? c) && (c <=? 90) then c + 32 else c)%N.
Definition ascii_isspace (c : N) : bool :=
  ((9 <=? c) && (c <=? 13) || (28 <=? c) && (c <=? 32))%N.

Class Unicode := {
  isalnum : N -> bool;
  lower : N -> pystr;          (* [ch.lower()] may be longer than [ch] *)
  isspace : N -> bool;
  isalnum_ascii : forall c, (c < 128)%N -> isalnum c = ascii_isalnum c;
  lower_ascii : forall c, (c < 128)%N -> lower c = [ascii_lower c];
  isspace_ascii : forall c, (c < 128)%N -> isspace c = ascii_isspace c
}.

(** The entries the examples below use: ASCII, U+0130 (LATIN CAPITAL LETTER
    I WITH DOT ABOVE, alphanumeric, whose lowercase mapping is U+0069
    U+0307) and U+0307 (COMBINING DOT ABOVE, a mark, not alphanumeric).
    Every other code point gets the default entry. *)
Definition fragment_isalnum (c : N) : bool :=
  ((c <? 128) && ascii_isalnum c || (c =? 304))%N.
Definition fragment_lower (c : N) : pystr :=
  (if c <? 128 then [ascii_lower c]
   else if c =? 304 then [105; 775] else [c])%N.
Definition fragment_isspace (c : N) : bool :=
  ((c <? 128) && ascii_isspace c)%N.

#[export] Program Instance ucd_fragment : Unicode := {|
  isalnum := fragment_isalnum;
  lower := fragment_lower;
  isspace := fragment_isspace
|}.
Next Obligation.
  intros c Hc. unfold fragment_isalnum.
  apply N.ltb_lt in Hc as Hb. rewrite Hb. simpl.
  replace (c =? 304)%N with false by (symmetry; apply N.eqb_neq; lia).
  apply orb_false_r.
Qed.
Next Obligation.
  intros c Hc. unfold fragment_lower.
  apply N.ltb_lt in Hc. now rewrite Hc.
Qed.
Next Obligation.
  intros c Hc. unfold fragment_isspace.
  apply N.ltb_lt in Hc. now rewrite Hc.
Qed.

Definition nonempty (s : pystr) : bool :=
  match s with [] => false | _ => true end.

(** [sep.join(parts)] *)
Fixpoint join (sep : pystr) (parts : list pystr) : pystr :=
  match parts with
  | [] => []
  | [p] => p
  | p :: ps => p ++ sep ++ join sep ps
  end.

(** [s.split(sep)] for a separator of one character. *)
Fixpoint split (sep : N) (s : pystr) : list pystr :=
  match s with
  | [] => [[]]
  | c :: s' =>
      if (c =? sep)%N then [] :: split sep s'
      else match split sep s' with
           | p :: ps => (c :: p) :: ps
           | [] => [[c]]
           end
  end.

(** [s[-n:]] on a list or a string *)
Definition lastn {A} (n : nat) (l : list A) : list A :=
  drop (length l - n) l.

(** [s.strip()] *)
Fixpoint lstrip `{Unicode} (s : pystr) : pystr :=
  match s with
  | c :: s' => if isspace c then lstrip s' else s
  | [] => []
  end.
Definition strip `{Unicode} (s : pystr) : pystr :=
  rev (lstrip (rev (lstrip s))).

(** [_slug]: the branch-name slug of a task title. *)
Definition slug_chars `{Unicode} (text : pystr) : pystr :=
  flat_map (fun ch => if isalnum ch then lower ch else [hyphen]) text.

Definition _slug `{Unicode} (text : pystr) : pystr :=
  let clean := slug_chars text in
  let clean := join [hyphen] (List.filter nonempty (split hyphen clean)) in
  if nonempty (take 40 clean) then take 40 clean else py "upgrade".

(** [str(n)] of an integer *)
Definition str_of_nat (n : nat) : pystr :=
  py (NilEmpty.string_of_uint (Nat.to_uint n)).
Definition str_of_Z (z : Z) : pystr :=
  py (NilEmpty.string_of_int (Z.to_int z)).
Arguments str_of_nat : simpl never.
Arguments str_of_Z : simpl never.

(** [_trim] *)

Definition _trim (text : pystr) (limit : nat) : pystr :=
  if (length text <=? limit)%nat then text
  else take limit text ++ [newline] ++ py "... (truncated "
       ++ str_of_nat (length text - limit) ++ py " chars)".


(** Comparison of [str] values: lexicographic on code points. *)
Fixpoint pystr_compare (a b : pystr) : comparison :=
  match a, b with
  | [], [] => Eq
  | [], _ :: _ => Lt
  | _ :: _, [] => Gt
  | x :: a', y :: b' =>
      match (x ?= y)%N with
      | Eq => pystr_compare a' b'
      | c => c
      end
  end.

Definition pystr_leb (a b : pystr) : bool :=
  match pystr_compare a b with Gt => false | _ => true end.

(** The lines of a text: [s.split("\n")]. *)
Definition lines (s : pystr) : list pystr := split newline s.

(* ===================================================================== *)
(** ** Requests *)
(* ===================================================================== *)

Record UpgradeRequest := {
  req_id : pystr;
  req_title : pystr;
  req_prompt : pystr;
  req_scope : pystr;            (* skill | core *)
  req_requested_by : pystr;
  req_created_at : pystr
}.

(** [datetime.now()], a naive local date and time. *)
Record datetime := {
  year : nat; month : nat; day : nat;
  hour : nat; minute : nat; second : nat
}.

Definition digit (d : nat) : N := (48 + N.of_nat d)%N.

(** The last [width] decimal digits of [n], most significant first. *)
Fixpoint fixed (width n : nat) : pystr :=
  match width with
  | O => []
  | S w => fixed w (n / 10) ++ [digit (n mod 10)]
  end.

(** A zero-padded decimal field of [strftime]. *)
Definition zpad (width n : nat) : pystr :=
  if (n <? 10 ^ width)%nat then fixed width n else str_of_nat n.

(** The field [%Y] of [strftime]: the year in decimal, which glibc does not
    pad, so that a year before 1000 has fewer than four digits. *)
Definition year_field (y : nat) : pystr :=
  if (y <? 1000)%nat then str_of_nat y else zpad 4 y.

(** [dt.strftime('%Y%m%d-%H%M%S')] *)
Definition strftime (dt : datetime) : pystr :=
  year_field (year dt) ++ zpad 2 (month dt) ++ zpad 2 (day dt) ++ [hyphen]
  ++ zpad 2 (hour dt) ++ zpad 2 (minute dt) ++ zpad 2 (second dt).

(** [UpgradeRequest.create]; [now] is [datetime.now()], [uuid_hex] is
    [uuid.uuid4().hex] and [utc] is [_utc_now()], the default of
    [created_at]. *)
Definition create `{Unicode} (now : datetime) (uuid_hex utc : pystr)
    (title prompt scope requested_by : pystr) : UpgradeRequest :=
  {| req_id := strftime now ++ [hyphen] ++ take 6 uuid_hex;
     req_title := strip title;
     req_prompt := strip prompt;
     req_scope := scope;
     req_requested_by := requested_by;
     req_created_at := utc |}.

(** The order of naive local times. *)
Definition datetime_key (dt : datetime) : list nat :=
  [year dt; month dt; day dt; hour dt; minute dt; second dt].

Fixpoint key_lt (a b : list nat) : Prop :=
  match a, b with
  | x :: a', y :: b' => (x < y)%nat \/ (x = y /\ key_lt a' b')
  | _, _ => False
  end.

Definition datetime_lt (a b : datetime) : Prop :=
  key_lt (datetime_key a) (datetime_key b).

(** The times [datetime] accepts that [strftime] prints in fixed width: the
    years of four digits. *)
Definition datetime_valid (dt : datetime) : Prop :=
  (1000 <= year dt < 10 ^ 4 /\ 1 <= month dt <= 12 /\ 1 <= day dt <= 31
   /\ hour dt <= 23 /\ minute dt <= 59 /\ second dt <= 59)%nat.

(* ===================================================================== *)
(** ** The task store and the trace of effects *)
(* ===================================================================== *)

(** What [write_task_md] puts into a task record. *)
Record TaskMd := {
  md_req : UpgradeRequest;
  md_updated : pystr;
  md_status : pystr;
  md_notes : list pystr
}.

Definition render_task_md (md : TaskMd) : pystr :=
  let req := md_req md in
  join [newline]
    ([ py "# Upgrade Task " ++ req_id req;
       [];
       py "- Title: " ++ req_title req;
       py "- Scope: " ++ req_scope req;
       py "- Requested By: " ++ req_requested_by req;
       py "- Created At (UTC): " ++ req_created_at req;
       py "- Last Updated (UTC): " ++ md_updated md;
       py "- Status: " ++ md_status md;
       [];
       py "## Prompt";
       [];
       req_prompt req;
       [];
       py "## Notes" ]
     ++ List.map (fun n => py "- " ++ n) (md_notes md))
  ++ [newline].

Inductive event :=
| EvQueueWrite (name : pystr) (req : UpgradeRequest) (* queue/<name> written *)
| EvTaskMd (name : pystr) (md : TaskMd)            (* tasks/<name> written *)
| EvPop (name : pystr)                             (* queue/<name> unlinked *)
| EvPatch (name : pystr) (content : pystr)         (* backups/<name> written *)
| EvRun (t : nat) (cmd : list pystr) (cwd : pystr) (timeout : Z)
                                                   (* subprocess.run *)
| EvCodex (t : nat) (prompt : pystr) (timeout : Z)
                                          (* _run_optional_codex entered *)
| EvVerified (ok : bool) (notes : list pystr)      (* _verify returned *)
| EvSpawn (cmd cwd : pystr) (pid : nat)            (* subprocess.Popen *)
| EvSignal (pid : nat) (sig : Z)                   (* os.killpg *)
| EvSleep (secs : Z).                              (* time.sleep *)

(** [EvRun] and [EvCodex] carry the tick at which they happen, the others
    need none.

    The state of the supervisor and of the directories of its store.  The
    directories are keyed by file name. *)
Record Sys := {
  tick : nat;                          (* interactions with the world so far *)
  service_proc : option nat;
  queue : gmap pystr UpgradeRequest;
  tasks : gmap pystr TaskMd;
  backups : gmap pystr pystr;
  trace : list event
}.

Definition init_sys : Sys :=
  {| tick := 0; service_proc := None; queue := ∅; tasks := ∅;
     backups := ∅; trace := [] |}.

(** The result of [subprocess.run]. *)
Inductive run_outcome :=
| Completed (returncode : Z) (stdout stderr : pystr)
| TimeoutExpired
| RunError (e : pystr).

(** The world, asked at [tick].  The readings of the clock are floats, and
    so are their sums and differences: [x + y] and [x - y] in the source are
    the exact results rounded to a binary64 number, [float_round (x + y)]
    and [float_round (x - y)] here.  On whole numbers below 2^53 the
    rounding is the identity. *)
Record World := {
  clock : nat -> Q;                    (* time.time() *)
  float_round : Q -> Q;                (* the rounding of float + and - *)
  utc_now : nat -> pystr;              (* _utc_now() *)
  which : nat -> pystr -> bool;        (* shutil.which(x) is not None *)
  subprocess_run : nat -> list pystr -> pystr -> Z -> run_outcome;
  fault : nat -> option pystr;         (* an OSError of open, write or Popen *)
  poll_alive : nat -> nat -> bool;     (* proc.poll() is None *)
  killpg_ok : nat -> bool;             (* os.killpg does not raise *)
  wait_ok : nat -> bool                (* proc.wait(timeout=20) returns *)
}.

Record Config := {
  workspace : pystr;
  repo_root : pystr;
  service_cmd : pystr;
  build_timeout_s : Z;
  health_grace_s : Z
}.

Definition default_config (ws repo : pystr) : Config :=
  {| workspace := ws; repo_root := repo;
     service_cmd := py "python3 -m nanobot gateway";
     build_timeout_s := 30 * 60; health_grace_s := 20 |}.

(** A computation returns, raises an exception, or is still running when
    the fuel of its loop is spent. *)
Inductive outcome (A : Type) :=
| Done (a : A)
| Raised (e : pystr)
| Diverged.
Arguments Done {A} a.
Arguments Raised {A} e.
Arguments Diverged {A}.

Definition M (A : Type) : Type := Sys -> outcome A * Sys.

Definition ret {A} (a : A) : M A := fun s => (Done a, s).
Definition raise {A} (e : pystr) : M A := fun s => (Raised e, s).
Definition diverge {A} : M A := fun s => (Diverged, s).

Definition bind {A B} (m : M A) (k : A -> M B) : M B :=
  fun s =>
    match m s with
    | (Done a, s1) => k a s1
    | (Raised e, s1) => (Raised e, s1)
    | (Diverged, s1) => (Diverged, s1)
    end.

Notation "x <- m ;; k" := (bind m (fun x => k))
  (at level 100, m at next level, right associativity).
Notation "m ;; k" := (bind m (fun _ => k))
  (at level 100, right associativity).

(** [try: m  except Exception as e: h e].  What a computation raises is an
    [Exception]; a [KeyboardInterrupt], which is none, is among the
    [Hazards] below. *)
Definition try_except {A} (m : M A) (h : pystr -> M A) : M A :=
  fun s =>
    match m s with
    | (Raised e, s1) => h e s1
    | r => r
    end.

(** [try: m  finally: f] *)
Definition try_finally {A} (m : M A) (f : M unit) : M A :=
  fun s =>
    match m s with
    | (Diverged, s1) => (Diverged, s1)
    | (o, s1) =>
        match f s1 with
        | (Done _, s2) => (o, s2)
        | (Raised e, s2) => (Raised e, s2)
        | (Diverged, s2) => (Diverged, s2)
        end
    end.

Definition get : M Sys := fun s => (Done s, s).

Definition emit (e : event) : M unit :=
  fun s => (Done tt,
    {| tick := tick s; service_proc := service_proc s; queue := queue s;
       tasks := tasks s; backups := backups s; trace := trace s ++ [e] |}).

(** Ask the world: the answer at the current tick, and the tick advances. *)
Definition ask {A} (f : nat -> A) : M A :=
  fun s => (Done (f (tick s)),
    {| tick := S (tick s); service_proc := service_proc s; queue := queue s;
       tasks := tasks s; backups := backups s; trace := trace s |}).

Definition set_service_proc (p : option nat) : M unit :=
  fun s => (Done tt,
    {| tick := tick s; service_proc := p; queue := queue s;
       tasks := tasks s; backups := backups s; trace := trace s |}).

Definition set_queue (q : gmap pystr UpgradeRequest) : M unit :=
  fun s => (Done tt,
    {| tick := tick s; service_proc := service_proc s; queue := q;
       tasks := tasks s; backups := backups s; trace := trace s |}).

Definition set_tasks (t : gmap pystr TaskMd) : M unit :=
  fun s => (Done tt,
    {| tick := tick s; service_proc := service_proc s; queue := queue s;
       tasks := t; backups := backups s; trace := trace s |}).

Definition set_backups (b : gmap pystr pystr) : M unit :=
  fun s => (Done tt,
    {| tick := tick s; service_proc := service_proc s; queue := queue s;
       tasks := tasks s; backups := b; trace := trace s |}).

(** An operation that may raise [OSError]: the write of a patch, and the
    opening of the service log with the [Popen] that follows it.  These are
    the statements of [_process] outside [_run_cmd], which catches every
    exception, that can fail, next to the writes of the task log, whose
    faults are among the [Hazards] below. *)
Definition fallible (w : World) : M unit :=
  r <- ask (fault w) ;;
  match r with
  | Some e => raise e
  | None => ret tt
  end.

(* ===================================================================== *)
(** ** UpgradeTaskStore *)
(* ===================================================================== *)

Definition queue_name (req : UpgradeRequest) : pystr := req_id req ++ py ".json".
Definition task_name (req : UpgradeRequest) : pystr := req_id req ++ py ".md".

Definition path_join (dir name : pystr) : pystr := dir ++ py "/" ++ name.

Definition store_root (c : Config) : pystr := path_join (workspace c) (py "upgrades").
Definition queue_dir (c : Config) : pystr := path_join (store_root c) (py "queue").
Definition tasks_dir (c : Config) : pystr := path_join (store_root c) (py "tasks").
Definition logs_dir (c : Config) : pystr := path_join (store_root c) (py "logs").
Definition backups_dir (c : Config) : pystr := path_join (store_root c) (py "backups").
Definition worktrees_dir (c : Config) : pystr := path_join (store_root c) (py "worktrees").

(** [write_task_md]: the record is built from its arguments alone and
    replaces the file.  Here the write does not raise; the write that can
    raise is [write_task_md_fallible] below, with the round of
    [run_forever] that is built on it. *)
Definition write_task_md (w : World) (req : UpgradeRequest) (status : pystr)
    (notes : list pystr) : M unit :=
  now <- ask (utc_now w) ;;
  let md := {| md_req := req; md_updated := now; md_status := status;
               md_notes := notes |} in
  s <- get ;;
  set_tasks (<[task_name req := md]> (tasks s)) ;;
  emit (EvTaskMd (task_name req) md).

Definition enqueue (w : World) (req : UpgradeRequest) : M pystr :=
  s <- get ;;
  set_queue (<[queue_name req := req]> (queue s)) ;;
  emit (EvQueueWrite (queue_name req) req) ;;
  write_task_md w req (py "QUEUED") [py "Task queued."] ;;
  ret (queue_name req).

Definition ends_with (suffix s : pystr) : bool :=
  bool_decide (lastn (length suffix) s = suffix)
  && (length suffix <=? length s)%nat.

Fixpoint insert_sorted (x : pystr) (l : list pystr) : list pystr :=
  match l with
  | [] => [x]
  | y :: l' => if pystr_leb x y then x :: l else y :: insert_sorted x l'
  end.

(** [sorted(names)] *)
Definition sorted (l : list pystr) : list pystr := foldr insert_sorted [] l.

(** [list_pending]: the [*.json] names of the queue directory, sorted. *)
Definition list_pending (s : Sys) : list pystr :=
  sorted (List.filter (ends_with (py ".json")) (map fst (map_to_list (queue s)))).

Definition load (name : pystr) : M UpgradeRequest :=
  s <- get ;;
  match queue s !! name with
  | Some req => ret req
  | None => raise (py "FileNotFoundError")
  end.

Definition pop (name : pystr) : M unit :=
  s <- get ;;
  match queue s !! name with
  | Some _ => set_queue (delete name (queue s)) ;; emit (EvPop name)
  | None => ret tt
  end.

(* ===================================================================== *)
(** ** UpgradeSupervisor *)
(* ===================================================================== *)

Section Supervisor.
Context `{Unicode}.
Variable w : World.
Variable c : Config.

Definition submit (req : UpgradeRequest) : M pystr := enqueue w req.

Definition space : pystr := py " ".

(** [_run_cmd]: it never raises. *)
Definition _run_cmd (cmd : list pystr) (cwd : pystr) (timeout : Z)
    (check : bool) : M (bool * pystr) :=
  s <- get ;;
  r <- ask (fun t => subprocess_run w t cmd cwd timeout) ;;
  emit (EvRun (tick s) cmd cwd timeout) ;;
  match r with
  | TimeoutExpired =>
      ret (false, py "Timeout after " ++ str_of_Z timeout ++ py "s: "
                  ++ join space cmd)
  | RunError e =>
      ret (false, py "Command failed to start (" ++ join space cmd
                  ++ py "): " ++ e)
  | Completed rc out err =>
      let output :=
        out ++ (if nonempty err then [newline] ++ py "STDERR:" ++ [newline] ++ err
                else []) in
      if check && negb (rc =? 0) then
        ret (false, if nonempty output then output
                    else py "Exit code " ++ str_of_Z rc)
      else ret (rc =? 0, output)
  end.

Definition codex_cmd (prompt : pystr) : list pystr :=
  [py "codex"; py "exec"; py "--sandbox"; py "workspace-write";
   py "--ask-for-approval"; py "never"; prompt].

Definition _run_optional_codex (prompt cwd : pystr) (timeout : Z)
    : M (bool * pystr) :=
  s <- get ;;
  emit (EvCodex (tick s) prompt timeout) ;;
  found <- ask (fun t => which w t (py "codex")) ;;
  if negb found then ret (false, py "codex CLI not installed")
  else _run_cmd (codex_cmd prompt) cwd timeout false.

Definition _repo_is_clean : M (bool * pystr) :=
  r <- _run_cmd [py "git"; py "status"; py "--porcelain"] (repo_root c) 30 false ;;
  let '(ok, out) := r in
  if negb ok then ret (false, py "failed to read git status")
  else
    let dirty := strip out in
    if nonempty dirty then ret (false, take 500 dirty)
    else ret (true, py "clean").

(** [_start_service]: opening the log or [Popen] may raise; the handle of
    the new process is fresh. *)
Definition _start_service : M bool :=
  fallible w ;;
  pid <- ask (fun t => t) ;;
  set_service_proc (Some pid) ;;
  emit (EvSpawn (service_cmd c) (repo_root c) pid) ;;
  emit (EvSleep (health_grace_s c)) ;;
  ask (fun t => poll_alive w t pid).

Definition _terminate_process (pid : nat) : M unit :=
  alive <- ask (fun t => poll_alive w t pid) ;;
  if negb alive then ret tt
  else
    let force := (emit (EvSignal pid 9) ;; ask (killpg_ok w) ;; ret tt) in
    emit (EvSignal pid 15) ;;
    sent <- ask (killpg_ok w) ;;
    if negb sent then force
    else
      exited <- ask (wait_ok w) ;;
      if exited then ret tt else force.

Definition _stop_service : M unit :=
  s <- get ;;
  match service_proc s with
  | None => ret tt
  | Some pid => _terminate_process pid ;; set_service_proc None
  end.

Definition _ensure_service_running : M unit :=
  s <- get ;;
  match service_proc s with
  | None => _start_service ;; ret tt
  | Some pid =>
      alive <- ask (fun t => poll_alive w t pid) ;;
      if alive then ret tt else (_start_service ;; ret tt)
  end.

(** The checks of [_verify], in order. *)
Definition checks : list (pystr * list pystr) :=
  [ (py "compile", [py "python3"; py "-m"; py "compileall"; py "nanobot"]);
    (py "ruff", [py "ruff"; py "check"; py "."]);
    (py "pytest", [py "pytest"; py "-q"]) ].

(** The [for] loop of [_verify] and what follows it. *)
Fixpoint verify_loop (cwd : pystr) (todo : list (pystr * list pystr))
    (executed : nat) (notes : list pystr) : M (bool * list pystr) :=
  match todo with
  | [] =>
      if (executed =? 0)%nat then
        ret (false, notes ++ [py "No verification tools available."])
      else ret (true, notes)
  | (name, cmd) :: todo' =>
      let exe := hd [] cmd in
      found <- ask (fun t => which w t exe) ;;
      if negb found then
        verify_loop cwd todo' executed
          (notes ++ [py "Skipped " ++ name ++ py ": '" ++ exe ++ py "' not found."])
      else
        r <- _run_cmd cmd cwd 600 false ;;
        let '(ok, out) := r in
        if negb ok then
          ret (false, notes ++ [name ++ py " failed."; _trim out 1200])
        else verify_loop cwd todo' (S executed) (notes ++ [name ++ py " passed."])
  end.

Definition _verify (cwd : pystr) : M (bool * list pystr) :=
  r <- verify_loop cwd checks 0 [] ;;
  emit (EvVerified (fst r) (snd r)) ;;
  ret r.

(** [int(x)] of a float: truncation towards zero. *)
Definition int_of (x : Q) : Z := Z.quot (Qnum x) (Zpos (Qden x)).

Definition codex_timeout (deadline now : Q) : Z :=
  Z.min 900 (Z.max 60 (int_of (float_round w (deadline - now)))).

Definition codex_prompt (req : UpgradeRequest) (feedback : pystr) : pystr :=
  py "You are upgrading nanobot core. "
  ++ py "Rules: make minimal safe changes, keep service stable, and run quick self-checks. "
  ++ py "Task:" ++ [newline]
  ++ req_prompt req ++ [newline; newline]
  ++ py "If previous attempt failed, fix based on this feedback:" ++ [newline]
  ++ (if nonempty feedback then feedback else py "(none)").

(** The [while] loop of [_develop_and_verify]; [fuel] bounds its
    iterations. *)
Fixpoint develop_loop (fuel : nat) (req : UpgradeRequest) (wt_dir : pystr)
    (deadline : Q) (notes : list pystr) (feedback : pystr) (attempt : nat)
    : M (bool * list pystr) :=
  match fuel with
  | O => diverge
  | S fuel' =>
      now <- ask (clock w) ;;
      if Qlt_le_dec now deadline then
        let attempt := S attempt in
        let notes :=
          notes ++ [py "Attempt " ++ str_of_nat attempt ++ py ": coding in sandbox."] in
        let prompt := codex_prompt req feedback in
        now' <- ask (clock w) ;;
        r <- _run_optional_codex prompt wt_dir (codex_timeout deadline now') ;;
        let '(codex_ok, codex_out) := r in
        let notes :=
          notes ++ [if codex_ok then py "Codex exec finished."
                    else py "Codex exec issue: " ++ take 300 codex_out] in
        v <- _verify wt_dir ;;
        let '(verify_ok, verify_notes) := v in
        let notes := notes ++ verify_notes in
        if verify_ok then ret (true, notes ++ [py "Verification passed."])
        else
          develop_loop fuel' req wt_dir deadline notes
            (join [newline] (lastn 8 verify_notes)) attempt
      else
        ret (false, notes
          ++ [py "Timeout exceeded (30 minutes) before successful verification."])
  end.

Definition _develop_and_verify (fuel : nat) (req : UpgradeRequest)
    (wt_dir : pystr) : M (bool * list pystr) :=
  now <- ask (clock w) ;;
  let deadline := float_round w (now + inject_Z (build_timeout_s c)) in
  develop_loop fuel req wt_dir deadline [] [] 0.

Definition forward_name (req : UpgradeRequest) : pystr :=
  req_id req ++ py "-forward.patch".
Definition rollback_name (req : UpgradeRequest) : pystr :=
  req_id req ++ py "-rollback.patch".

(** [path.write_text(data)] in the backups directory. *)
Definition write_patch (name data : pystr) : M unit :=
  fallible w ;;
  s <- get ;;
  set_backups (<[name := data]> (backups s)) ;;
  emit (EvPatch name data).

Definition git_apply (patch : pystr) : list pystr :=
  [py "git"; py "apply"; py "--index"; patch].
Definition git_apply_reverse (patch : pystr) : list pystr :=
  [py "git"; py "apply"; py "-R"; py "--index"; patch].

(** The end of [_deploy]: cutover, and rollback if the new service does not
    stay alive. *)
Definition cutover (backup_patch : pystr) (notes : list pystr)
    : M (bool * list pystr) :=
  (* Cutover: restart service with upgraded code. *)
  s <- get ;;
  let old_proc := service_proc s in
  _stop_service ;;
  started <- _start_service ;;
  if started then
    ret (true, notes ++ [py "New service started successfully; cutover complete."])
  else
    (* Roll back on startup failure. *)
    let notes := notes ++ [py "New service failed health check; starting rollback."] in
    _run_cmd (git_apply_reverse backup_patch) (repo_root c) 120 false ;;
    _stop_service ;;
    rollback_started <- _start_service ;;
    let notes :=
      notes ++ [if rollback_started
                then py "Rollback succeeded; previous service restored."
                else py "Rollback failed to restore service automatically; manual intervention needed."] in
    match old_proc with
    | Some pid =>
        alive <- ask (fun t => poll_alive w t pid) ;;
        (if alive then _terminate_process pid else ret tt) ;;
        ret (false, notes)
    | None => ret (false, notes)
    end.

(** Step 4 of [_deploy]: the staged diff of the live tree, taken after the
    candidate patch was applied, is kept as the rollback patch. *)
Definition capture_rollback (req : UpgradeRequest) (notes : list pystr)
    : M (list pystr) :=
  let rollback_patch := path_join (backups_dir c) (rollback_name req) in
  r <- _run_cmd [py "git"; py "diff"; py "--binary"; py "--cached"]
         (repo_root c) 120 false ;;
  let '(ok, reverse) := r in
  if ok && nonempty (strip reverse) then
    write_patch (rollback_name req) reverse ;;
    ret (notes ++ [py "Saved rollback patch: " ++ rollback_patch])
  else ret notes.

Definition _deploy (req : UpgradeRequest) (wt_dir : pystr)
    : M (bool * list pystr) :=
  let backup_patch := path_join (backups_dir c) (forward_name req) in
  r <- _run_cmd [py "git"; py "diff"; py "--binary"; py "HEAD"] wt_dir 120 false ;;
  let '(ok, diff) := r in
  if negb ok then
    ret (false, [py "Failed to export candidate patch."; _trim diff 600])
  else if negb (nonempty (strip diff)) then
    ret (false, [py "No code changes were produced."])
  else
    write_patch (forward_name req) diff ;;
    let notes := [py "Saved candidate patch: " ++ backup_patch] in
    r <- _run_cmd (git_apply backup_patch) (repo_root c) 120 false ;;
    let '(ok, out) := r in
    if negb ok then
      ret (false, [py "Failed to apply candidate patch to live repo.";
                   _trim out 800])
    else
      notes <- capture_rollback req notes ;;
      cutover backup_patch notes.

Definition worktree_add (branch wt_dir : pystr) : list pystr :=
  [py "git"; py "worktree"; py "add"; py "-B"; branch; wt_dir; py "HEAD"].
Definition worktree_remove (wt_dir : pystr) : list pystr :=
  [py "git"; py "worktree"; py "remove"; py "--force"; wt_dir].

Definition _process (fuel : nat) (req : UpgradeRequest) : M unit :=
  if negb (bool_decide (req_scope req = py "core")) then
    write_task_md w req (py "REJECTED")
      [py "Non-core task: should be handled by skill installation/update pipeline."]
  else
    r <- _repo_is_clean ;;
    let '(clean, detail) := r in
    if negb clean then
      write_task_md w req (py "FAILED") [py "Repo not clean: " ++ detail]
    else
      write_task_md w req (py "IN_PROGRESS") [py "Creating isolated worktree."] ;;
      let branch :=
        py "codex/upgrade-" ++ _slug (req_title req) ++ [hyphen]
        ++ lastn 6 (req_id req) in
      let wt_dir := path_join (worktrees_dir c) (req_id req) in
      _run_cmd (worktree_add branch wt_dir) (repo_root c) 120 true ;;
      try_finally
        (r <- _develop_and_verify fuel req wt_dir ;;
         let '(ok, notes) := r in
         if negb ok then write_task_md w req (py "FAILED") notes
         else
           d <- _deploy req wt_dir ;;
           let '(deploy_ok, deploy_notes) := d in
           write_task_md w req
             (if deploy_ok then py "SUCCESS" else py "FAILED")
             (notes ++ deploy_notes))
        (_run_cmd (worktree_remove wt_dir) (repo_root c) 120 true ;; ret tt).

(** Lines 135 to 145 of [run_forever]: the oldest pending request, if any,
    is loaded, processed under the handler, and its queue entry removed. *)
Definition run_pending (fuel : nat) : M unit :=
  s <- get ;;
  match list_pending s with
  | [] => ret tt
  | req_file :: _ =>
      req <- load req_file ;;
      try_finally
        (try_except (_process fuel req)
           (fun e => write_task_md w req (py "FAILED")
                       [py "Supervisor exception: " ++ e]))
        (pop req_file)
  end.

(** [run_forever]: the loop has no exit; [fuel] iterations of it are run. *)
Fixpoint run_forever_loop (fuel : nat) (poll_interval_s : Z) (n : nat) : M unit :=
  match n with
  | O => diverge
  | S n' =>
      _ensure_service_running ;;
      run_pending fuel ;;
      emit (EvSleep poll_interval_s) ;;
      run_forever_loop fuel poll_interval_s n'
  end.

Definition run_forever (fuel : nat) (poll_interval_s : Z) (n : nat) : M unit :=
  _ensure_service_running ;;
  run_forever_loop fuel poll_interval_s n.

End Supervisor.

(** [status]: a read-only snapshot. *)
Record Status := {
  service_running : bool;
  pending_tasks : nat;
  latest_pending : option pystr;
  service_log : pystr;
  tasks_dir_path : pystr
}.

Definition status (w : World) (c : Config) : M Status :=
  s <- get ;;
  let pending := list_pending s in
  running <- match service_proc s with
             | None => ret false
             | Some pid => ask (fun t => poll_alive w t pid)
             end ;;
  ret {| service_running := running;
         pending_tasks := length pending;
         latest_pending := head pending;
         service_log := path_join (logs_dir c) (py "service.log");
         tasks_dir_path := tasks_dir c |}.

(* ===================================================================== *)
(** ** The files behind the store *)
(* ===================================================================== *)

(** What the operating system is asked to do.  [Path.write_text] opens its
    target for writing, which creates or empties it, and then writes the
    data; the source has no other way of writing a file. *)
Inductive fs_op :=
| OpOpenTrunc (path : pystr)
| OpWrite (path data : pystr)
| OpRename (src dst : pystr)
| OpUnlink (path : pystr).

Definition write_text (path data : pystr) : list fs_op :=
  [OpOpenTrunc path; OpWrite path data].

Definition apply_op (f : gmap pystr pystr) (o : fs_op) : gmap pystr pystr :=
  match o with
  | OpOpenTrunc p => <[p := []]> f
  | OpWrite p d => <[p := default [] (f !! p) ++ d]> f
  | OpRename a b =>
      match f !! a with
      | Some d => <[b := d]> (delete a f)
      | None => f
      end
  | OpUnlink p => delete p f
  end.

(** [asdict(req)] *)
Definition asdict (req : UpgradeRequest) : list (pystr * pystr) :=
  [ (py "id", req_id req); (py "title", req_title req);
    (py "prompt", req_prompt req); (py "scope", req_scope req);
    (py "requested_by", req_requested_by req);
    (py "created_at", req_created_at req) ].

Section Files.
(** [json.dumps(_, ensure_ascii=False, indent=2)] *)
Variable dumps : list (pystr * pystr) -> pystr.
Variable c : Config.

(** The file an event of the store writes, and its new content. *)
Definition written (e : event) : option (pystr * pystr) :=
  match e with
  | EvQueueWrite name req =>
      Some (path_join (queue_dir c) name, dumps (asdict req))
  | EvTaskMd name md => Some (path_join (tasks_dir c) name, render_task_md md)
  | EvPatch name data => Some (path_join (backups_dir c) name, data)
  | _ => None
  end.

(** The operations behind an event of the store. *)
Definition event_ops (e : event) : list fs_op :=
  match e with
  | EvPop name => [OpUnlink (path_join (queue_dir c) name)]
  | _ => match written e with
         | Some (path, data) => write_text path data
         | None => []
         end
  end.

(** The files as a reader may find them while [ops] are carried out: after
    each operation. *)
Fixpoint observable (f : gmap pystr pystr) (ops : list fs_op)
    : list (gmap pystr pystr) :=
  match ops with
  | [] => []
  | o :: ops' => apply_op f o :: observable (apply_op f o) ops'
  end.

End Files.

(* ===================================================================== *)
(** ** Properties of slugs and ids *)
(* ===================================================================== *)

(** No hyphen is followed by a hyphen. *)
Fixpoint no_double_hyphen (s : pystr) : bool :=
  match s with
  | a :: (b :: _) as s' =>
      negb ((a =? hyphen)%N && (b =? hyphen)%N) && no_double_hyphen s'
  | _ => true
  end.

(** A lowercase alphanumeric character: alphanumeric and its own lowercase. *)
Definition lower_alnum `{Unicode} (ch : N) : Prop :=
  isalnum ch = true /\ lower ch = [ch].

Definition slug_charset `{Unicode} (s : pystr) : Prop :=
  forall ch, ch ∈ s -> ch = hyphen \/ lower_alnum ch.

(** A text that neither starts with a hyphen nor doubles one. *)
Definition tidy (s : pystr) : Prop :=
  head s <> Some hyphen /\ no_double_hyphen s = true.

(** The slug before it is cut to 40 characters. *)
Definition cleaned `{Unicode} (text : pystr) : pystr :=
  join [hyphen] (List.filter nonempty (split hyphen (slug_chars text))).

Definition name_le (a b : pystr) : Prop := pystr_leb a b = true.

(** The claim about ids as the design document has it: of two requests the
    one created first (the local clock does not run backwards in between)
    has the smaller id. *)
Definition ids_follow_creation `{Unicode} : Prop :=
  forall (now1 now2 : datetime) (uuid1 uuid2 utc title prompt scope by_ : pystr),
    datetime_valid now1 -> datetime_valid now2 ->
    ~ datetime_lt now2 now1 ->
    pystr_compare
      (req_id (create now1 uuid1 utc title prompt scope by_))
      (req_id (create now2 uuid2 utc title prompt scope by_)) = Lt.

(* ===================================================================== *)
(** ** Properties of traces *)
(* ===================================================================== *)

(** What an event does to the directories of the store. *)
Definition replay_tasks (t : gmap pystr TaskMd) (e : event) : gmap pystr TaskMd :=
  match e with EvTaskMd n md => <[n := md]> t | _ => t end.
Definition replay_queue (q : gmap pystr UpgradeRequest) (e : event)
    : gmap pystr UpgradeRequest :=
  match e with
  | EvQueueWrite n r => <[n := r]> q
  | EvPop n => delete n q
  | _ => q
  end.
Definition replay_backups (b : gmap pystr pystr) (e : event) : gmap pystr pystr :=
  match e with EvPatch n d => <[n := d]> b | _ => b end.

(** [s'] is reached from [s] by the events [evs]. *)
Definition reach (s s' : Sys) (evs : list event) : Prop :=
  trace s' = trace s ++ evs /\
  tasks s' = foldl replay_tasks (tasks s) evs /\
  queue s' = foldl replay_queue (queue s) evs /\
  backups s' = foldl replay_backups (backups s) evs.

(** [s'] is reached from [s] by events that all satisfy [P]. *)
Definition extends (P : event -> Prop) (s s' : Sys) : Prop :=
  (tick s <= tick s')%nat /\
  exists evs, reach s s' evs /\ Forall P evs.

Definition preserves {A} (P : event -> Prop) (m : M A) : Prop :=
  forall s, extends P s (snd (m s)).

(** The computation always returns. *)
Definition total {A} (m : M A) : Prop :=
  forall s, exists a, fst (m s) = Done a.

(** The computation returns or raises. *)
Definition halts {A} (m : M A) : Prop :=
  forall s, fst (m s) <> Diverged.

(** Kinds of events. *)
Definition is_cmd (e : event) : Prop :=
  match e with EvRun _ _ _ _ | EvCodex _ _ _ | EvVerified _ _ => True | _ => False end.
Definition is_service (e : event) : Prop :=
  match e with EvSpawn _ _ _ | EvSignal _ _ | EvSleep _ => True | _ => False end.
Definition is_patch (e : event) : Prop :=
  match e with EvPatch _ _ => True | _ => False end.
Definition is_log (e : event) : Prop :=
  match e with EvTaskMd _ _ => True | _ => False end.
Definition is_queue (e : event) : Prop :=
  match e with EvQueueWrite _ _ | EvPop _ => True | _ => False end.

Definition is_deploy (e : event) : Prop :=
  is_cmd e \/ is_service e \/ is_patch e.
Definition not_queue (e : event) : Prop := ~ is_queue e.

(** The run of the generation step at tick [t], and the run of a check. *)
Definition codex_run_of (t : nat) (prompt cwd : pystr) (timeout : Z)
    (e : event) : Prop :=
  e = EvRun t (codex_cmd prompt) cwd timeout.
Definition check_run_of (cwd : pystr) (e : event) : Prop :=
  exists t name cmd, (name, cmd) ∈ checks /\ e = EvRun t cmd cwd 600.

(** The last task record written by [evs]. *)
Definition last_log (evs : list event) : option (pystr * TaskMd) :=
  foldl (fun acc e => match e with EvTaskMd n md => Some (n, md) | _ => acc end)
    None evs.

Definition terminal (status : pystr) : Prop :=
  status = py "SUCCESS" \/ status = py "FAILED" \/ status = py "REJECTED".

(** A record of [req] with a terminal status is the last one written. *)
Definition settled (req : UpgradeRequest) (evs : list event) : Prop :=
  exists md, last_log evs = Some (task_name req, md) /\ terminal (md_status md).

(** Within [fuel] interactions the clock passes any deadline of the
    develop-verify loop. *)
Definition deadline_passes (w : World) (c : Config) (fuel : nat) : Prop :=
  forall t n, (t + fuel <= n)%nat ->
    (float_round w (clock w t + inject_Z (build_timeout_s c)) <= clock w n)%Q.

(** A command that changes the live tree: [git apply], forward or reverse. *)
Definition is_git_apply (cmd : list pystr) : Prop :=
  take 2 cmd = [py "git"; py "apply"].

(** An event of a task that does not reach deploy: no patch is written, the
    service is left alone, and no command changes the live tree. *)
Definition before_deploy (e : event) : Prop :=
  ~ is_patch e /\ ~ is_service e /\
  match e with EvRun _ cmd _ _ => ~ is_git_apply cmd | _ => True end.

(** None of the checks in [todo] has its executable installed. *)
Definition no_tool (w : World) (todo : list (pystr * list pystr)) : Prop :=
  forall t name cmd, (name, cmd) ∈ todo -> which w t (hd [] cmd) = false.

(** What the loop gives its external invocations as timeout.  The
    generation step gets the time left as the source computes it, the float
    difference of the deadline and the clock read just before, cut to whole
    seconds and clamped to the range from 60 to 900 seconds; the command it
    runs gets that same value.  A verification check gets 600 seconds. *)
Definition timeout_as_coded (w : World) (deadline : Q) (e : event) : Prop :=
  match e with
  | EvCodex t _ timeout =>
      (0 < t)%nat /\
      timeout = codex_timeout w deadline (clock w (t - 1)) /\
      60 <= timeout <= 900 /\
      ((60 <= float_round w (deadline - clock w (t - 1)))%Q ->
       (inject_Z timeout <= float_round w (deadline - clock w (t - 1)))%Q)
  | EvRun t cmd _ timeout =>
      (exists prompt, cmd = codex_cmd prompt /\ (1 < t)%nat /\
         timeout = codex_timeout w deadline (clock w (t - 2)))
      \/ ((exists name, (name, cmd) ∈ checks) /\ timeout = 600)
  | _ => True
  end.

(** The prompts of the generation step follow the verification notes: each
    is built from the feedback current when it is made, and a verification
    that returns sets the feedback to the join of its last 8 notes. *)
Fixpoint feedback_chain (req : UpgradeRequest) (feedback : pystr)
    (evs : list event) : Prop :=
  match evs with
  | [] => True
  | EvCodex _ prompt _ :: evs' =>
      prompt = codex_prompt req feedback /\ feedback_chain req feedback evs'
  | EvVerified _ notes :: evs' =>
      feedback_chain req (join [newline] (lastn 8 notes)) evs'
  | _ :: evs' => feedback_chain req feedback evs'
  end.

(* ===================================================================== *)
(** ** The claims of the design document that the code does not meet *)
(* ===================================================================== *)

(** Both patches are in the backups before the live tree is changed. *)
Definition patches_before_mutation (req : UpgradeRequest) (evs : list event)
    : Prop :=
  forall j t cmd cwd timeout,
    evs !! j = Some (EvRun t cmd cwd timeout) -> is_git_apply cmd ->
    (exists i d, (i < j)%nat /\ evs !! i = Some (EvPatch (forward_name req) d))
    /\ (exists i d, (i < j)%nat /\ evs !! i = Some (EvPatch (rollback_name req) d)).

(** A later record of a task has all the notes of an earlier one. *)
Definition notes_append_only (evs : list event) : Prop :=
  forall i j n md1 md2, (i < j)%nat ->
    evs !! i = Some (EvTaskMd n md1) -> evs !! j = Some (EvTaskMd n md2) ->
    forall note, note ∈ md_notes md1 -> note ∈ md_notes md2.

(** No invocation gets more time than is left until the deadline. *)
Definition timeouts_within_deadline (w : World) (deadline : Q)
    (evs : list event) : Prop :=
  forall e, e ∈ evs ->
    match e with
    | EvRun t _ _ timeout | EvCodex t _ timeout =>
        (inject_Z timeout <= deadline - clock w t)%Q
    | _ => True
    end.

(** The feedback of a prompt that follows a verification has at most 8
    lines. *)
Definition feedback_within_8_lines (req : UpgradeRequest) (evs : list event)
    : Prop :=
  forall i ok notes t prompt timeout,
    evs !! i = Some (EvVerified ok notes) ->
    evs !! S i = Some (EvCodex t prompt timeout) ->
    exists feedback,
      prompt = codex_prompt req feedback /\ (length (lines feedback) <= 8)%nat.

(** While the file of a store event is written, a reader finds the version
    from before or the new one. *)
Definition atomic_write (dumps : list (pystr * pystr) -> pystr) (c : Config)
    (f : gmap pystr pystr) (e : event) : Prop :=
  forall path data, written dumps c e = Some (path, data) ->
    forall f', f' ∈ observable f (event_ops dumps c e) ->
      f' !! path = f !! path \/ f' !! path = Some data.

(** The file of a store event is written in place: opened at its own path,
    which empties it, and then filled. *)
Definition in_place (dumps : list (pystr * pystr) -> pystr) (c : Config)
    (e : event) (path data : pystr) : Prop :=
  event_ops dumps c e = [OpOpenTrunc path; OpWrite path data] /\
  forall f, observable f (event_ops dumps c e)
            = [<[path := []]> f; <[path := data]> f].

(* ===================================================================== *)
(** ** Scenarios *)
(* ===================================================================== *)

(** A world in which no tool is installed, every command succeeds with no
    output, nothing fails, and a second passes between interactions.  Its
    clock reads whole seconds, as do the clocks of the worlds below, so its
    float arithmetic is exact. *)
Definition calm : World :=
  {| clock := fun t => inject_Z (Z.of_nat t);
     float_round := fun x => x;
     utc_now := fun _ => py "2026-01-01T00:00:00+00:00";
     which := fun _ _ => false;
     subprocess_run := fun _ _ _ _ => Completed 0 [] [];
     fault := fun _ => None;
     poll_alive := fun _ _ => true;
     killpg_ok := fun _ => true;
     wait_ok := fun _ => true |}.

Definition site : Config := default_config (py "/ws") (py "/repo").

Definition noon : datetime :=
  {| year := 2026; month := 3; day := 9; hour := 12; minute := 0; second := 0 |}.
Definition noon_01 : datetime :=
  {| year := 2026; month := 3; day := 9; hour := 12; minute := 0; second := 1 |}.

(** The night of 25 October 2026 in a zone where the clocks go back from
    03:00 to 02:00: 02:30 before the change, and 02:10 after it, forty
    minutes later. *)
Definition before_set_back : datetime :=
  {| year := 2026; month := 10; day := 25; hour := 2; minute := 30; second := 0 |}.
Definition after_set_back : datetime :=
  {| year := 2026; month := 10; day := 25; hour := 2; minute := 10; second := 0 |}.

(** Two requests created within the same second. *)
Definition first_req : UpgradeRequest :=
  create (H := ucd_fragment) noon (py "ffffff0123456789abcdef0123456789")
    (py "2026-03-09T11:00:00+00:00") (py "bump timeout") (py "raise it")
    (py "core") (py "ops").
Definition second_req : UpgradeRequest :=
  create (H := ucd_fragment) noon (py "000000fedcba9876543210fedcba9876")
    (py "2026-03-09T11:00:00+00:00") (py "fix typo") (py "fix it")
    (py "core") (py "ops").

(** The same, with a clock that passes the deadline of the loop at once. *)
Definition brisk : World :=
  {| clock := fun t => inject_Z (1000 * Z.of_nat t);
     float_round := float_round calm;
     utc_now := utc_now calm; which := which calm;
     subprocess_run := subprocess_run calm; fault := fault calm;
     poll_alive := poll_alive calm; killpg_ok := killpg_ok calm;
     wait_ok := wait_ok calm |}.

(** A world in which pytest is installed and passes, the work tree has a
    change, and the new service stays alive. *)
Definition shipping : World :=
  {| clock := clock brisk; float_round := float_round calm;
     utc_now := utc_now calm;
     which := fun _ exe => bool_decide (exe = py "pytest");
     subprocess_run := fun _ cmd _ _ =>
       if bool_decide (take 2 cmd = [py "git"; py "diff"])
       then Completed 0 (py "diff --git a/nanobot/x.py b/nanobot/x.py") []
       else Completed 0 [] [];
     fault := fault calm;
     poll_alive := poll_alive calm; killpg_ok := killpg_ok calm;
     wait_ok := wait_ok calm |}.

(** A world in which pytest is installed and fails with ten lines of
    output; its first run ends ten seconds before the deadline. *)
Definition pytest_output : pystr :=
  join [newline] (replicate 10 (py "E   assert 1 == 2")).

Definition failing : World :=
  {| clock := fun t =>
       inject_Z (if (t <=? 7)%nat then Z.of_nat t
                 else if (t <=? 14)%nat then 1782 + Z.of_nat t
                 else 2382 + Z.of_nat t);
     float_round := float_round calm;
     utc_now := utc_now calm;
     which := fun _ exe => bool_decide (exe = py "pytest");
     subprocess_run := fun _ cmd _ _ =>
       if bool_decide (take 1 cmd = [py "pytest"])
       then Completed 1 pytest_output []
       else Completed 0 [] [];
     fault := fault calm;
     poll_alive := poll_alive calm; killpg_ok := killpg_ok calm;
     wait_ok := wait_ok calm |}.

(** A request for the skill pipeline. *)
Definition skill_req : UpgradeRequest :=
  create (H := ucd_fragment) noon (py "0a1b2c3d4e5f60718293a4b5c6d7e8f9")
    (py "2026-03-09T11:00:00+00:00") (py "add weather skill")
    (py "install it") (py "skill") (py "ops").

Definition sandbox_of (req : UpgradeRequest) : pystr :=
  path_join (worktrees_dir site) (req_id req).

(** The records of [skill_req] when queued and when rejected, and the path
    of its task record. *)
Definition queued_md : TaskMd :=
  {| md_req := skill_req; md_updated := utc_now calm 0;
     md_status := py "QUEUED"; md_notes := [py "Task queued."] |}.
Definition rejected_md : TaskMd :=
  {| md_req := skill_req; md_updated := utc_now calm 1;
     md_status := py "REJECTED";
     md_notes := [py "Non-core task: should be handled by skill installation/update pipeline."] |}.
Definition skill_md_path : pystr :=
  path_join (tasks_dir site) (task_name skill_req).

(** The state in which [first_req] is the one pending request. *)
Definition one_pending : Sys := snd (enqueue calm first_req init_sys).

(** The world of [shipping] with a full disk: every write of a patch and
    every start of the service raises. *)
Definition full_disk : World :=
  {| clock := clock brisk; float_round := float_round calm;
     utc_now := utc_now calm; which := which shipping;
     subprocess_run := subprocess_run shipping;
     fault := fun _ => Some (py "[Errno 28] No space left on device");
     poll_alive := poll_alive calm; killpg_ok := killpg_ok calm;
     wait_ok := wait_ok calm |}.

(* ===================================================================== *)
(** ** Further properties of commands and of the service *)
(* ===================================================================== *)

(** The run of a command that completed with exit code 0. *)
Definition run_passed (w : World) (e : event) : Prop :=
  match e with
  | EvRun t cmd cwd timeout =>
      exists out err, subprocess_run w t cmd cwd timeout = Completed 0 out err
  | _ => True
  end.

(** A text of whitespace only. *)
Definition whitespace `{Unicode} (s : pystr) : Prop :=
  Forall (fun ch => isspace ch = true) s.

(** An event of the develop-verify loop; its command, if it has one, runs
    in [dir]. *)
Definition runs_in (dir : pystr) (e : event) : Prop :=
  match e with
  | EvRun _ _ cwd _ => cwd = dir
  | EvCodex _ _ _ | EvVerified _ _ => True
  | _ => False
  end.

(** The state after a command was run from [s]. *)
Definition after_run (s : Sys) (cmd : list pystr) (cwd : pystr) (timeout : Z)
    : Sys :=
  {| tick := S (tick s); service_proc := service_proc s; queue := queue s;
     tasks := tasks s; backups := backups s;
     trace := trace s ++ [EvRun (tick s) cmd cwd timeout] |}.

(** What [_run_cmd] makes of the standard streams of a process. *)
Definition output_of (out err : pystr) : pystr :=
  out ++ (if nonempty err then [newline] ++ py "STDERR:" ++ [newline] ++ err
          else []).

(** The last note of [_develop_and_verify]. *)
Definition closing_note (ok : bool) : pystr :=
  if ok then py "Verification passed."
  else py "Timeout exceeded (30 minutes) before successful verification.".

(** A supervisor that gives the loop no time at all. *)
Definition no_budget : Config :=
  {| workspace := py "/ws"; repo_root := py "/repo";
     service_cmd := py "python3 -m nanobot gateway";
     build_timeout_s := 0; health_grace_s := 20 |}.

(** Two worlds that treat the service alike: they agree on everything but
    the results of commands. *)
Definition same_service_world (w1 w2 : World) : Prop :=
  fault w1 = fault w2 /\ poll_alive w1 = poll_alive w2 /\
  killpg_ok w1 = killpg_ok w2 /\ wait_ok w1 = wait_ok w2.

(** The state after the service was started from [s]. *)
Definition after_start (c : Config) (s : Sys) : Sys :=
  {| tick := S (S (S (tick s))); service_proc := Some (S (tick s));
     queue := queue s; tasks := tasks s; backups := backups s;
     trace := trace s ++ [EvSpawn (service_cmd c) (repo_root c) (S (tick s));
                          EvSleep (health_grace_s c)] |}.

(** The state after the world was asked once. *)
Definition after_ask (s : Sys) : Sys :=
  {| tick := S (tick s); service_proc := service_proc s; queue := queue s;
     tasks := tasks s; backups := backups s; trace := trace s |}.

(** The world of [shipping] with a work tree that has uncommitted changes. *)
Definition dirty : World :=
  {| clock := clock brisk; float_round := float_round calm;
     utc_now := utc_now calm; which := which shipping;
     subprocess_run := fun _ cmd _ _ =>
       if bool_decide (take 2 cmd = [py "git"; py "status"])
       then Completed 0 (py " M nanobot/x.py") []
       else Completed 0 [] [];
     fault := fault calm;
     poll_alive := poll_alive calm; killpg_ok := killpg_ok calm;
     wait_ok := wait_ok calm |}.

(** The world of [shipping] in which the candidate patch does not apply to
    the live tree. *)
Definition conflict : World :=
  {| clock := clock brisk; float_round := float_round calm;
     utc_now := utc_now calm; which := which shipping;
     subprocess_run := fun _ cmd _ _ =>
       if bool_decide (take 2 cmd = [py "git"; py "diff"])
       then Completed 0 (py "diff --git a/nanobot/x.py b/nanobot/x.py") []
       else if bool_decide (take 2 cmd = [py "git"; py "apply"])
       then Completed 1 [] (py "error: patch failed: nanobot/x.py:1")
       else Completed 0 [] [];
     fault := fault calm;
     poll_alive := poll_alive calm; killpg_ok := killpg_ok calm;
     wait_ok := wait_ok calm |}.

(** The world of [shipping] in which no service survives the grace period,
    and the same with a live tree in which no reverse patch applies. *)
Definition stillborn : World :=
  {| clock := clock brisk; float_round := float_round calm;
     utc_now := utc_now calm; which := which shipping;
     subprocess_run := subprocess_run shipping;
     fault := fault calm;
     poll_alive := fun _ _ => false; killpg_ok := killpg_ok calm;
     wait_ok := wait_ok calm |}.

Definition stillborn_stuck : World :=
  {| clock := clock brisk; float_round := float_round calm;
     utc_now := utc_now calm; which := which shipping;
     subprocess_run := fun t cmd cwd timeout =>
       if bool_decide (take 3 cmd = [py "git"; py "apply"; py "-R"])
       then Completed 1 [] (py "error: patch does not apply")
       else subprocess_run shipping t cmd cwd timeout;
     fault := fault calm;
     poll_alive := fun _ _ => false; killpg_ok := killpg_ok calm;
     wait_ok := wait_ok calm |}.

(** The service is down: the supervisor holds no handle, or the handle of
    a process that has exited. *)
Definition service_down (w : World) (s : Sys) : Prop :=
  match service_proc s with
  | Some pid => poll_alive w (tick s) pid = false
  | None => True
  end.

(** The tick at which [_ensure_service_running] opens the service log when
    it starts the service from [s]: a poll of the old handle comes first. *)
Definition restart_tick (s : Sys) : nat :=
  match service_proc s with
  | Some _ => S (tick s)
  | None => tick s
  end.

(** An event that is not a [git apply], forward or reverse. *)
Definition no_apply (e : event) : Prop :=
  match e with EvRun _ cmd _ _ => ~ is_git_apply cmd | _ => True end.

(** A signal sent to a process, and the two events of a start of the
    service under the handle [pid]. *)
Definition is_signal (e : event) : Prop :=
  match e with EvSignal _ _ => True | _ => False end.

Definition spawned (c : Config) (pid : nat) : list event :=
  [EvSpawn (service_cmd c) (repo_root c) pid; EvSleep (health_grace_s c)].

(* ===================================================================== *)
(** ** What can go wrong around a task *)
(* ===================================================================== *)

(** The hazards of a round of [run_forever] that the definitions above
    leave out.  [Path.write_text] of the task log can raise, an [OSError]
    or, for a lone surrogate in the text, a [UnicodeEncodeError].  A
    [KeyboardInterrupt] or [SystemExit] is no [Exception], so that the
    handler of [run_forever] does not catch it; it can arrive at any
    statement, and the model has it arrive as the [try] block is entered.
    And a file of the queue can hold text that [json.loads] or the
    constructor of [UpgradeRequest] refuses. *)
Record Hazards := {
  log_fault : nat -> option pystr;     (* write_text of the task log raises *)
  interrupt : nat -> option pystr;     (* a KeyboardInterrupt arrives *)
  unparsable : pystr -> bool           (* the queue file holds no request *)
}.

(** [write_task_md] with a write that can raise: the content is built,
    which reads the clock, and when [write_text] raises no record of the
    status is made. *)
Definition write_task_md_fallible (h : Hazards) (w : World)
    (req : UpgradeRequest) (status : pystr) (notes : list pystr) : M unit :=
  s <- get ;;
  match log_fault h (tick s) with
  | Some e => ask (utc_now w) ;; raise e
  | None => write_task_md w req status notes
  end.

(** [load] of a file that may not parse. *)
Definition load_fallible (h : Hazards) (name : pystr) : M UpgradeRequest :=
  s <- get ;;
  match queue s !! name with
  | Some req =>
      if unparsable h name then raise (py "JSONDecodeError") else ret req
  | None => raise (py "FileNotFoundError")
  end.

Section Hazardous.
Context `{Unicode}.
Variable h : Hazards.
Variable w : World.
Variable c : Config.

(** [_process], with the writes of the task log that can raise. *)
Definition _process_fallible (fuel : nat) (req : UpgradeRequest) : M unit :=
  if negb (bool_decide (req_scope req = py "core")) then
    write_task_md_fallible h w req (py "REJECTED")
      [py "Non-core task: should be handled by skill installation/update pipeline."]
  else
    r <- _repo_is_clean w c ;;
    let '(clean, detail) := r in
    if negb clean then
      write_task_md_fallible h w req (py "FAILED") [py "Repo not clean: " ++ detail]
    else
      write_task_md_fallible h w req (py "IN_PROGRESS")
        [py "Creating isolated worktree."] ;;
      let branch :=
        py "codex/upgrade-" ++ _slug (req_title req) ++ [hyphen]
        ++ lastn 6 (req_id req) in
      let wt_dir := path_join (worktrees_dir c) (req_id req) in
      _run_cmd w (worktree_add branch wt_dir) (repo_root c) 120 true ;;
      try_finally
        (r <- _develop_and_verify w c fuel req wt_dir ;;
         let '(ok, notes) := r in
         if negb ok then write_task_md_fallible h w req (py "FAILED") notes
         else
           d <- _deploy w c req wt_dir ;;
           let '(deploy_ok, deploy_notes) := d in
           write_task_md_fallible h w req
             (if deploy_ok then py "SUCCESS" else py "FAILED")
             (notes ++ deploy_notes))
        (_run_cmd w (worktree_remove wt_dir) (repo_root c) 120 true ;; ret tt).

(** Lines 135 to 145 of [run_forever] with the hazards.  [load] stands
    before the [try]; an interrupt passes the handler by; [finally] removes
    the entry whatever happened in the [try] block. *)
Definition run_pending_fallible (fuel : nat) : M unit :=
  s <- get ;;
  match list_pending s with
  | [] => ret tt
  | req_file :: _ =>
      req <- load_fallible h req_file ;;
      try_finally
        (s1 <- get ;;
         match interrupt h (tick s1) with
         | Some e => raise e
         | None =>
             try_except (_process_fallible fuel req)
               (fun e => write_task_md_fallible h w req (py "FAILED")
                           [py "Supervisor exception: " ++ e])
         end)
        (pop req_file)
  end.

Fixpoint run_forever_loop_fallible (fuel : nat) (poll_interval_s : Z) (n : nat)
    : M unit :=
  match n with
  | O => diverge
  | S n' =>
      _ensure_service_running w c ;;
      run_pending_fallible fuel ;;
      emit (EvSleep poll_interval_s) ;;
      run_forever_loop_fallible fuel poll_interval_s n'
  end.

End Hazardous.

(** No hazard; a task log that cannot be written; an interrupt whenever a
    task is started; and a first request whose file does not parse. *)
Definition quiet : Hazards :=
  {| log_fault := fun _ => None; interrupt := fun _ => None;
     unparsable := fun _ => false |}.


Definition interrupted : Hazards :=
  {| log_fault := fun _ => None;
     interrupt := fun _ => Some (py "KeyboardInterrupt");
     unparsable := fun _ => false |}.

Definition garbled : Hazards :=
  {| log_fault := fun _ => None; interrupt := fun _ => None;
     unparsable := fun name => bool_decide (name = queue_name first_req) |}.

(** The state in which [second_req] was submitted after [first_req]. *)
Definition two_pending : Sys := snd (enqueue calm second_req one_pending).

(** The names of the queue entries that [evs] remove, in their order. *)
Definition popped (evs : list event) : list pystr :=
  omap (fun e => match e with EvPop name => Some name | _ => None end) evs.

(** A write to the queue. *)
Definition is_enqueue (e : event) : Prop :=
  match e with EvQueueWrite _ _ => True | _ => False end.

(** No record of [evs] has a terminal status. *)
Definition unsettled (evs : list event) : Prop :=
  Forall (fun e => match e with
                   | EvTaskMd _ md => ~ terminal (md_status md)
                   | _ => True
                   end) evs.

Section SlugFacts.
Context `{Unicode}.

Lemma split_nonnil sep s : split sep s <> [].
Proof.
  destruct s as [|ch s]; simpl; [done|].
  destruct (ch =? sep)%N; [done|]. by destruct (split sep s).
Qed.

Lemma split_parts sep s : Forall (fun p => sep ∉ p) (split sep s).
Proof.
  induction s as [|ch s IH]; simpl.
  - repeat constructor. apply not_elem_of_nil.
  - destruct (ch =? sep)%N eqn:E.
    + constructor; [apply not_elem_of_nil | done].
    + apply N.eqb_neq in E.
      destruct (split sep s) as [|p ps]; [repeat constructor|].
      * intros Hin. apply list_elem_of_singleton in Hin. congruence.
      * inversion_clear IH as [|? ? Hp Hps]. constructor; [|done].
        rewrite not_elem_of_cons. split; [congruence | done].
Qed.

Lemma split_elem sep s p ch : p ∈ split sep s -> ch ∈ p -> ch ∈ s.
Proof.
  revert p. induction s as [|c s IH]; simpl; intros p Hp Hch.
  - apply list_elem_of_singleton in Hp. subst. by apply not_elem_of_nil in Hch.
  - destruct (c =? sep)%N.
    + apply elem_of_cons in Hp as [->|Hp].
      * by apply not_elem_of_nil in Hch.
      * right. eauto.
    + destruct (split sep s) as [|q qs] eqn:E.
      * apply list_elem_of_singleton in Hp. subst.
        apply list_elem_of_singleton in Hch. subst. left.
      * apply elem_of_cons in Hp as [->|Hp].
        -- apply elem_of_cons in Hch as [->|Hch]; [left|].
           right. apply (IH q); [left | done].
        -- right. apply (IH p); [by right | done].
Qed.

Lemma join_elem sep ps ch :
  ch ∈ join sep ps -> ch ∈ sep \/ exists p, p ∈ ps /\ ch ∈ p.
Proof.
  induction ps as [|p ps IH]; simpl; intros Hch.
  - by apply not_elem_of_nil in Hch.
  - destruct ps as [|q qs].
    + right. exists p. split; [left | done].
    + rewrite !elem_of_app in Hch. destruct Hch as [Hch|[Hch|Hch]].
      * right. exists p. split; [left | done].
      * by left.
      * destruct (IH Hch) as [?|(r & Hr & ?)]; [by left|].
        right. exists r. split; [by right | done].
Qed.

Lemma tidy_part p : hyphen ∉ p -> tidy p.
Proof.
  induction p as [|a p IH]; intros Hp; [done|].
  apply not_elem_of_cons in Hp as [Ha Hp]. destruct (IH Hp) as [_ IH2].
  split; [simpl; congruence|].
  destruct p as [|b p]; [done|].
  change (negb ((a =? hyphen)%N && (b =? hyphen)%N)
          && no_double_hyphen (b :: p) = true).
  rewrite IH2. assert ((a =? hyphen)%N = false) as -> by (apply N.eqb_neq; congruence). done.
Qed.

Lemma tidy_app p rest :
  p <> [] -> hyphen ∉ p -> tidy rest -> tidy (p ++ hyphen :: rest).
Proof.
  intros Hne Hp [Hhd Hnd]. induction p as [|a p IH]; [done|].
  apply not_elem_of_cons in Hp as [Ha Hp].
  split; [simpl; congruence|].
  assert ((a =? hyphen)%N = false) as Ha' by (apply N.eqb_neq; congruence).
  destruct p as [|b p].
  - change (negb ((a =? hyphen)%N && (hyphen =? hyphen)%N)
            && no_double_hyphen (hyphen :: rest) = true).
    rewrite Ha'. simpl.
    destruct rest as [|r rest]; [done|].
    assert (r <> hyphen) as Hr by (simpl in Hhd; congruence).
    apply N.eqb_neq in Hr.
    change (negb ((hyphen =? hyphen)%N && (r =? hyphen)%N)
            && no_double_hyphen (r :: rest) = true).
    rewrite Hr, andb_false_r. exact Hnd.
  - destruct IH as [_ IH]; [done | done |].
    change (negb ((a =? hyphen)%N && (b =? hyphen)%N)
            && no_double_hyphen ((b :: p) ++ hyphen :: rest) = true).
    rewrite IH, Ha'. done.
Qed.

Lemma tidy_join ps :
  Forall (fun p => p <> [] /\ hyphen ∉ p) ps -> tidy (join [hyphen] ps).
Proof.
  induction 1 as [|p ps [Hne Hp] Hps IH]; [done|].
  simpl. destruct ps as [|q qs]; [by apply tidy_part|].
  by apply tidy_app.
Qed.

Lemma tidy_take n s : tidy s -> tidy (take n s).
Proof.
  intros [Hhd Hnd]. split.
  - destruct n, s; simpl in *; congruence.
  - clear Hhd. revert n Hnd. induction s as [|a s IH]; intros [|n] Hnd; try done.
    destruct s as [|b s]; [by destruct n|].
    destruct n as [|n]; [done|].
    change (no_double_hyphen (a :: b :: s)) with
      (negb ((a =? hyphen)%N && (b =? hyphen)%N) && no_double_hyphen (b :: s)) in Hnd.
    apply andb_prop in Hnd as [Hab Hnd].
    change (negb ((a =? hyphen)%N && (b =? hyphen)%N)
            && no_double_hyphen (take (S n) (b :: s)) = true).
    rewrite Hab. simpl. exact (IH (S n) Hnd).
Qed.

Lemma no_double_infix s pre post :
  no_double_hyphen s = true -> s <> pre ++ [hyphen; hyphen] ++ post.
Proof.
  revert s. induction pre as [|a pre IH]; intros s Hnd ->.
  - simpl in Hnd. done.
  - rewrite <- app_comm_cons in Hnd.
    destruct (pre ++ [hyphen; hyphen] ++ post) as [|b t] eqn:E.
    + by destruct pre.
    + change (negb ((a =? hyphen)%N && (b =? hyphen)%N)
            && no_double_hyphen (b :: t) = true) in Hnd.
      apply andb_prop in Hnd as [_ Hnd]. by apply (IH (b :: t)).
Qed.

Lemma filter_parts sep s :
  Forall (fun p => p <> [] /\ sep ∉ p) (List.filter nonempty (split sep s)).
Proof.
  pose proof (split_parts sep s) as Hs.
  induction Hs as [|p ps Hp Hps IH]; simpl; [done|].
  destruct p; simpl; [done|]. constructor; [split|]; done.
Qed.

Lemma split_hyphens s :
  Forall (fun ch => ch = hyphen) s ->
  List.filter nonempty (split hyphen s) = [].
Proof.
  induction 1 as [|ch s -> Hs IH]; [done|]. simpl. exact IH.
Qed.

Lemma slug_unfold text :
  _slug text = if nonempty (take 40 (cleaned text))
               then take 40 (cleaned text) else py "upgrade".
Proof. reflexivity. Qed.

Lemma cleaned_tidy text : tidy (cleaned text).
Proof. apply tidy_join, filter_parts. Qed.

Lemma cleaned_elem text ch :
  ch ∈ cleaned text ->
  ch = hyphen \/ exists c, c ∈ text /\ isalnum c = true /\ ch ∈ lower c.
Proof.
  intros Hch. apply join_elem in Hch as [Hch|(p & Hp & Hch)].
  - left. by apply list_elem_of_singleton in Hch.
  - apply list_elem_of_In, filter_In in Hp as [Hp _].
    apply list_elem_of_In in Hp.
    pose proof (split_elem _ _ _ _ Hp Hch) as Hin.
    apply list_elem_of_In, in_flat_map in Hin as (c & Hc & Hin).
    apply list_elem_of_In in Hc, Hin.
    destruct (isalnum c) eqn:E.
    + right. eauto.
    + left. by apply list_elem_of_singleton in Hin.
Qed.

Lemma slug_chars_hyphens text :
  (forall c, c ∈ text -> isalnum c = false) ->
  Forall (fun ch => ch = hyphen) (slug_chars text).
Proof.
  induction text as [|c text IH]; intros Hall; [constructor|].
  unfold slug_chars. simpl. rewrite (Hall c) by left. constructor; [done|].
  apply IH. intros. apply Hall. by right.
Qed.

End SlugFacts.

Lemma ascii_lower_alnum `{Unicode} c :
  (c < 128)%N -> isalnum c = true ->
  lower c = [ascii_lower c] /\ lower_alnum (ascii_lower c).
Proof.
  intros Hc Ha. rewrite isalnum_ascii in Ha by done.
  split; [by apply lower_ascii|].
  assert (ascii_lower c < 128)%N as Hl.
  { unfold ascii_lower. destruct (_ && _) eqn:E; [|done].
    apply andb_prop in E as [_ E]. apply N.leb_le in E. lia. }
  assert (ascii_isalnum (ascii_lower c) = true
          /\ ascii_lower (ascii_lower c) = ascii_lower c) as [H1 H2].
  { unfold ascii_isalnum, ascii_lower in *.
    repeat match goal with
           | |- context [(?a <=? ?b)%N] => destruct (N.leb_spec a b)
           | H : context [(?a <=? ?b)%N] |- _ => destruct (N.leb_spec a b)
           end; simpl in *; try done; try lia. }
  split; [by rewrite isalnum_ascii | by rewrite lower_ascii, H2].
Qed.

Lemma upgrade_lower_alnum `{Unicode} ch : ch ∈ py "upgrade" -> lower_alnum ch.
Proof.
  intros Hch. assert (ch < 128 /\ ascii_isalnum ch = true /\ ascii_lower ch = ch)%N
    as (? & ? & Hl).
  { vm_compute in Hch. repeat (apply elem_of_cons in Hch as [->|Hch]; [done|]).
    by apply not_elem_of_nil in Hch. }
  split; [by rewrite isalnum_ascii | by rewrite lower_ascii, Hl].
Qed.

Example slug_of_title :
  _slug (H := ucd_fragment) (py "Hello,  World!! -- fix__it") = py "hello-world-fix-it".
Proof. reflexivity. Qed.

Example slug_of_punctuation : _slug (H := ucd_fragment) (py "--__--") = py "upgrade".
Proof. reflexivity. Qed.

Example slug_is_cut :
  length (_slug (H := ucd_fragment)
            (py "a very long title that goes on and on and on and on")) = 40%nat.
Proof. reflexivity. Qed.

Example trim_cuts :
  _trim (py "abcdef") 3 = py "abc" ++ [newline] ++ py "... (truncated 3 chars)".
Proof. reflexivity. Qed.

(** C10, as the code has it.  For every title the slug is not empty, has at
    most 40 characters, does not start with a hyphen, has no two hyphens in
    a row, and is "upgrade" when the title has no alphanumeric character.
    Its characters are hyphens and the characters of the lowercase mappings
    of the alphanumeric characters of the title; for an ASCII title these
    are lowercase alphanumeric characters. *)
Theorem slug_shape `{Unicode} (text : pystr) :
  _slug text <> [] /\
  (length (_slug text) <= 40)%nat /\
  head (_slug text) <> Some hyphen /\
  (forall pre post, _slug text <> pre ++ [hyphen; hyphen] ++ post) /\
  (forall ch, ch ∈ _slug text ->
     ch = hyphen
     \/ (exists c, c ∈ text /\ isalnum c = true /\ ch ∈ lower c)
     \/ _slug text = py "upgrade") /\
  (Forall (fun c => (c < 128)%N) text -> slug_charset (_slug text)) /\
  ((forall c, c ∈ text -> isalnum c = false) -> _slug text = py "upgrade").
Proof.
  pose proof (tidy_take 40 _ (cleaned_tidy text)) as [Hhd Hnd].
  assert (forall ch, ch ∈ _slug text ->
     ch = hyphen
     \/ (exists c, c ∈ text /\ isalnum c = true /\ ch ∈ lower c)
     \/ _slug text = py "upgrade") as Hchars.
  { intros ch. rewrite slug_unfold.
    destruct (nonempty (take 40 (cleaned text))) eqn:E; [|by auto].
    intros Hch. apply elem_of_take in Hch as (i & Hch & _).
    apply list_elem_of_lookup_2, cleaned_elem in Hch. tauto. }
  rewrite slug_unfold in *.
  destruct (nonempty (take 40 (cleaned text))) eqn:E.
  - split; [by destruct (take 40 (cleaned text))|].
    split; [rewrite length_take; lia|].
    split; [done|].
    split; [intros; by apply no_double_infix|].
    split; [done|]. split.
    + intros Hascii ch Hch.
      destruct (Hchars ch Hch) as [?|[(c & Hc & Hal & Hin)|Heq]]; [by left| |].
      * right. rewrite Forall_forall in Hascii.
        destruct (ascii_lower_alnum c (Hascii c Hc) Hal) as [Hl ?].
        rewrite Hl in Hin. by apply list_elem_of_singleton in Hin as ->.
      * right. apply upgrade_lower_alnum. by rewrite <- Heq.
    + intros Hnone. exfalso.
      assert (cleaned text = []) as Hnil.
      { unfold cleaned. by rewrite split_hyphens by by apply slug_chars_hyphens. }
      by rewrite Hnil in E.
  - split; [done|]. split; [vm_compute; lia|].
    split; [done|].
    split; [intros; by apply no_double_infix|].
    split; [done|]. split; [|done].
    intros _ ch Hch. right. by apply upgrade_lower_alnum.
Qed.

Lemma slug_shape_witness :
  Forall (fun c => (c < 128)%N) (py "Fix It")
  /\ slug_charset (H := ucd_fragment) (_slug (py "Fix It")).
Proof.
  assert (Forall (fun c => (c < 128)%N) (py "Fix It")) as Hascii
    by (vm_compute; repeat constructor).
  split; [exact Hascii|].
  exact (proj1 (proj2 (proj2 (proj2 (proj2 (proj2
    (slug_shape (H := ucd_fragment) (py "Fix It"))))))) Hascii).
Defined.

(** C10 as stated fails: lowering U+0130 leaves U+0307, which is neither a
    hyphen nor alphanumeric, in the slug. *)
Lemma slug_charset_counterexample :
  _slug (H := ucd_fragment) [304%N] = [105%N; 775%N]
  /\ ~ slug_charset (H := ucd_fragment) (_slug (H := ucd_fragment) [304%N]).
Proof.
  split; [reflexivity|].
  intros Hall. destruct (Hall 775%N) as [Hh|[Ha _]].
  - vm_compute. right. left.
  - discriminate Hh.
  - discriminate Ha.
Qed.

(* ===================================================================== *)
(** ** Ids and the order of the queue *)
(* ===================================================================== *)

Lemma pystr_compare_refl a : pystr_compare a a = Eq.
Proof. induction a as [|x a IH]; simpl; [done|]. by rewrite N.compare_refl. Qed.

Lemma pystr_compare_eq a b : pystr_compare a b = Eq -> a = b.
Proof.
  revert b. induction a as [|x a IH]; intros [|y b]; simpl; try done.
  destruct (x ?= y)%N eqn:E; try done.
  apply N.compare_eq in E as ->. intros. f_equal. by apply IH.
Qed.

Lemma pystr_compare_antisym a b :
  pystr_compare b a = CompOpp (pystr_compare a b).
Proof.
  revert b. induction a as [|x a IH]; intros [|y b]; simpl; try done.
  rewrite (N.compare_antisym x y). destruct (x ?= y)%N; simpl; auto.
Qed.

Lemma pystr_compare_lt_trans a b c :
  pystr_compare a b = Lt -> pystr_compare b c = Lt -> pystr_compare a c = Lt.
Proof.
  revert b c. induction a as [|x a IH]; intros [|y b] [|z c]; simpl; try done.
  destruct (N.compare_spec x y) as [->|Hxy|Hxy]; [| |done].
  - destruct (N.compare_spec y z) as [->|Hyz|Hyz]; [apply IH|done|done].
  - intros _. destruct (N.compare_spec y z) as [->|Hyz|Hyz]; [| |done].
    + intros _. destruct (N.compare_spec x z); [lia|done|lia].
    + intros _. destruct (N.compare_spec x z); [lia|done|lia].
Qed.

Lemma pystr_leb_trans a b c :
  pystr_leb a b = true -> pystr_leb b c = true -> pystr_leb a c = true.
Proof.
  unfold pystr_leb. intros Hab Hbc.
  destruct (pystr_compare a b) eqn:E1; [| |done].
  - apply pystr_compare_eq in E1 as ->. done.
  - destruct (pystr_compare b c) eqn:E2; [| |done].
    + apply pystr_compare_eq in E2 as ->. by rewrite E1.
    + by rewrite (pystr_compare_lt_trans a b c).
Qed.

Lemma pystr_leb_total a b : pystr_leb a b = false -> pystr_leb b a = true.
Proof.
  unfold pystr_leb. rewrite (pystr_compare_antisym a b).
  by destruct (pystr_compare a b).
Qed.

(** Texts of equal length compare first; what follows decides a tie. *)
Lemma pystr_compare_app x y u v :
  length x = length y ->
  pystr_compare (x ++ u) (y ++ v) =
  match pystr_compare x y with Eq => pystr_compare u v | r => r end.
Proof.
  revert y. induction x as [|a x IH]; intros [|b y] Hlen; simpl in *; try done.
  destruct (a ?= b)%N; [|done|done]. apply IH. lia.
Qed.

Lemma pystr_compare_singleton x y : pystr_compare [x] [y] = (x ?= y)%N.
Proof. simpl. by destruct (x ?= y)%N. Qed.

Lemma length_fixed w n : length (fixed w n) = w.
Proof.
  revert n. induction w as [|w IH]; intros n; simpl; [done|].
  rewrite length_app, IH. simpl. lia.
Qed.

Lemma digit_compare a b :
  (a < 10)%nat -> (b < 10)%nat -> (digit a ?= digit b)%N = Nat.compare a b.
Proof.
  intros Ha Hb. unfold digit.
  destruct (Nat.compare_spec a b) as [->|Hlt|Hgt].
  - apply N.compare_refl.
  - apply N.compare_lt_iff. lia.
  - apply N.compare_gt_iff. lia.
Qed.

Lemma fixed_compare w a b :
  (a < 10 ^ w)%nat -> (b < 10 ^ w)%nat ->
  pystr_compare (fixed w a) (fixed w b) = Nat.compare a b.
Proof.
  revert a b. induction w as [|w IH]; intros a b Ha Hb.
  - simpl in *. assert (a = 0%nat) as -> by lia. by assert (b = 0%nat) as -> by lia.
  - change (fixed (S w) a) with (fixed w (a / 10) ++ [digit (a mod 10)]).
    change (fixed (S w) b) with (fixed w (b / 10) ++ [digit (b mod 10)]).
    rewrite pystr_compare_app by by rewrite !length_fixed.
    pose proof (Nat.div_mod_eq a 10) as Ea. pose proof (Nat.div_mod_eq b 10) as Eb.
    pose proof (Nat.mod_upper_bound a 10 ltac:(lia)) as Ua.
    pose proof (Nat.mod_upper_bound b 10 ltac:(lia)) as Ub.
    rewrite Nat.pow_succ_r' in Ha, Hb.
    rewrite IH by (apply Nat.Div0.div_lt_upper_bound; lia).
    rewrite pystr_compare_singleton, digit_compare by done.
    destruct (Nat.compare_spec (a / 10) (b / 10)) as [Hq|Hq|Hq],
             (Nat.compare_spec (a mod 10) (b mod 10)) as [Hr|Hr|Hr],
             (Nat.compare_spec a b) as [Hab|Hab|Hab]; try done; lia.
Qed.

Lemma strftime_valid dt :
  datetime_valid dt ->
  strftime dt =
  fixed 4 (year dt) ++ fixed 2 (month dt) ++ fixed 2 (day dt) ++ [hyphen]
  ++ fixed 2 (hour dt) ++ fixed 2 (minute dt) ++ fixed 2 (second dt).
Proof.
  intros (Hy & Hm & Hd & Hh & Hmi & Hs). unfold strftime, year_field, zpad.
  change (10 ^ 2)%nat with 100%nat.
  replace (year dt <? 1000)%nat with false by (symmetry; apply Nat.ltb_ge; lia).
  repeat match goal with
         | |- context [(?a <? ?b)%nat] =>
             replace (a <? b)%nat with true by (symmetry; apply Nat.ltb_lt; lia)
         end.
  reflexivity.
Qed.

Lemma strftime_compare a b u v :
  datetime_valid a -> datetime_valid b ->
  pystr_compare (strftime a ++ u) (strftime b ++ v) =
  match Nat.compare (year a) (year b) with
  | Eq => match Nat.compare (month a) (month b) with
    | Eq => match Nat.compare (day a) (day b) with
      | Eq => match Nat.compare (hour a) (hour b) with
        | Eq => match Nat.compare (minute a) (minute b) with
          | Eq => match Nat.compare (second a) (second b) with
            | Eq => pystr_compare u v
            | r => r end
          | r => r end
        | r => r end
      | r => r end
    | r => r end
  | r => r end.
Proof.
  intros Ha Hb. rewrite !strftime_valid by done.
  destruct Ha as (? & ? & ? & ? & ? & ?), Hb as (? & ? & ? & ? & ? & ?).
  rewrite <- !app_assoc.
  repeat (rewrite pystr_compare_app by (by rewrite ?length_fixed);
          rewrite ?pystr_compare_refl).
  change (10 ^ 2)%nat with 100%nat in *.
  rewrite !fixed_compare by (change (10 ^ 2)%nat with 100%nat; lia).
  reflexivity.
Qed.

Lemma insert_sorted_elem x y l : x ∈ insert_sorted y l <-> x = y \/ x ∈ l.
Proof.
  induction l as [|z l IH]; simpl.
  - rewrite list_elem_of_singleton, elem_of_nil. tauto.
  - destruct (pystr_leb y z); rewrite ?elem_of_cons, ?IH; tauto.
Qed.

Lemma sorted_elem x l : x ∈ sorted l <-> x ∈ l.
Proof.
  induction l as [|y l IH]; simpl; [done|].
  rewrite insert_sorted_elem, IH, elem_of_cons. tauto.
Qed.

Lemma insert_sorted_sorted x l :
  StronglySorted name_le l -> StronglySorted name_le (insert_sorted x l).
Proof.
  induction 1 as [|y l Hs IH Hy]; simpl; [repeat constructor|].
  destruct (pystr_leb x y) eqn:E.
  - constructor; [by constructor|]. constructor; [done|].
    eapply Forall_impl; [exact Hy|]. intros z Hz. by eapply pystr_leb_trans.
  - constructor; [done|]. apply Forall_forall. intros z Hz.
    apply insert_sorted_elem in Hz as [->|Hz].
    + by apply pystr_leb_total.
    + rewrite Forall_forall in Hy. by apply Hy.
Qed.

Lemma sorted_sorted l : StronglySorted name_le (sorted l).
Proof.
  induction l as [|x l IH]; simpl; [constructor|]. by apply insert_sorted_sorted.
Qed.

(** In a sorted list a smaller name stands before a larger one. *)
Lemma sorted_lookup_lt l i j x y :
  StronglySorted name_le l ->
  l !! i = Some x -> l !! j = Some y -> pystr_compare x y = Lt -> (i < j)%nat.
Proof.
  intros Hs. revert i j. induction Hs as [|z l Hs IH Hz]; intros i j Hi Hj Hlt.
  - done.
  - destruct i as [|i], j as [|j]; simpl in *.
    + simplify_eq. by rewrite pystr_compare_refl in Hlt.
    + lia.
    + simplify_eq. exfalso. apply list_elem_of_lookup_2 in Hi.
      rewrite Forall_forall in Hz. specialize (Hz x Hi).
      unfold name_le, pystr_leb in Hz.
      rewrite (pystr_compare_antisym x y), Hlt in Hz. done.
    + apply -> Nat.succ_lt_mono. by eapply IH.
Qed.

Lemma list_pending_elem s name :
  name ∈ list_pending s <->
  is_Some (queue s !! name) /\ ends_with (py ".json") name = true.
Proof.
  unfold list_pending. rewrite sorted_elem, list_elem_of_In, filter_In.
  rewrite <- list_elem_of_In, list_elem_of_fmap. split.
  - intros [((n & r) & -> & Hin) ?]. apply elem_of_map_to_list in Hin.
    split; [by exists r | done].
  - intros [[r Hr] ?]. split; [|done]. exists (name, r).
    split; [done|]. by apply elem_of_map_to_list.
Qed.

Example id_of_first_req : req_id first_req = py "20260309-120000-ffffff".
Proof. reflexivity. Qed.

(** The ids of two requests are ordered as the seconds their creations
    read from the local clock, and so are their file names and their places
    in [list_pending]. *)
Lemma id_order_of_readings `{Unicode} (now1 now2 : datetime)
    (uuid1 uuid2 utc1 utc2 title1 title2 prompt1 prompt2 : pystr)
    (scope1 scope2 by1 by2 : pystr) :
  datetime_valid now1 -> datetime_valid now2 ->
  let r1 := create now1 uuid1 utc1 title1 prompt1 scope1 by1 in
  let r2 := create now2 uuid2 utc2 title2 prompt2 scope2 by2 in
  datetime_lt now1 now2 ->
  pystr_compare (req_id r1) (req_id r2) = Lt
  /\ pystr_compare (queue_name r1) (queue_name r2) = Lt
  /\ forall s i j,
       list_pending s !! i = Some (queue_name r1) ->
       list_pending s !! j = Some (queue_name r2) -> (i < j)%nat.
Proof.
  intros Hv1 Hv2 r1 r2 Hlt.
  assert (forall u v, pystr_compare (strftime now1 ++ u) (strftime now2 ++ v) = Lt)
    as Hcmp.
  { intros u v. rewrite strftime_compare by done.
    unfold datetime_lt, datetime_key in Hlt. simpl in Hlt.
    repeat match goal with
           | H : _ \/ _ |- _ => destruct H as [H|[-> H]]
           | |- context [(?a ?= ?a)%nat] => rewrite (Nat.compare_refl a)
           | H : (?a < ?b)%nat |- context [(?a ?= ?b)%nat] =>
               apply Nat.compare_lt_iff in H; rewrite H
           end; done. }
  split; [apply Hcmp|].
  assert (pystr_compare (queue_name r1) (queue_name r2) = Lt) as Hname.
  { unfold queue_name, r1, r2, create; simpl. rewrite <- !app_assoc. apply Hcmp. }
  split; [done|]. intros s i j Hi Hj.
  eapply sorted_lookup_lt; [apply sorted_sorted|exact Hi|exact Hj|exact Hname].
Qed.

(** C8, as the code has it.  An id begins with the second that
    [datetime.now()] read from the naive local clock, in a year of four
    digits, and ends with a random suffix.  Let a request be created first
    and another second.  When the first read an earlier second than the
    second its id is the smaller, and so is its file name, which stands
    first in [list_pending].  When the local clock was set back in
    between, so that the second read an earlier second than the first,
    it is the request created second that has the smaller id and stands
    first.  And when both read the same second the order of the ids is the
    order of the random suffixes. *)
Theorem id_order_across_seconds `{Unicode} (now1 now2 : datetime)
    (uuid1 uuid2 utc1 utc2 title1 title2 prompt1 prompt2 : pystr)
    (scope1 scope2 by1 by2 : pystr) :
  datetime_valid now1 -> datetime_valid now2 ->
  let r1 := create now1 uuid1 utc1 title1 prompt1 scope1 by1 in
  let r2 := create now2 uuid2 utc2 title2 prompt2 scope2 by2 in
  (datetime_lt now1 now2 ->
     pystr_compare (req_id r1) (req_id r2) = Lt
     /\ pystr_compare (queue_name r1) (queue_name r2) = Lt
     /\ forall s i j,
          list_pending s !! i = Some (queue_name r1) ->
          list_pending s !! j = Some (queue_name r2) -> (i < j)%nat)
  /\ (datetime_lt now2 now1 ->
      pystr_compare (req_id r2) (req_id r1) = Lt
      /\ pystr_compare (queue_name r2) (queue_name r1) = Lt
      /\ forall s i j,
           list_pending s !! i = Some (queue_name r1) ->
           list_pending s !! j = Some (queue_name r2) -> (j < i)%nat)
  /\ (datetime_key now1 = datetime_key now2 ->
      pystr_compare (req_id r1) (req_id r2) =
      pystr_compare (take 6 uuid1) (take 6 uuid2)).
Proof.
  intros Hv1 Hv2 r1 r2. split; [|split].
  - intros Hlt. by apply id_order_of_readings.
  - intros Hlt.
    destruct (id_order_of_readings now2 now1 uuid2 uuid1 utc2 utc1 title2 title1
                prompt2 prompt1 scope2 scope1 by2 by1 Hv2 Hv1 Hlt)
      as (Hid & Hname & Hlist).
    split; [done|]. split; [done|]. intros s i j Hi Hj. by eapply Hlist.
  - intros Hkey. unfold r1, r2, create; simpl.
    rewrite strftime_compare by done. unfold datetime_key in Hkey.
    injection Hkey as -> -> -> -> -> ->. rewrite !Nat.compare_refl.
    simpl. reflexivity.
Qed.

Lemma id_order_witness :
  datetime_lt noon noon_01 /\
  pystr_compare
    (req_id (create (H := ucd_fragment) noon [] [] [] [] [] []))
    (req_id (create (H := ucd_fragment) noon_01 [] [] [] [] [] [])) = Lt.
Proof.
  assert (datetime_valid noon /\ datetime_valid noon_01) as [V1 V2]
    by (split; repeat split; apply Nat.leb_le; vm_compute; reflexivity).
  assert (datetime_lt noon noon_01) as Hlt
    by (unfold datetime_lt; simpl; intuition lia).
  split; [exact Hlt|].
  exact (proj1 (proj1 (id_order_across_seconds (H := ucd_fragment)
    noon noon_01 [] [] [] [] [] [] [] [] [] [] [] [] V1 V2) Hlt)).
Defined.

(** C8 as stated fails: of two requests created within one second the
    first got the larger id, and [list_pending] lists the second first. *)
Lemma id_order_counterexample :
  ~ ids_follow_creation (H := ucd_fragment)
  /\ pystr_compare (req_id first_req) (req_id second_req) = Gt
  /\ list_pending
       (snd ((enqueue calm first_req ;; enqueue calm second_req) init_sys))
     = [queue_name second_req; queue_name first_req].
Proof.
  split; [|split; vm_compute; reflexivity].
  intros Hclaim.
  assert (datetime_valid noon) as V
    by (repeat split; apply Nat.leb_le; vm_compute; reflexivity).
  assert (~ datetime_lt noon noon) as Hnlt
    by (unfold datetime_lt; simpl; intuition lia).
  specialize (Hclaim noon noon (py "ffffff") (py "000000") [] [] [] [] [] V V Hnlt).
  vm_compute in Hclaim. discriminate.
Qed.

(** The night the clocks go back: a request made at 02:30 and one made
    forty minutes later, at 02:10 of the same night by the local clock.
    The one made later has the smaller id. *)
Example id_order_clock_set_back :
  datetime_lt after_set_back before_set_back /\
  pystr_compare
    (req_id (create (H := ucd_fragment) after_set_back (py "aaaaaa") [] [] [] [] []))
    (req_id (create (H := ucd_fragment) before_set_back (py "bbbbbb") [] [] [] [] []))
  = Lt.
Proof.
  split; [unfold datetime_lt; simpl; intuition lia | vm_compute; reflexivity].
Qed.

(* ===================================================================== *)
(** ** Reasoning about computations *)
(* ===================================================================== *)

Section Frames.
Context {P : event -> Prop}.

Lemma reach_refl s : reach s s [].
Proof. unfold reach. by rewrite app_nil_r. Qed.

Lemma reach_trans s1 s2 s3 e1 e2 :
  reach s1 s2 e1 -> reach s2 s3 e2 -> reach s1 s3 (e1 ++ e2).
Proof.
  intros (Htr1 & Hta1 & Hq1 & Hb1) (Htr2 & Hta2 & Hq2 & Hb2). unfold reach.
  by rewrite !foldl_app, <- Hta1, <- Hq1, <- Hb1, app_assoc, <- Htr1.
Qed.

Lemma extends_refl s : extends P s s.
Proof. split; [done|]. exists []. split; [apply reach_refl | done]. Qed.

Lemma extends_trans s1 s2 s3 :
  extends P s1 s2 -> extends P s2 s3 -> extends P s1 s3.
Proof.
  intros [Ht1 (e1 & Hr1 & HP1)] [Ht2 (e2 & Hr2 & HP2)].
  split; [lia|]. exists (e1 ++ e2).
  split; [by eapply reach_trans | by rewrite Forall_app].
Qed.

Lemma preserves_ret {A} (a : A) : preserves P (ret a).
Proof. intros s. apply extends_refl. Qed.

Lemma preserves_raise {A} e : preserves P (@raise A e).
Proof. intros s. apply extends_refl. Qed.

Lemma preserves_diverge {A} : preserves P (@diverge A).
Proof. intros s. apply extends_refl. Qed.

Lemma preserves_get : preserves P get.
Proof. intros s. apply extends_refl. Qed.

Lemma preserves_ask {A} (f : nat -> A) : preserves P (ask f).
Proof.
  intros s. split; [simpl; lia|]. exists []. split; [|done].
  unfold reach. simpl. by rewrite app_nil_r.
Qed.

Lemma preserves_set_service_proc p : preserves P (set_service_proc p).
Proof.
  intros s. split; [done|]. exists []. split; [|done].
  unfold reach. simpl. by rewrite app_nil_r.
Qed.

Lemma preserves_bind {A B} (m : M A) (k : A -> M B) :
  preserves P m -> (forall a, preserves P (k a)) -> preserves P (bind m k).
Proof.
  intros Hm Hk s. unfold bind. specialize (Hm s).
  destruct (m s) as [[a|e|] s1]; simpl in *; [|done|done].
  eapply extends_trans; [exact Hm | apply Hk].
Qed.

Lemma preserves_try_except {A} (m : M A) h :
  preserves P m -> (forall e, preserves P (h e)) -> preserves P (try_except m h).
Proof.
  intros Hm Hh s. unfold try_except. specialize (Hm s).
  destruct (m s) as [[a|e|] s1]; simpl in *; [done| |done].
  eapply extends_trans; [exact Hm | apply Hh].
Qed.

Lemma preserves_try_finally {A} (m : M A) f :
  preserves P m -> preserves P f -> preserves P (try_finally m f).
Proof.
  intros Hm Hf s. unfold try_finally. specialize (Hm s).
  destruct (m s) as [[a|e|] s1]; simpl in *; [| |done].
  all: specialize (Hf s1); destruct (f s1) as [[[]|e'|] s2]; simpl in *;
    by eapply extends_trans.
Qed.

(** An event that leaves the directories alone. *)
Lemma preserves_emit e :
  P e -> ~ is_log e -> ~ is_queue e -> ~ is_patch e -> preserves P (emit e).
Proof.
  intros HP Hl Hq Hp s. split; [done|]. exists [e].
  split; [|by constructor]. unfold reach. simpl.
  destruct e; simpl in *; tauto.
Qed.

Lemma preserves_write_task_md w req status notes :
  (forall n md, P (EvTaskMd n md)) -> preserves P (write_task_md w req status notes).
Proof.
  intros HP s. split; [simpl; lia|]. eexists [_].
  split; [done | by constructor].
Qed.

Lemma preserves_pop name : P (EvPop name) -> preserves P (pop name).
Proof.
  intros HP s. unfold pop, bind, get.
  destruct (queue s !! name); [|apply extends_refl].
  split; [done|]. exists [EvPop name].
  split; [done | by constructor].
Qed.

End Frames.

Lemma preserves_weaken {A} (P Q : event -> Prop) (m : M A) :
  (forall e, P e -> Q e) -> preserves P m -> preserves Q m.
Proof.
  intros HPQ Hm s. destruct (Hm s) as [Ht (evs & ? & HP)].
  split; [done|]. exists evs. split; [done|].
  eapply Forall_impl; eauto.
Qed.

Lemma total_ret {A} (a : A) : total (ret a).
Proof. intros s. by exists a. Qed.

Lemma total_get : total get.
Proof. intros s. by exists s. Qed.

Lemma total_ask {A} (f : nat -> A) : total (ask f).
Proof. intros s. by eexists. Qed.

Lemma total_emit e : total (emit e).
Proof. intros s. by exists tt. Qed.

Lemma total_set_service_proc p : total (set_service_proc p).
Proof. intros s. by exists tt. Qed.

Lemma total_bind {A B} (m : M A) (k : A -> M B) :
  total m -> (forall a, total (k a)) -> total (bind m k).
Proof.
  intros Hm Hk s. unfold bind. destruct (Hm s) as [a Ha].
  destruct (m s) as [o s1]; simpl in Ha; subst o. apply Hk.
Qed.

Lemma total_write_task_md w req status notes :
  total (write_task_md w req status notes).
Proof. intros s. by exists tt. Qed.

Lemma total_halts {A} (m : M A) : total m -> halts m.
Proof. intros Hm s. destruct (Hm s) as [a ->]. done. Qed.

Lemma halts_raise {A} e : halts (@raise A e).
Proof. intros s. done. Qed.

Lemma halts_bind {A B} (m : M A) (k : A -> M B) :
  halts m -> (forall a, halts (k a)) -> halts (bind m k).
Proof.
  intros Hm Hk s. unfold bind. specialize (Hm s).
  destruct (m s) as [[a|e|] s1]; simpl in *; [apply Hk|done|done].
Qed.

(** One step through a computation, for [preserves], [total] and [halts]. *)
Ltac walk :=
  lazymatch goal with
  | |- preserves _ (bind _ _) => apply preserves_bind; [|intros ?]
  | |- preserves _ (ret _) => apply preserves_ret
  | |- preserves _ (raise _) => apply preserves_raise
  | |- preserves _ get => apply preserves_get
  | |- preserves _ (ask _) => apply preserves_ask
  | |- preserves _ (set_service_proc _) => apply preserves_set_service_proc
  | |- preserves _ (emit _) => apply preserves_emit; simpl; tauto
  | |- preserves _ (write_task_md _ _ _ _) =>
      apply preserves_write_task_md; simpl; tauto
  | |- total (bind _ _) => apply total_bind; [|intros ?]
  | |- total (ret _) => apply total_ret
  | |- total get => apply total_get
  | |- total (ask _) => apply total_ask
  | |- total (emit _) => apply total_emit
  | |- total (set_service_proc _) => apply total_set_service_proc
  | |- total (write_task_md _ _ _ _) => apply total_write_task_md
  | |- halts (bind _ _) => apply halts_bind; [|intros ?]
  | |- halts (raise _) => apply halts_raise
  | |- halts (ret _) => apply total_halts, total_ret
  | |- halts get => apply total_halts, total_get
  | |- halts (ask _) => apply total_halts, total_ask
  | |- halts (emit _) => apply total_halts, total_emit
  | |- halts (set_service_proc _) => apply total_halts, total_set_service_proc
  | |- _ (if ?b then _ else _) => destruct b
  | |- _ (match ?x with _ => _ end) => destruct x
  end.

Section SupervisorFacts.
Context `{Unicode}.
Variable w : World.
Variable c : Config.

Lemma preserves_run_cmd P cmd cwd timeout check :
  (forall t, P (EvRun t cmd cwd timeout)) ->
  preserves P (_run_cmd w cmd cwd timeout check).
Proof.
  intros HP. unfold _run_cmd. walk; [walk|]. walk; [walk|].
  walk; [apply preserves_emit; simpl; auto|]. repeat walk.
Qed.

Lemma total_run_cmd cmd cwd timeout check :
  total (_run_cmd w cmd cwd timeout check).
Proof. unfold _run_cmd. repeat walk. Qed.

Lemma preserves_cmd_run_cmd cmd cwd timeout check :
  preserves is_cmd (_run_cmd w cmd cwd timeout check).
Proof. by apply preserves_run_cmd. Qed.

Lemma preserves_codex P prompt cwd timeout :
  (forall t, P (EvCodex t prompt timeout)) ->
  (forall t, P (EvRun t (codex_cmd prompt) cwd timeout)) ->
  preserves P (_run_optional_codex w prompt cwd timeout).
Proof.
  intros HP1 HP2. unfold _run_optional_codex. walk; [walk|].
  walk; [apply preserves_emit; simpl; auto|]. repeat walk.
  by apply preserves_run_cmd.
Qed.

Lemma total_codex prompt cwd timeout :
  total (_run_optional_codex w prompt cwd timeout).
Proof. unfold _run_optional_codex. repeat walk. apply total_run_cmd. Qed.

Lemma preserves_repo_is_clean : preserves is_cmd (_repo_is_clean w c).
Proof.
  unfold _repo_is_clean. walk; [by apply preserves_run_cmd|]. repeat walk.
Qed.

Lemma total_repo_is_clean : total (_repo_is_clean w c).
Proof.
  unfold _repo_is_clean. walk; [apply total_run_cmd|]. repeat walk.
Qed.

Lemma preserves_verify_loop P cwd todo executed notes :
  (forall t name cmd, (name, cmd) ∈ todo -> P (EvRun t cmd cwd 600)) ->
  preserves P (verify_loop w cwd todo executed notes).
Proof.
  revert executed notes. induction todo as [|[name cmd] todo IH]; intros ?? HP; simpl.
  - repeat walk.
  - assert (forall t name cmd, (name, cmd) ∈ todo -> P (EvRun t cmd cwd 600)) as HP'
      by (intros; eapply HP; right; eauto).
    walk; [walk|]. walk; [by apply IH|].
    walk; [apply preserves_run_cmd; intros; eapply HP; left|].
    walk. walk; [walk | by apply IH].
Qed.

Lemma total_verify_loop cwd todo executed notes :
  total (verify_loop w cwd todo executed notes).
Proof.
  revert executed notes. induction todo as [|[name cmd] todo IH]; intros; simpl.
  - repeat walk.
  - walk; [walk|]. walk; [apply IH|]. walk; [apply total_run_cmd|].
    walk. walk; [walk | apply IH].
Qed.

Lemma preserves_verify P cwd :
  (forall t name cmd, (name, cmd) ∈ checks -> P (EvRun t cmd cwd 600)) ->
  (forall ok notes, P (EvVerified ok notes)) ->
  preserves P (_verify w cwd).
Proof.
  intros HP1 HP2. unfold _verify. walk; [by apply preserves_verify_loop|].
  walk; [apply preserves_emit; simpl; auto | walk].
Qed.

Lemma total_verify cwd : total (_verify w cwd).
Proof.
  unfold _verify. walk; [apply total_verify_loop|]. repeat walk.
Qed.

(** What a computation that always returns does from [s]. *)
Lemma run_total {A} P (m : M A) s :
  total m -> preserves P m ->
  exists a s', m s = (Done a, s') /\ extends P s s'.
Proof.
  intros Ht Hp. destruct (Ht s) as [a Ha]. specialize (Hp s).
  destruct (m s) as [o s']; simpl in *; subst. eauto.
Qed.

(** The service controller. *)
Lemma preserves_start_service : preserves is_service (_start_service w c).
Proof. unfold _start_service, fallible. repeat walk. Qed.

Lemma halts_start_service : halts (_start_service w c).
Proof. unfold _start_service, fallible. repeat walk. Qed.

Lemma preserves_terminate_process pid :
  preserves is_service (_terminate_process w pid).
Proof. unfold _terminate_process. repeat walk. Qed.

Lemma total_terminate_process pid : total (_terminate_process w pid).
Proof. unfold _terminate_process. repeat walk. Qed.

Lemma preserves_stop_service : preserves is_service (_stop_service w).
Proof.
  unfold _stop_service. walk; [walk|]. walk; [|walk].
  walk; [apply preserves_terminate_process | walk].
Qed.

Lemma total_stop_service : total (_stop_service w).
Proof.
  unfold _stop_service. walk; [walk|]. walk; [|walk].
  walk; [apply total_terminate_process | walk].
Qed.

Lemma preserves_ensure_service_running :
  preserves is_service (_ensure_service_running w c).
Proof.
  unfold _ensure_service_running. walk; [walk|]. walk.
  - walk; [walk|]. walk; [walk|]. walk; [apply preserves_start_service | walk].
  - walk; [apply preserves_start_service | walk].
Qed.

Lemma halts_ensure_service_running : halts (_ensure_service_running w c).
Proof.
  unfold _ensure_service_running. walk; [walk|]. walk.
  - walk; [walk|]. walk; [walk|]. walk; [apply halts_start_service | walk].
  - walk; [apply halts_start_service | walk].
Qed.

End SupervisorFacts.

(* ===================================================================== *)
(** ** The develop-verify loop *)
(* ===================================================================== *)

Section LoopFacts.
Context `{Unicode}.
Variable w : World.
Variable c : Config.

Lemma run_cmd_run cmd cwd timeout check s :
  exists r s',
    _run_cmd w cmd cwd timeout check s = (Done r, s') /\
    trace s' = trace s ++ [EvRun (tick s) cmd cwd timeout] /\
    tick s' = S (tick s) /\
    service_proc s' = service_proc s /\ tasks s' = tasks s /\
    queue s' = queue s /\ backups s' = backups s.
Proof.
  unfold _run_cmd, bind, get, ask, emit, ret. simpl.
  destruct (subprocess_run w (tick s) cmd cwd timeout) as [rc out err| |e]; simpl.
  - destruct (check && negb (rc =? 0)); simpl; eauto 10.
  - eauto 10.
  - eauto 10.
Qed.

Lemma codex_run prompt cwd timeout s :
  exists r runs s',
    _run_optional_codex w prompt cwd timeout s = (Done r, s') /\
    trace s' = trace s ++ EvCodex (tick s) prompt timeout :: runs /\
    Forall (codex_run_of (S (tick s)) prompt cwd timeout) runs /\
    (tick s < tick s')%nat.
Proof.
  unfold _run_optional_codex, bind at 1 2 3, get, ask, emit. simpl.
  destruct (which w (tick s) (py "codex")); simpl.
  - match goal with |- context [ _run_cmd w ?a ?b ?t ?k ?s1 ] =>
      destruct (run_cmd_run a b t k s1) as (r & s' & -> & Htr & Hti & _)
    end.
    simpl in *. exists r, [EvRun (S (tick s)) (codex_cmd prompt) cwd timeout], s'.
    split; [done|]. rewrite Htr, <- app_assoc. split; [done|].
    split; [|lia]. by repeat constructor.
  - eexists _, [], _. split; [reflexivity|]. simpl. split; [done|].
    split; [constructor | lia].
Qed.

Lemma verify_run cwd s :
  exists ok notes evs s',
    _verify w cwd s = (Done (ok, notes), s') /\
    trace s' = trace s ++ evs ++ [EvVerified ok notes] /\
    Forall (check_run_of cwd) evs /\
    (tick s <= tick s')%nat.
Proof.
  unfold _verify, bind at 1.
  destruct (run_total (check_run_of cwd) (verify_loop w cwd checks 0 []) s)
    as ([ok notes] & s1 & -> & Ht & evs & (Htr & _) & Hevs).
  { apply total_verify_loop. }
  { apply preserves_verify_loop. intros t name cmd Hin. by exists t, name, cmd. }
  unfold bind, emit, ret. simpl.
  eexists ok, notes, evs, _. split; [reflexivity|]. simpl.
  rewrite Htr, <- app_assoc. done.
Qed.

(** One turn of the loop while the deadline is ahead. *)
Lemma develop_loop_turn fuel req wt deadline notes fb attempt s :
  (clock w (tick s) < deadline)%Q ->
  exists runs evs ok vnotes notes' s0 s',
    let timeout := codex_timeout w deadline (clock w (S (tick s))) in
    let prompt := codex_prompt req fb in
    trace s' = trace s ++ EvCodex (S (S (tick s))) prompt timeout :: runs
                 ++ evs ++ [EvVerified ok vnotes] /\
    Forall (codex_run_of (S (S (S (tick s)))) prompt wt timeout) runs /\
    Forall (check_run_of wt) evs /\
    _verify w wt s0 = (Done (ok, vnotes), s') /\
    (S (S (tick s)) < tick s')%nat /\
    develop_loop w (S fuel) req wt deadline notes fb attempt s =
      if ok then (Done (true, notes' ++ [py "Verification passed."]), s')
      else develop_loop w fuel req wt deadline notes'
             (join [newline] (lastn 8 vnotes)) (S attempt) s'.
Proof.
  intros Hnow. cbn [develop_loop]. unfold bind at 1 2, ask at 1 2. simpl.
  destruct (Qlt_le_dec (clock w (tick s)) deadline) as [_|Hle];
    [|by apply Qle_not_lt in Hle].
  unfold bind at 1.
  match goal with |- context [ _run_optional_codex w ?p ?d ?t ?s1 ] =>
    destruct (codex_run p d t s1) as ([cok cout] & runs & s2 & -> & Htr2 & Hruns & Hti2)
  end.
  unfold bind at 1.
  destruct (verify_run wt s2) as (ok & vnotes & evs & s' & Hv & Htr & Hevs & Hti).
  rewrite Hv. simpl in *.
  eexists runs, evs, ok, vnotes, _, s2, s'.
  split; [by rewrite Htr, Htr2, <- app_assoc|].
  split; [done|]. split; [done|]. split; [done|]. split; [lia|].
  destruct ok; reflexivity.
Qed.

Lemma develop_loop_over fuel req wt deadline notes fb attempt s :
  (deadline <= clock w (tick s))%Q ->
  exists notes' s',
    develop_loop w (S fuel) req wt deadline notes fb attempt s
    = (Done (false, notes'), s') /\
    trace s' = trace s /\ tick s' = S (tick s).
Proof.
  intros Hnow. cbn [develop_loop]. unfold bind at 1, ask at 1. simpl.
  destruct (Qlt_le_dec (clock w (tick s)) deadline) as [Hlt|_];
    [by apply Qle_not_lt in Hnow|].
  by eexists _, _.
Qed.

Lemma preserves_develop_loop fuel req wt deadline notes fb attempt :
  preserves is_cmd (develop_loop w fuel req wt deadline notes fb attempt).
Proof.
  revert notes fb attempt. induction fuel as [|fuel IH]; intros; simpl.
  - apply preserves_diverge.
  - walk; [walk|]. walk; [|walk]. walk; [walk|].
    walk; [by apply preserves_codex|]. walk.
    walk; [by apply preserves_verify|]. walk. walk; [walk | apply IH].
Qed.

Lemma preserves_develop_and_verify fuel req wt :
  preserves is_cmd (_develop_and_verify w c fuel req wt).
Proof.
  unfold _develop_and_verify. walk; [walk | apply preserves_develop_loop].
Qed.

(** The loop ends once the clock has passed the deadline. *)
Lemma develop_loop_returns fuel limit t0 req wt notes fb attempt s :
  deadline_passes w c limit ->
  (t0 + limit <= tick s + fuel)%nat ->
  exists r s',
    develop_loop w (S fuel) req wt
      (float_round w (clock w t0 + inject_Z (build_timeout_s c))) notes fb attempt s
    = (Done r, s').
Proof.
  intros Hpass. revert notes fb attempt s.
  induction fuel as [|fuel IH]; intros notes fb attempt s Hfuel.
  - destruct (develop_loop_over 0 req wt
      (float_round w (clock w t0 + inject_Z (build_timeout_s c))) notes fb attempt s)
      as (n' & s' & -> & _); [|by eauto].
    apply Hpass. lia.
  - set (deadline := (float_round w (clock w t0 + inject_Z (build_timeout_s c)))).
    destruct (Qlt_le_dec (clock w (tick s)) deadline) as [Hlt|Hle].
    + destruct (develop_loop_turn (S fuel) req wt deadline notes fb attempt s Hlt)
        as (runs & evs & ok & vn & n' & s0 & s' & _ & _ & _ & _ & Hti & ->).
      destruct ok; [by eauto|]. apply IH. lia.
    + destruct (develop_loop_over (S fuel) req wt deadline notes fb attempt s Hle)
        as (n' & s' & -> & _). by eauto.
Qed.

Lemma develop_and_verify_returns fuel req wt s :
  deadline_passes w c fuel ->
  exists r s',
    _develop_and_verify w c (S fuel) req wt s = (Done r, s') /\
    extends is_cmd s s'.
Proof.
  intros Hpass.
  pose proof (preserves_develop_and_verify (S fuel) req wt s) as Hext.
  assert (exists r s', _develop_and_verify w c (S fuel) req wt s = (Done r, s'))
    as (r & s' & E).
  { unfold _develop_and_verify, bind at 1, ask at 1. cbv beta iota.
    eapply develop_loop_returns; [exact Hpass | simpl; lia]. }
  rewrite E in Hext. eauto.
Qed.

End LoopFacts.

(* ===================================================================== *)
(** ** Deploy and the processing of a task *)
(* ===================================================================== *)

Lemma last_log_snoc evs e :
  last_log (evs ++ [e]) =
  match e with EvTaskMd n md => Some (n, md) | _ => last_log evs end.
Proof. unfold last_log. by rewrite foldl_app. Qed.

Lemma last_log_quiet evs evs' :
  Forall (fun e => ~ is_log e) evs' -> last_log (evs ++ evs') = last_log evs.
Proof.
  induction evs' as [|e evs' IH] using rev_ind; intros Hq.
  - by rewrite app_nil_r.
  - apply Forall_app in Hq as [Hq He]. inversion_clear He as [|? ? He' _].
    rewrite app_assoc, last_log_snoc, IH by done.
    destruct e; simpl in He'; tauto.
Qed.



Lemma replay_queue_quiet evs q :
  Forall (fun e => ~ is_queue e) evs -> foldl replay_queue q evs = q.
Proof.
  induction evs as [|e evs IH] using rev_ind; intros Hq; [done|].
  apply Forall_app in Hq as [Hq He]. inversion_clear He as [|? ? He' _].
  rewrite foldl_app. simpl. rewrite IH by done.
  destruct e; simpl in *; tauto.
Qed.

Lemma replay_tasks_quiet evs t :
  Forall (fun e => ~ is_log e) evs -> foldl replay_tasks t evs = t.
Proof.
  induction evs as [|e evs IH] using rev_ind; intros Hq; [done|].
  apply Forall_app in Hq as [Hq He]. inversion_clear He as [|? ? He' _].
  rewrite foldl_app. simpl. rewrite IH by done.
  destruct e; simpl in *; tauto.
Qed.

Lemma replay_backups_quiet evs b :
  Forall (fun e => ~ is_patch e) evs -> foldl replay_backups b evs = b.
Proof.
  induction evs as [|e evs IH] using rev_ind; intros Hq; [done|].
  apply Forall_app in Hq as [Hq He]. inversion_clear He as [|? ? He' _].
  rewrite foldl_app. simpl. rewrite IH by done.
  destruct e; simpl in *; tauto.
Qed.

(** [write_task_md] from [s]. *)
Lemma write_task_md_run w req status notes s :
  let md := {| md_req := req; md_updated := utc_now w (tick s);
               md_status := status; md_notes := notes |} in
  write_task_md w req status notes s =
  (Done tt,
   {| tick := S (tick s); service_proc := service_proc s; queue := queue s;
      tasks := <[task_name req := md]> (tasks s); backups := backups s;
      trace := trace s ++ [EvTaskMd (task_name req) md] |}).
Proof. reflexivity. Qed.

Lemma write_task_md_reach w req status notes s :
  exists md s',
    write_task_md w req status notes s = (Done tt, s') /\
    md_status md = status /\ md_notes md = notes /\
    reach s s' [EvTaskMd (task_name req) md].
Proof. eexists _, _. rewrite write_task_md_run. by repeat split. Qed.

(** Weakening of a known frame. *)
Ltac weaken_with L :=
  eapply preserves_weaken; [|apply L];
  intros []; unfold is_deploy; simpl; tauto.

Section ProcessFacts.
Context `{Unicode}.
Variable w : World.
Variable c : Config.

Lemma preserves_write_patch name data :
  preserves is_patch (write_patch w name data).
Proof.
  unfold write_patch, fallible. walk; [repeat walk|].
  intros s. split; [done|]. exists [EvPatch name data].
  split; [done | by repeat constructor].
Qed.

Lemma halts_write_patch name data : halts (write_patch w name data).
Proof.
  unfold write_patch, fallible. walk; [repeat walk|]. walk; [walk|].
  intros s. done.
Qed.

Lemma preserves_cutover patch notes :
  preserves is_deploy (cutover w c patch notes).
Proof.
  unfold cutover. walk; [walk|].
  walk; [weaken_with (preserves_stop_service w)|].
  walk; [weaken_with (preserves_start_service w c)|].
  walk; [walk|].
  walk; [apply preserves_run_cmd; unfold is_deploy; simpl; tauto|].
  walk; [weaken_with (preserves_stop_service w)|].
  walk; [weaken_with (preserves_start_service w c)|].
  walk; [|walk]. walk; [walk|]. walk; [|walk].
  walk; [weaken_with (preserves_terminate_process w n) | walk].
Qed.

Lemma halts_cutover patch notes : halts (cutover w c patch notes).
Proof.
  unfold cutover. walk; [walk|].
  walk; [apply total_halts, total_stop_service|].
  walk; [apply halts_start_service|].
  walk; [walk|].
  walk; [apply total_halts, total_run_cmd|].
  walk; [apply total_halts, total_stop_service|].
  walk; [apply halts_start_service|].
  walk; [|walk]. walk; [walk|]. walk; [|walk].
  walk; [apply total_halts, total_terminate_process | walk].
Qed.

Lemma preserves_capture_rollback req notes :
  preserves is_deploy (capture_rollback w c req notes).
Proof.
  unfold capture_rollback.
  walk; [apply preserves_run_cmd; unfold is_deploy; simpl; tauto|].
  walk. walk; [|walk].
  walk; [weaken_with (preserves_write_patch (rollback_name req) l) | walk].
Qed.

Lemma halts_capture_rollback req notes : halts (capture_rollback w c req notes).
Proof.
  unfold capture_rollback. walk; [apply total_halts, total_run_cmd|].
  walk. walk; [|walk]. walk; [apply halts_write_patch | walk].
Qed.

Lemma preserves_deploy req wt : preserves is_deploy (_deploy w c req wt).
Proof.
  unfold _deploy.
  walk; [apply preserves_run_cmd; unfold is_deploy; simpl; tauto|].
  walk. walk; [walk|]. walk; [walk|].
  walk; [weaken_with (preserves_write_patch (forward_name req) l)|].
  walk; [apply preserves_run_cmd; unfold is_deploy; simpl; tauto|].
  walk. walk; [walk|].
  walk; [apply preserves_capture_rollback | apply preserves_cutover].
Qed.

Lemma halts_deploy req wt : halts (_deploy w c req wt).
Proof.
  unfold _deploy.
  walk; [apply total_halts, total_run_cmd|].
  walk. walk; [walk|]. walk; [walk|].
  walk; [apply halts_write_patch|].
  walk; [apply total_halts, total_run_cmd|].
  walk. walk; [walk|].
  walk; [apply halts_capture_rollback | apply halts_cutover].
Qed.

End ProcessFacts.

Section TaskFacts.
Context `{Unicode}.
Variable w : World.
Variable c : Config.

Lemma preserves_process fuel req : preserves not_queue (_process w c fuel req).
Proof.
  unfold _process. walk; [apply preserves_write_task_md; unfold not_queue; simpl; tauto|].
  walk; [unfold not_queue; weaken_with (preserves_repo_is_clean w c)|].
  walk. walk; [apply preserves_write_task_md; unfold not_queue; simpl; tauto|].
  walk; [apply preserves_write_task_md; unfold not_queue; simpl; tauto|].
  walk; [apply preserves_run_cmd; unfold not_queue; simpl; tauto|].
  apply preserves_try_finally.
  - walk; [unfold not_queue; weaken_with (preserves_develop_and_verify w c fuel req
             (path_join (worktrees_dir c) (req_id req)))|].
    walk. walk; [apply preserves_write_task_md; unfold not_queue; simpl; tauto|].
    walk; [unfold not_queue; weaken_with (preserves_deploy w c req
             (path_join (worktrees_dir c) (req_id req)))|].
    walk. apply preserves_write_task_md; unfold not_queue; simpl; tauto.
  - walk; [apply preserves_run_cmd; unfold not_queue; simpl; tauto | walk].
Qed.

Lemma terminal_failed : terminal (py "FAILED").
Proof. right. by left. Qed.

Lemma settled_write evs req status notes w0 t :
  terminal status ->
  settled req (evs ++ [EvTaskMd (task_name req)
    {| md_req := req; md_updated := utc_now w0 t; md_status := status;
       md_notes := notes |}]).
Proof. intros Ht. eexists. by rewrite last_log_snoc. Qed.

Lemma settled_quiet req evs evs' :
  Forall (fun e => ~ is_log e) evs' -> settled req evs -> settled req (evs ++ evs').
Proof. intros Hq (md & Hl & Ht). exists md. by rewrite last_log_quiet. Qed.

Lemma settled_later req evs evs' : settled req evs' -> settled req (evs ++ evs').
Proof.
  intros (md & Hl & Ht). exists md. split; [|done]. clear Ht.
  induction evs' as [|e evs' IH] using rev_ind; [done|].
  rewrite last_log_snoc in Hl. rewrite app_assoc, last_log_snoc.
  destruct e; auto.
Qed.

Lemma cmd_not_log evs : Forall is_cmd evs -> Forall (fun e => ~ is_log e) evs.
Proof.
  intros Hf. eapply Forall_impl; [exact Hf|]. intros []; simpl; tauto.
Qed.

Lemma deploy_not_log evs : Forall is_deploy evs -> Forall (fun e => ~ is_log e) evs.
Proof.
  intros Hf. eapply Forall_impl; [exact Hf|].
  intros []; unfold is_deploy; simpl; tauto.
Qed.

(** The [try] block of [_process]: it ends, and when it returns the record
    is settled. *)
Lemma process_attempt_run fuel req wt s :
  deadline_passes w c fuel ->
  exists o s' evs,
    (r <- _develop_and_verify w c (S fuel) req wt ;;
     let '(ok, notes) := r in
     if negb ok then write_task_md w req (py "FAILED") notes
     else
       d <- _deploy w c req wt ;;
       let '(deploy_ok, deploy_notes) := d in
       write_task_md w req
         (if deploy_ok then py "SUCCESS" else py "FAILED")
         (notes ++ deploy_notes)) s = (o, s') /\
    o <> Diverged /\ trace s' = trace s ++ evs /\
    (o = Done tt -> settled req evs).
Proof.
  intros Hpass. unfold bind at 1.
  destruct (develop_and_verify_returns w c fuel req wt s Hpass)
    as ([ok notes] & s1 & -> & _ & evs1 & (Htr1 & _) & Hevs1).
  destruct ok; simpl.
  - unfold bind at 1.
    pose proof (halts_deploy w c req wt s1) as Hh.
    pose proof (preserves_deploy w c req wt s1) as (_ & evs2 & (Htr2 & _) & Hevs2).
    destruct (_deploy w c req wt s1) as [[[dok dnotes]|e|] s2]; simpl in *.
    + rewrite write_task_md_run. eexists _, _, (evs1 ++ evs2 ++ [_]).
      split; [reflexivity|]. split; [done|]. simpl.
      split; [by rewrite Htr2, Htr1, <- !app_assoc|].
      intros _. rewrite app_assoc. apply settled_write.
      destruct dok; [by left | apply terminal_failed].
    + eexists _, _, (evs1 ++ evs2). split; [reflexivity|]. split; [done|].
      split; [by rewrite Htr2, Htr1, <- app_assoc | done].
    + done.
  - rewrite write_task_md_run. eexists _, _, (evs1 ++ [_]).
    split; [reflexivity|]. split; [done|]. simpl.
    split; [by rewrite Htr1, <- app_assoc|].
    intros _. apply settled_write, terminal_failed.
Qed.

(** [_process] ends, and when it returns the record of the task is settled. *)
Lemma process_run fuel req s :
  deadline_passes w c fuel ->
  exists o s' evs,
    _process w c (S fuel) req s = (o, s') /\
    o <> Diverged /\ trace s' = trace s ++ evs /\
    (o = Done tt -> settled req evs).
Proof.
  intros Hpass. unfold _process.
  destruct (bool_decide (req_scope req = py "core")); simpl.
  2:{ rewrite write_task_md_run. eexists _, _, [_].
      split; [reflexivity|]. split; [done|]. split; [done|].
      intros _. apply (settled_write []). right. by right. }
  unfold bind at 1.
  destruct (run_total is_cmd (_repo_is_clean w c) s)
    as ([clean detail] & s1 & -> & _ & evs1 & (Htr1 & _) & Hevs1);
    [apply total_repo_is_clean | apply preserves_repo_is_clean |].
  destruct clean; simpl.
  2:{ rewrite write_task_md_run. eexists _, _, (evs1 ++ [_]).
      split; [reflexivity|]. split; [done|]. simpl.
      split; [by rewrite Htr1, <- app_assoc|].
      intros _. apply settled_write, terminal_failed. }
  unfold bind at 1. rewrite write_task_md_run. unfold bind at 1.
  match goal with |- context [ _run_cmd w ?a ?b ?t ?k ?s2 ] =>
    destruct (run_cmd_run w a b t k s2) as (r3 & s3 & -> & Htr3 & _)
  end.
  simpl in Htr3. unfold try_finally.
  match goal with |- context [ bind (_develop_and_verify _ _ _ _ ?wt) _ ] =>
    destruct (process_attempt_run fuel req wt s3 Hpass)
      as (o & s4 & evs4 & -> & Ho & Htr4 & Hset)
  end.
  destruct (run_cmd_run w
    (worktree_remove (path_join (worktrees_dir c) (req_id req)))
    (repo_root c) 120 true s4) as (r5 & s5 & E5 & Htr5 & _).
  destruct o as [[]|e|]; [| |done]; unfold bind at 1; rewrite E5; simpl.
  - eexists _, _, (evs1 ++ [_] ++ [_] ++ evs4 ++ [_]).
    split; [reflexivity|]. split; [done|].
    split; [rewrite Htr5, Htr4, Htr3, Htr1, <- !app_assoc; reflexivity|].
    intros _. rewrite !app_assoc. apply settled_quiet.
    { repeat constructor. simpl. tauto. }
    apply settled_later. by apply Hset.
  - eexists _, _, (evs1 ++ [_] ++ [_] ++ evs4 ++ [_]).
    split; [reflexivity|]. split; [done|].
    split; [rewrite Htr5, Htr4, Htr3, Htr1, <- !app_assoc; reflexivity | done].
Qed.

End TaskFacts.

Lemma pop_run name r s :
  queue s !! name = Some r ->
  pop name s =
  (Done tt,
   {| tick := tick s; service_proc := service_proc s;
      queue := delete name (queue s); tasks := tasks s; backups := backups s;
      trace := trace s ++ [EvPop name] |}).
Proof. intros Hq. unfold pop, bind at 1, get. by rewrite Hq. Qed.

(* ===================================================================== *)
(** ** Rejection, the task log, deploy order, verification *)
(* ===================================================================== *)



(** C5, as the code has it.  [write_task_md] replaces the record of the
    task by one that holds the status and exactly the notes it is given,
    whatever record was there before; the records of other tasks stay. *)
Theorem write_task_md_replaces_notes (w : World) (req : UpgradeRequest)
    (status : pystr) (notes : list pystr) (s : Sys) :
  exists md s',
    write_task_md w req status notes s = (Done tt, s') /\
    tasks s' !! task_name req = Some md /\
    md_req md = req /\ md_status md = status /\ md_notes md = notes /\
    (forall name, name <> task_name req -> tasks s' !! name = tasks s !! name) /\
    trace s' = trace s ++ [EvTaskMd (task_name req) md].
Proof.
  eexists _, _. rewrite write_task_md_run. split; [reflexivity|]. simpl.
  split; [apply lookup_insert_eq|]. repeat split.
  intros name Hne. by apply lookup_insert_ne.
Qed.

(** C5 as stated fails: the record written when a request is rejected does
    not have the note of the record written when it was queued. *)
Lemma notes_append_only_counterexample :
  ~ notes_append_only
      (trace (snd ((enqueue calm skill_req ;;
                    run_pending (H := ucd_fragment) calm site 1) init_sys))).
Proof.
  intros Hclaim.
  assert (py "Task queued." ∈ [py "Non-core task: should be handled by skill installation/update pipeline."])
    as Hin.
  { apply (Hclaim 1%nat 2%nat (task_name skill_req)
      {| md_req := skill_req; md_updated := utc_now calm 0;
         md_status := py "QUEUED"; md_notes := [py "Task queued."] |}
      {| md_req := skill_req; md_updated := utc_now calm 1;
         md_status := py "REJECTED";
         md_notes := [py "Non-core task: should be handled by skill installation/update pipeline."] |});
      [lia | vm_compute; reflexivity | vm_compute; reflexivity | left]. }
  apply list_elem_of_singleton in Hin. vm_compute in Hin. discriminate.
Qed.

Section DeployFacts.
Context `{Unicode}.
Variable w : World.
Variable c : Config.

Lemma write_patch_run name data s :
  match fault w (tick s) with
  | Some e => exists s', write_patch w name data s = (Raised e, s') /\ trace s' = trace s
  | None => exists s',
      write_patch w name data s = (Done tt, s') /\
      trace s' = trace s ++ [EvPatch name data] /\ tick s' = S (tick s)
  end.
Proof.
  unfold write_patch, fallible, bind, ask, get, raise, ret. simpl.
  destruct (fault w (tick s)); simpl; by eexists.
Qed.

End DeployFacts.

Lemma forward_not_rollback req : forward_name req <> rollback_name req.
Proof.
  unfold forward_name, rollback_name. intros Heq.
  apply app_inv_head in Heq. vm_compute in Heq. discriminate.
Qed.

(** C3 as stated fails: when the forward patch is applied to the live tree,
    the rollback patch has not been written. *)
Lemma patches_before_mutation_counterexample :
  ~ patches_before_mutation first_req
      (trace (snd (_deploy (H := ucd_fragment) shipping site first_req
                     (sandbox_of first_req) init_sys))).
Proof.
  intros Hclaim.
  edestruct (Hclaim 2%nat) as [_ (i & d & Hi & Hev)];
    [vm_compute; reflexivity | vm_compute; reflexivity |].
  destruct i as [|[|i]]; [| |lia]; vm_compute in Hev; discriminate.
Qed.

(* ===================================================================== *)
(** ** Verification, timeouts and feedback *)
(* ===================================================================== *)

Lemma preserves_bind_reached {A B} (P : event -> Prop) (m : M A) (k : A -> M B) :
  preserves P m ->
  (forall a s, fst (m s) = Done a -> preserves P (k a)) ->
  preserves P (bind m k).
Proof.
  intros Hm Hk s. unfold bind. specialize (Hm s).
  pose proof (fun a => Hk a s) as Hk'.
  destruct (m s) as [[a|e|] s1]; simpl in *; [|done|done].
  eapply extends_trans; [exact Hm | by apply Hk'].
Qed.

Lemma check_not_git_apply name cmd : (name, cmd) ∈ checks -> ~ is_git_apply cmd.
Proof.
  unfold checks, is_git_apply. intros Hin Happ.
  repeat (apply elem_of_cons in Hin as [Hin|Hin];
          [simplify_eq; vm_compute in Happ; discriminate|]).
  by apply not_elem_of_nil in Hin.
Qed.

Section VerifyFacts.
Context `{Unicode}.
Variable w : World.
Variable c : Config.

Lemma verify_loop_skipped cwd todo notes s :
  no_tool w todo ->
  exists notes' s',
    verify_loop w cwd todo 0 notes s
    = (Done (false, notes' ++ [py "No verification tools available."]), s') /\
    trace s' = trace s.
Proof.
  revert notes s. induction todo as [|[name cmd] todo IH]; intros notes s Hno.
  - by eexists _, _.
  - simpl. unfold bind at 1, ask at 1. cbv beta iota.
    rewrite (Hno _ name cmd) by left. simpl.
    edestruct IH as (notes' & s' & -> & Htr).
    { intros t n' c' Hin. apply (Hno t n' c'). by right. }
    by eexists _, _.
Qed.

Lemma verify_skipped cwd s :
  no_tool w checks ->
  exists notes s',
    _verify w cwd s = (Done (false, notes), s') /\
    last notes = Some (py "No verification tools available.") /\
    trace s' = trace s ++ [EvVerified false notes].
Proof.
  intros Hno. unfold _verify, bind at 1.
  destruct (verify_loop_skipped cwd checks [] s Hno) as (notes & s' & -> & Htr).
  unfold bind, emit, ret. simpl. eexists _, _. split; [reflexivity|].
  split; [apply last_snoc | by rewrite Htr].
Qed.

Lemma develop_loop_never_passes fuel req wt deadline notes fb attempt s notes' :
  no_tool w checks ->
  fst (develop_loop w fuel req wt deadline notes fb attempt s) <> Done (true, notes').
Proof.
  intros Hno. revert notes fb attempt s.
  induction fuel as [|fuel IH]; intros notes fb attempt s; [done|].
  destruct (Qlt_le_dec (clock w (tick s)) deadline) as [Hlt|Hle].
  - destruct (develop_loop_turn w fuel req wt deadline notes fb attempt s Hlt)
      as (runs & evs & ok & vn & n' & s0 & s' & _ & _ & _ & Hv & _ & ->).
    destruct (verify_skipped wt s0 Hno) as (vn' & s'' & Hv' & _).
    rewrite Hv in Hv'. simplify_eq. apply IH.
  - destruct (develop_loop_over w fuel req wt deadline notes fb attempt s Hle)
      as (n' & s' & -> & _). done.
Qed.

Lemma develop_never_passes fuel req wt s notes :
  no_tool w checks ->
  fst (_develop_and_verify w c fuel req wt s) <> Done (true, notes).
Proof.
  intros Hno. unfold _develop_and_verify, bind at 1, ask at 1. cbv beta iota.
  by apply develop_loop_never_passes.
Qed.

Lemma preserves_develop_before_deploy fuel req wt :
  preserves before_deploy (_develop_and_verify w c fuel req wt).
Proof.
  unfold _develop_and_verify. walk; [walk|].
  generalize (@nil pystr) at 1. generalize (@nil N). generalize 0%nat.
  induction fuel as [|fuel IH]; intros attempt fb notes; simpl.
  - apply preserves_diverge.
  - walk; [walk|]. walk; [|walk]. walk; [walk|].
    walk; [apply preserves_codex; intros; unfold before_deploy; simpl;
           repeat split; try tauto; intros Happ; vm_compute in Happ; discriminate|].
    walk. walk.
    { apply preserves_verify.
      - intros t name cmd Hin. unfold before_deploy; simpl.
        repeat split; try tauto. by eapply check_not_git_apply.
      - intros. unfold before_deploy. simpl. tauto. }
    walk. walk; [walk | apply IH].
Qed.

Lemma preserves_process_before_deploy fuel req :
  no_tool w checks ->
  preserves (fun e => is_log e \/ before_deploy e) (_process w c fuel req).
Proof.
  intros Hno.
  assert (forall cmd cwd timeout check, ~ is_git_apply cmd ->
    preserves (fun e => is_log e \/ before_deploy e)
      (_run_cmd w cmd cwd timeout check)) as Hrun.
  { intros. apply preserves_run_cmd. intros. right.
    unfold before_deploy. simpl. tauto. }
  unfold _process. walk; [apply preserves_write_task_md; simpl; tauto|].
  walk.
  { unfold _repo_is_clean. walk; [|repeat walk].
    apply Hrun. intros Happ. vm_compute in Happ. discriminate. }
  walk. walk; [apply preserves_write_task_md; simpl; tauto|].
  walk; [apply preserves_write_task_md; simpl; tauto|].
  walk; [apply Hrun; intros Happ; vm_compute in Happ; discriminate|].
  apply preserves_try_finally.
  - apply preserves_bind_reached.
    + eapply preserves_weaken; [|apply preserves_develop_before_deploy]. tauto.
    + intros [[] notes] s Hs.
      * by apply develop_never_passes in Hs.
      * simpl. apply preserves_write_task_md; simpl; tauto.
  - walk; [|walk]. apply Hrun. intros Happ. vm_compute in Happ. discriminate.
Qed.

End VerifyFacts.

(** C4.  When none of the checks has its executable installed, [_verify]
    runs nothing and returns failure with the note that no verification tool
    is available; the develop-verify loop then never returns success, and
    the processing of a task writes no patch, restarts no service and runs no
    [git apply]. *)
Theorem unverifiable_never_deploys `{Unicode} (w : World) (c : Config) :
  (forall t name cmd, (name, cmd) ∈ checks -> which w t (hd [] cmd) = false) ->
  (forall cwd s, exists notes s',
     _verify w cwd s = (Done (false, notes), s') /\
     last notes = Some (py "No verification tools available.") /\
     trace s' = trace s ++ [EvVerified false notes]) /\
  (forall fuel req wt s notes,
     fst (_develop_and_verify w c fuel req wt s) <> Done (true, notes)) /\
  (forall fuel req s, exists evs,
     trace (snd (_process w c fuel req s)) = trace s ++ evs /\
     Forall (fun e => is_log e \/ before_deploy e) evs).
Proof.
  intros Hno. split; [|split].
  - intros. by apply verify_skipped.
  - intros. by apply develop_never_passes.
  - intros fuel req s.
    destruct (preserves_process_before_deploy w c fuel req Hno s)
      as (_ & evs & (Htr & _) & Hevs).
    by exists evs.
Qed.

Lemma unverifiable_never_deploys_witness :
  (forall t name cmd, (name, cmd) ∈ checks -> which calm t (hd [] cmd) = false) /\
  exists notes s',
    _verify calm (sandbox_of first_req) init_sys = (Done (false, notes), s') /\
    last notes = Some (py "No verification tools available.") /\
    trace s' = trace init_sys ++ [EvVerified false notes].
Proof.
  assert (forall t name cmd, (name, cmd) ∈ checks -> which calm t (hd [] cmd) = false)
    as Hno by reflexivity.
  split; [exact Hno|].
  exact (proj1 (unverifiable_never_deploys (H := ucd_fragment) calm site Hno)
           (sandbox_of first_req) init_sys).
Defined.

(* ===================================================================== *)
(** ** Timeouts and feedback in the develop-verify loop *)
(* ===================================================================== *)

Lemma int_of_le (x : Q) : (0 <= x)%Q -> (inject_Z (int_of x) <= x)%Q.
Proof.
  destruct x as [n d]. intros Hx. unfold int_of. simpl.
  assert (0 <= n) as Hnum by (unfold Qle in Hx; simpl in Hx; lia).
  rewrite Z.quot_div_nonneg by lia.
  exact (Qfloor_le (n # d)).
Qed.

Lemma codex_timeout_range w deadline now :
  60 <= codex_timeout w deadline now <= 900.
Proof. unfold codex_timeout. lia. Qed.

(** With a minute or more left, as the source computes it, the timeout of
    the generation step is within the time left. *)
Lemma codex_timeout_within w deadline now :
  (60 <= float_round w (deadline - now))%Q ->
  (inject_Z (codex_timeout w deadline now) <= float_round w (deadline - now))%Q.
Proof.
  intros Hrem. unfold codex_timeout.
  set (left := float_round w (deadline - now)) in *.
  assert (0 <= left)%Q as Hpos
    by (eapply Qle_trans; [|exact Hrem]; done).
  pose proof (int_of_le _ Hpos) as Hint.
  set (r := int_of left) in *.
  destruct (Z.le_gt_cases 60 r) as [Hr|Hr].
  - eapply Qle_trans; [|exact Hint]. rewrite <- Zle_Qle. lia.
  - replace (Z.min 900 (Z.max 60 r)) with 60 by lia. exact Hrem.
Qed.

Lemma feedback_chain_runs req fb runs evs :
  Forall (fun e => exists t cmd cwd timeout, e = EvRun t cmd cwd timeout) runs ->
  feedback_chain req fb evs -> feedback_chain req fb (runs ++ evs).
Proof.
  induction 1 as [|e runs (t & cmd & cwd & timeout & ->) _ IH]; [done|].
  intros Hc. simpl. by apply IH.
Qed.

Lemma feedback_chain_first req fb evs t prompt timeout :
  feedback_chain req fb evs ->
  evs !! 0%nat = Some (EvCodex t prompt timeout) -> prompt = codex_prompt req fb.
Proof. destruct evs as [|[] evs]; simpl; intros Hc Hl; simplify_eq. tauto. Qed.

Lemma feedback_chain_next req fb evs i ok notes t prompt timeout :
  feedback_chain req fb evs ->
  evs !! i = Some (EvVerified ok notes) ->
  evs !! S i = Some (EvCodex t prompt timeout) ->
  prompt = codex_prompt req (join [newline] (lastn 8 notes)).
Proof.
  revert fb i. induction evs as [|e evs IH]; intros fb i Hc Hi Hn; [done|].
  destruct i as [|i].
  - simpl in Hi. simplify_eq. simpl in Hc, Hn.
    by eapply feedback_chain_first.
  - simpl in Hi. change ((e :: evs) !! S (S i)) with (evs !! S i) in Hn.
    destruct e; simpl in Hc; try (by eapply IH); by eapply IH; [apply Hc|..].
Qed.

Section TimingFacts.
Variable w : World.
Variable c : Config.

(** The events of the loop: the timeouts are the coded ones, and the
    prompts follow the verification notes. *)
Lemma develop_loop_events fuel req wt deadline notes fb attempt s :
  exists evs,
    trace (snd (develop_loop w fuel req wt deadline notes fb attempt s))
    = trace s ++ evs /\
    Forall (timeout_as_coded w deadline) evs /\
    feedback_chain req fb evs.
Proof.
  revert notes fb attempt s.
  induction fuel as [|fuel IH]; intros notes fb attempt s.
  - exists []. simpl. by rewrite app_nil_r.
  - destruct (Qlt_le_dec (clock w (tick s)) deadline) as [Hlt|Hle].
    2:{ destruct (develop_loop_over w fuel req wt deadline notes fb attempt s Hle)
          as (n' & s' & -> & Htr & _).
        exists []. simpl. by rewrite app_nil_r. }
    destruct (develop_loop_turn w fuel req wt deadline notes fb attempt s Hlt)
      as (runs & evs & ok & vn & n' & s0 & s' & Htr & Hruns & Hevs & _ & _ & ->).
    cbv zeta in Htr, Hruns.
    set (timeout := codex_timeout w deadline (clock w (S (tick s)))) in *.
    assert (Forall (timeout_as_coded w deadline)
              (EvCodex (S (S (tick s))) (codex_prompt req fb) timeout
               :: runs ++ evs ++ [EvVerified ok vn])) as Hturn.
    { constructor.
      - simpl.
        split; [lia|]. split; [done|]. split; [apply codex_timeout_range|].
        apply codex_timeout_within.
      - apply Forall_app. split; [|apply Forall_app; split].
        + eapply Forall_impl; [exact Hruns|]. intros e ->. left.
          eexists. split; [done|]. split; [lia | done].
        + eapply Forall_impl; [exact Hevs|]. intros e (t & name & cmd & Hin & ->).
          right. split; [by exists name | done].
        + by repeat constructor. }
    assert (forall rest, feedback_chain req (join [newline] (lastn 8 vn)) rest ->
              feedback_chain req fb
                ((EvCodex (S (S (tick s))) (codex_prompt req fb) timeout
                  :: runs ++ evs ++ [EvVerified ok vn]) ++ rest)) as Hchain.
    { intros rest Hrest. simpl. split; [done|].
      rewrite <- !app_assoc. apply feedback_chain_runs.
      { eapply Forall_impl; [exact Hruns|]. intros e ->. by eexists _, _, _, _. }
      apply feedback_chain_runs.
      { eapply Forall_impl; [exact Hevs|].
        intros e (t & name & cmd & _ & ->). by eexists _, _, _, _. }
      exact Hrest. }
    destruct ok.
    + eexists. split; [exact Htr|]. split; [exact Hturn|].
      rewrite <- (app_nil_r (_ :: _)). by apply Hchain.
    + destruct (IH n' (join [newline] (lastn 8 vn)) (S attempt) s')
        as (rest & Htr' & Hrest & Hc).
      eexists (_ ++ rest). split; [by rewrite Htr', Htr, <- app_assoc|].
      split; [by apply Forall_app | by apply Hchain].
Qed.

Lemma develop_and_verify_events fuel req wt s :
  exists evs,
    trace (snd (_develop_and_verify w c fuel req wt s)) = trace s ++ evs /\
    Forall (timeout_as_coded w
              (float_round w (clock w (tick s) + inject_Z (build_timeout_s c))))
      evs /\
    feedback_chain req [] evs.
Proof.
  unfold _develop_and_verify, bind at 1, ask at 1. cbv beta iota.
  match goal with |- context [ develop_loop w fuel req wt ?d ?n ?f ?a ?s1 ] =>
    destruct (develop_loop_events fuel req wt d n f a s1) as (evs & Htr & Hev & Hc)
  end.
  by exists evs.
Qed.

End TimingFacts.

(** C6, as the code has it.  In the develop-verify loop the generation step
    and the command it runs are given the time left until the deadline as
    the source computes it, the float difference of the deadline and the
    clock read just before, cut to whole seconds, but no less than 60 and no
    more than 900 seconds: it is within that difference when the difference
    is a minute or more.  Every verification check is given 600 seconds,
    whatever time is left. *)
Theorem timeouts_as_coded (w : World) (c : Config) (fuel : nat)
    (req : UpgradeRequest) (wt : pystr) (s : Sys) :
  exists evs,
    trace (snd (_develop_and_verify w c fuel req wt s)) = trace s ++ evs /\
    Forall (timeout_as_coded w
              (float_round w (clock w (tick s) + inject_Z (build_timeout_s c))))
      evs.
Proof.
  destruct (develop_and_verify_events w c fuel req wt s) as (evs & ? & ? & _).
  by exists evs.
Qed.

(** C6 as stated fails: ten seconds before the deadline the second attempt
    starts the generation step with a timeout of 60 seconds. *)
Lemma timeouts_within_deadline_counterexample :
  ~ timeouts_within_deadline failing
      (clock failing 0 + inject_Z (build_timeout_s site))%Q
      (trace (snd (_develop_and_verify failing site 3 first_req
                     (sandbox_of first_req) init_sys))).
Proof.
  intros Hclaim.
  assert (exists prompt,
    trace (snd (_develop_and_verify failing site 3 first_req
                  (sandbox_of first_req) init_sys)) !! 3%nat
    = Some (EvCodex 10 prompt 60)) as [prompt Hev]
    by (eexists; vm_compute; reflexivity).
  apply list_elem_of_lookup_2, Hclaim in Hev.
  vm_compute in Hev. by apply Hev.
Qed.

(** C9, as the code has it.  The first prompt of the generation step has no
    feedback; each later one has as feedback the last notes, at most 8, of
    the verification before it, joined by newlines.  A note is not a line:
    the note with the output of a failed check has the lines of that
    output. *)
Theorem feedback_from_last_notes (w : World) (c : Config) (fuel : nat)
    (req : UpgradeRequest) (wt : pystr) (s : Sys) :
  exists evs,
    trace (snd (_develop_and_verify w c fuel req wt s)) = trace s ++ evs /\
    (forall t prompt timeout,
       evs !! 0%nat = Some (EvCodex t prompt timeout) ->
       prompt = codex_prompt req []) /\
    (forall i ok notes t prompt timeout,
       evs !! i = Some (EvVerified ok notes) ->
       evs !! S i = Some (EvCodex t prompt timeout) ->
       prompt = codex_prompt req (join [newline] (lastn 8 notes))
       /\ (length (lastn 8 notes) <= 8)%nat).
Proof.
  destruct (develop_and_verify_events w c fuel req wt s) as (evs & Htr & _ & Hc).
  exists evs. split; [done|]. split.
  - intros. by eapply feedback_chain_first.
  - intros. split; [by eapply feedback_chain_next|].
    unfold lastn. rewrite length_drop. lia.
Qed.

(** C9 as stated fails: after pytest failed with ten lines of output the
    feedback of the next prompt has thirteen lines. *)
Lemma feedback_within_8_lines_counterexample :
  ~ feedback_within_8_lines first_req
      (trace (snd (_develop_and_verify failing site 3 first_req
                     (sandbox_of first_req) init_sys))).
Proof.
  intros Hclaim.
  set (evs := trace (snd (_develop_and_verify failing site 3 first_req
                            (sandbox_of first_req) init_sys))) in *.
  pose (notes := [py "Skipped compile: 'python3' not found.";
                  py "Skipped ruff: 'ruff' not found.";
                  py "pytest failed."; pytest_output]).
  assert (evs !! 2%nat = Some (EvVerified false notes)) as H2
    by (vm_compute; reflexivity).
  assert (evs !! 3%nat = Some (EvCodex 10
            (codex_prompt first_req (join [newline] (lastn 8 notes))) 60)) as H3
    by (vm_compute; reflexivity).
  destruct (Hclaim _ _ _ _ _ _ H2 H3) as (fb & Heq & Hfb).
  unfold codex_prompt in Heq. do 8 apply app_inv_head in Heq.
  destruct fb as [|ch fb].
  - vm_compute in Heq. discriminate.
  - change (nonempty (ch :: fb)) with true in Heq. cbv iota in Heq.
    rewrite <- Heq in Hfb. vm_compute in Hfb. lia.
Qed.

(* ===================================================================== *)
(** ** The files behind the store *)
(* ===================================================================== *)

Lemma written_in_place dumps c e path data :
  written dumps c e = Some (path, data) -> in_place dumps c e path data.
Proof.
  intros Hw.
  assert (event_ops dumps c e = [OpOpenTrunc path; OpWrite path data]) as Hops.
  { destruct e; simpl in *; simplify_eq; reflexivity. }
  split; [exact Hops|]. intros f. rewrite Hops. simpl.
  by rewrite lookup_insert_eq, insert_insert_eq.
Qed.

(** C2, as the code has it.  [write_task_md] and [enqueue] write each of
    their files in place, with one [write_text] on the file itself: no
    temporary file is made and nothing is renamed.  A reader finds the file
    empty after it is opened and complete after it is written. *)
Theorem store_writes_in_place (dumps : list (pystr * pystr) -> pystr)
    (c : Config) (w : World) (req : UpgradeRequest) (status : pystr)
    (notes : list pystr) (s : Sys) :
  (exists md s',
     write_task_md w req status notes s = (Done tt, s') /\
     trace s' = trace s ++ [EvTaskMd (task_name req) md] /\
     md_status md = status /\ md_notes md = notes /\
     in_place dumps c (EvTaskMd (task_name req) md)
       (path_join (tasks_dir c) (task_name req)) (render_task_md md)) /\
  (exists md s',
     enqueue w req s = (Done (queue_name req), s') /\
     trace s' = trace s ++ [EvQueueWrite (queue_name req) req;
                            EvTaskMd (task_name req) md] /\
     md_status md = py "QUEUED" /\
     in_place dumps c (EvQueueWrite (queue_name req) req)
       (path_join (queue_dir c) (queue_name req)) (dumps (asdict req)) /\
     in_place dumps c (EvTaskMd (task_name req) md)
       (path_join (tasks_dir c) (task_name req)) (render_task_md md)).
Proof.
  split.
  - eexists _, _. rewrite write_task_md_run. split; [reflexivity|]. simpl.
    repeat split; try reflexivity. intros f. apply written_in_place. reflexivity.
  - eexists _, _. unfold enqueue, bind, get, set_queue, emit, ret. simpl.
    split; [reflexivity|]. simpl. rewrite <- app_assoc.
    split; [reflexivity|]. split; [reflexivity|].
    split; by apply written_in_place.
Qed.

(** C2 as stated fails: while the record of a rejected task is rewritten, a
    reader finds the file empty, which is neither the record from before
    nor the new one. *)
Lemma atomic_write_counterexample :
  ~ atomic_write (fun _ => []) site
      {[ skill_md_path := render_task_md queued_md ]}
      (EvTaskMd (task_name skill_req) rejected_md).
Proof.
  intros Hclaim.
  destruct (Hclaim skill_md_path (render_task_md rejected_md) eq_refl
              (<[skill_md_path := []]>
                 {[ skill_md_path := render_task_md queued_md ]})) as [Hold|Hnew].
  - left.
  - rewrite lookup_insert_eq, lookup_singleton_eq in Hold.
    vm_compute in Hold. discriminate.
  - rewrite lookup_insert_eq in Hnew. vm_compute in Hnew. discriminate.
Qed.

(* ===================================================================== *)
(** ** A round of the supervisor on a concrete queue *)
(* ===================================================================== *)

Lemma brisk_passes : deadline_passes brisk site 2.
Proof.
  intros t n Hle. unfold brisk, site, default_config. simpl.
  rewrite <- inject_Z_plus, <- Zle_Qle. lia.
Qed.

(** When the write of the forward patch raises, the handler of the
    supervisor records the task as failed with the text of the fault, and
    the queue entry goes. *)
Example fault_is_recorded :
  let s' := snd (run_pending (H := ucd_fragment) full_disk site 3 one_pending) in
  (md_status <$> tasks s' !! task_name first_req) = Some (py "FAILED") /\
  (md_notes <$> tasks s' !! task_name first_req)
  = Some [py "Supervisor exception: [Errno 28] No space left on device"] /\
  list_pending s' = [] /\
  last (trace s') = Some (EvPop (queue_name first_req)).
Proof. vm_compute. repeat split. Qed.

(** When pytest passes and the new service stays alive the task ends in
    SUCCESS, with both patches in the backups. *)
Example shipping_succeeds :
  let s' := snd (run_pending (H := ucd_fragment) shipping site 3 one_pending) in
  (md_status <$> tasks s' !! task_name first_req) = Some (py "SUCCESS") /\
  is_Some (backups s' !! forward_name first_req) /\
  is_Some (backups s' !! rollback_name first_req) /\
  list_pending s' = [].
Proof. vm_compute. repeat split; by eexists. Qed.

(* ===================================================================== *)
(** ** Further properties: texts, requests and the queue *)
(* ===================================================================== *)

(** X1.  [_trim] keeps the first [limit] characters of any text, returns a
    text within the limit as it is, and makes of a longer one the cut text
    with a marker of more than 22 characters: the result is longer than
    [limit], and can be longer than the text was. *)
Theorem trim_keeps_prefix (text : pystr) (limit : nat) :
  take limit (_trim text limit) = take limit text /\
  ((length text <= limit)%nat -> _trim text limit = text) /\
  ((limit < length text)%nat ->
     (limit + 22 < length (_trim text limit))%nat).
Proof.
  unfold _trim. destruct (Nat.leb_spec (length text) limit) as [Hle|Hlt].
  - split; [done|]. split; [done | lia].
  - split; [|split; [lia|]].
    + rewrite take_app_le by (rewrite length_take; lia).
      rewrite take_take. f_equal. lia.
    + intros _. rewrite !length_app, length_take.
      change (length [newline]) with 1%nat.
      change (length (py "... (truncated ")) with 15%nat.
      change (length (py " chars)")) with 7%nat. lia.
Qed.

Lemma trim_keeps_prefix_witness :
  (3 < length (py "abcdef"))%nat /\
  (3 + 22 < length (_trim (py "abcdef") 3))%nat.
Proof.
  assert (3 < length (py "abcdef"))%nat as Hlt by (vm_compute; lia).
  split; [exact Hlt|].
  exact (proj2 (proj2 (trim_keeps_prefix (py "abcdef") 3)) Hlt).
Defined.

Section StripFacts.
Context `{Unicode}.

Lemma lstrip_head s ch : head (lstrip s) = Some ch -> isspace ch = false.
Proof.
  induction s as [|a s IH]; simpl; [done|].
  destruct (isspace a) eqn:E; [done|]. simpl. congruence.
Qed.

Lemma lstrip_fixed s : (forall ch, head s = Some ch -> isspace ch = false) -> lstrip s = s.
Proof.
  destruct s as [|a s]; simpl; [done|]. intros Hh. by rewrite (Hh a).
Qed.

Lemma lstrip_snoc s ch : isspace ch = false -> lstrip (s ++ [ch]) = lstrip s ++ [ch].
Proof.
  intros Hch. induction s as [|a s IH]; simpl; [by rewrite Hch|].
  by destruct (isspace a).
Qed.

Lemma head_rev (l : pystr) : head (rev l) = last l.
Proof. by rewrite rev_alt, <- head_reverse. Qed.

Lemma last_rev (l : pystr) : last (rev l) = head l.
Proof. by rewrite rev_alt, <- last_reverse. Qed.

Lemma strip_last s ch : last (strip s) = Some ch -> isspace ch = false.
Proof. unfold strip. rewrite last_rev. apply lstrip_head. Qed.

Lemma strip_head s ch : head (strip s) = Some ch -> isspace ch = false.
Proof.
  unfold strip. destruct (lstrip s) as [|a t] eqn:E; [done|].
  assert (isspace a = false) as Ha by (apply (lstrip_head s); by rewrite E).
  simpl rev at 2. rewrite lstrip_snoc by done.
  rewrite rev_app_distr. simpl. congruence.
Qed.

Lemma strip_strip s : strip (strip s) = strip s.
Proof.
  unfold strip at 1.
  rewrite (lstrip_fixed (strip s)) by apply strip_head.
  rewrite lstrip_fixed, rev_involutive; [done|].
  intros ch. rewrite head_rev. apply strip_last.
Qed.

(** A text of whitespace only, and no other, is stripped to nothing. *)
Lemma lstrip_nil s : lstrip s = [] <-> Forall (fun ch => isspace ch = true) s.
Proof.
  induction s as [|a s IH]; simpl; [by split|].
  destruct (isspace a) eqn:E.
  - rewrite IH. split; [by constructor | by inversion 1].
  - split; [done|]. inversion 1; congruence.
Qed.

Lemma strip_nil s : strip s = [] <-> Forall (fun ch => isspace ch = true) s.
Proof.
  rewrite <- lstrip_nil. unfold strip. split.
  - intros Hs. destruct (lstrip s) as [|a t] eqn:E; [done|]. exfalso.
    assert (isspace a = false) as Ha by (apply (lstrip_head s); by rewrite E).
    simpl rev at 2 in Hs. rewrite lstrip_snoc, rev_app_distr in Hs by done.
    done.
  - by intros ->.
Qed.

End StripFacts.

(** X2.  A request made by [create] has a title and a prompt that neither
    start nor end with whitespace, and stripping them again changes
    nothing. *)
Theorem create_strips `{Unicode} (now : datetime)
    (uuid_hex utc title prompt scope requested_by : pystr) :
  let r := create now uuid_hex utc title prompt scope requested_by in
  (forall ch, head (req_title r) = Some ch \/ last (req_title r) = Some ch ->
     isspace ch = false) /\
  (forall ch, head (req_prompt r) = Some ch \/ last (req_prompt r) = Some ch ->
     isspace ch = false) /\
  strip (req_title r) = req_title r /\ strip (req_prompt r) = req_prompt r.
Proof.
  simpl. split; [|split; [|split; apply strip_strip]].
  - intros ch [Hh|Hl]; [by eapply strip_head | by eapply strip_last].
  - intros ch [Hh|Hl]; [by eapply strip_head | by eapply strip_last].
Qed.

Lemma length_strftime dt : datetime_valid dt -> length (strftime dt) = 15%nat.
Proof.
  intros Hv. rewrite strftime_valid by done.
  rewrite !length_app, !length_fixed. reflexivity.
Qed.

(** X3.  For a time in a year of four digits, 1000 to 9999, and a uuid of
    six or more hex digits, the id of a request has 22 characters: the 15
    of the time stamp, a hyphen, and the first six digits of the uuid,
    which are what [req.id[-6:]] gives back for the name of the branch.
    (A year before 1000 is printed with fewer digits, and the id is
    shorter.) *)
Theorem create_id_shape `{Unicode} (now : datetime)
    (uuid_hex utc title prompt scope requested_by : pystr) :
  datetime_valid now -> (6 <= length uuid_hex)%nat ->
  let r := create now uuid_hex utc title prompt scope requested_by in
  length (req_id r) = 22%nat /\
  take 15 (req_id r) = strftime now /\
  lastn 6 (req_id r) = take 6 uuid_hex.
Proof.
  intros Hv Hu. cbv zeta. unfold create. cbn [req_id].
  pose proof (length_strftime now Hv) as Hlen.
  assert (length (take 6 uuid_hex) = 6%nat) as Htk by (rewrite length_take; lia).
  split; [|split].
  - rewrite !length_app, Hlen, Htk. reflexivity.
  - rewrite take_app_length'; done.
  - unfold lastn. rewrite !length_app, Hlen, Htk.
    change (15 + (length [hyphen] + 6) - 6)%nat with (15 + 1)%nat.
    rewrite (app_assoc (strftime now)).
    rewrite drop_app_length'; [done|].
    rewrite length_app, Hlen. reflexivity.
Qed.

Lemma create_id_shape_witness :
  datetime_valid noon /\ length (req_id first_req) = 22%nat /\
  lastn 6 (req_id first_req) = py "ffffff".
Proof.
  assert (datetime_valid noon) as Hv
    by (repeat split; apply Nat.leb_le; vm_compute; reflexivity).
  assert (6 <= length (py "ffffff0123456789abcdef0123456789"))%nat as Hu
    by (vm_compute; lia).
  split; [exact Hv|].
  destruct (create_id_shape (H := ucd_fragment) noon
    (py "ffffff0123456789abcdef0123456789") (py "2026-03-09T11:00:00+00:00")
    (py "bump timeout") (py "raise it") (py "core") (py "ops") Hv Hu)
    as (Hlen & _ & Hlast).
  split; [exact Hlen | exact Hlast].
Defined.

(** [ends_with] says what its name says. *)
Lemma ends_with_spec suffix s :
  ends_with suffix s = true <-> exists stem, s = stem ++ suffix.
Proof.
  unfold ends_with, lastn. rewrite andb_true_iff, bool_decide_eq_true, Nat.leb_le.
  split.
  - intros [Hd _]. exists (take (length s - length suffix) s).
    rewrite <- Hd at 2. by rewrite take_drop.
  - intros [stem ->]. rewrite length_app. split; [|lia].
    replace (length stem + length suffix - length suffix)%nat
      with (length stem) by lia.
    by rewrite drop_app_length.
Qed.

Lemma insert_sorted_NoDup x l : x ∉ l -> NoDup l -> NoDup (insert_sorted x l).
Proof.
  induction l as [|y l IH]; simpl; intros Hx Hl.
  - by apply NoDup_singleton.
  - destruct (pystr_leb x y); [by constructor|].
    apply not_elem_of_cons in Hx as [Hxy Hx]. inversion_clear Hl as [|? ? Hy Hl'].
    constructor; [|by apply IH].
    rewrite insert_sorted_elem. intros [->|?]; done.
Qed.

Lemma sorted_NoDup l : NoDup l -> NoDup (sorted l).
Proof.
  induction 1 as [|x l Hx Hl IH]; simpl; [constructor|].
  apply insert_sorted_NoDup; [by rewrite sorted_elem | done].
Qed.

Lemma list_pending_NoDup s : NoDup (list_pending s).
Proof.
  unfold list_pending. apply sorted_NoDup.
  apply NoDup_ListNoDup, List.NoDup_filter, NoDup_ListNoDup.
  apply NoDup_fst_map_to_list.
Qed.

(** X4.  [list_pending] lists, each once and in ascending order of the
    names, exactly the files of the queue whose name ends in ".json". *)
Theorem list_pending_sorted (s : Sys) :
  StronglySorted name_le (list_pending s) /\
  NoDup (list_pending s) /\
  (forall name,
     name ∈ list_pending s <->
     is_Some (queue s !! name) /\ exists stem, name = stem ++ py ".json").
Proof.
  split; [apply sorted_sorted|]. split; [apply list_pending_NoDup|].
  intros name. by rewrite list_pending_elem, ends_with_spec.
Qed.

(** X5.  [pop] removes the entry and nothing else, and is idempotent: a
    second [pop] of the same name, like the [pop] of a name that is not in
    the queue, changes nothing and is no error. *)
Theorem pop_idempotent (name : pystr) (s : Sys) :
  let s1 := snd (pop name s) in
  fst (pop name s) = Done tt /\
  queue s1 = delete name (queue s) /\
  pop name s1 = (Done tt, s1) /\
  (queue s !! name = None -> s1 = s).
Proof.
  unfold pop, bind, get. cbv beta iota.
  destruct (queue s !! name) as [r|] eqn:E; simpl.
  - split; [done|]. split; [done|]. rewrite lookup_delete_eq. done.
  - split; [done|]. split; [by rewrite delete_id|]. by rewrite E.
Qed.

Lemma pop_idempotent_witness :
  queue init_sys !! py "absent.json" = None /\
  snd (pop (py "absent.json") init_sys) = init_sys.
Proof.
  assert (queue init_sys !! py "absent.json" = None) as Hq by reflexivity.
  split; [exact Hq|].
  exact (proj2 (proj2 (proj2 (pop_idempotent (py "absent.json") init_sys))) Hq).
Defined.

(* ===================================================================== *)
(** ** Further properties: the order of service *)
(* ===================================================================== *)

Lemma name_le_antisym : AntiSymm (=) name_le.
Proof.
  intros a b Hab Hba. unfold name_le, pystr_leb in *.
  rewrite (pystr_compare_antisym a b) in Hba.
  destruct (pystr_compare a b) eqn:E; try done. by apply pystr_compare_eq.
Qed.

(** What is pending is decided by the queue, and by its names alone. *)
Lemma list_pending_ext s s' :
  (forall name, is_Some (queue s' !! name) <-> is_Some (queue s !! name)) ->
  list_pending s' = list_pending s.
Proof.
  intros Hq.
  apply (@StronglySorted_unique _ name_le name_le_antisym);
    [apply sorted_sorted | apply sorted_sorted |].
  apply NoDup_Permutation; [apply list_pending_NoDup | apply list_pending_NoDup |].
  intros x. by rewrite !list_pending_elem, Hq.
Qed.

Lemma list_pending_queue s s' : queue s' = queue s -> list_pending s' = list_pending s.
Proof. intros Hq. apply list_pending_ext. intros name. by rewrite Hq. Qed.

(** When the first pending entry is removed the others are pending, in
    their order. *)
Lemma list_pending_delete s s' name rest :
  list_pending s = name :: rest ->
  queue s' = delete name (queue s) ->
  list_pending s' = rest.
Proof.
  intros Hp Hq.
  pose proof (sorted_sorted
    (List.filter (ends_with (py ".json")) (map fst (map_to_list (queue s))))) as Hs.
  pose proof (list_pending_NoDup s) as Hn.
  fold (list_pending s) in Hs. rewrite Hp in Hs, Hn.
  apply StronglySorted_inv in Hs as [Hs _]. apply NoDup_cons in Hn as [Hx Hn].
  apply (@StronglySorted_unique _ name_le name_le_antisym);
    [apply sorted_sorted | done |].
  apply NoDup_Permutation; [apply list_pending_NoDup | done |].
  intros x. rewrite list_pending_elem, Hq.
  pose proof (list_pending_elem s x) as Hel. rewrite Hp, elem_of_cons in Hel.
  destruct (decide (x = name)) as [->|Hne].
  - rewrite lookup_delete_eq. split; [by intros [[? ?] _] | done].
  - rewrite lookup_delete_ne by done. rewrite <- Hel. tauto.
Qed.

(* ===================================================================== *)
(** ** Further properties: commands and checks *)
(* ===================================================================== *)

(** [_run_cmd], case by case. *)
Lemma run_cmd_state w cmd cwd timeout check s :
  snd (_run_cmd w cmd cwd timeout check s) = after_run s cmd cwd timeout.
Proof.
  unfold _run_cmd, bind, get, ask, emit, ret. cbv beta iota.
  destruct (subprocess_run w (tick s) cmd cwd timeout) as [rc out err| |e];
    [destruct (check && negb (rc =? 0))| |]; reflexivity.
Qed.

Lemma run_cmd_completed w cmd cwd timeout check s rc out err :
  subprocess_run w (tick s) cmd cwd timeout = Completed rc out err ->
  _run_cmd w cmd cwd timeout check s =
  (Done (if check && negb (rc =? 0)
         then (false, if nonempty (output_of out err) then output_of out err
                      else py "Exit code " ++ str_of_Z rc)
         else (rc =? 0, output_of out err)),
   after_run s cmd cwd timeout).
Proof.
  intros E. unfold _run_cmd, bind, get, ask, emit, ret. cbv beta iota.
  rewrite E. by destruct (check && negb (rc =? 0)).
Qed.

Lemma run_cmd_not_completed w cmd cwd timeout check s :
  (forall rc out err,
     subprocess_run w (tick s) cmd cwd timeout <> Completed rc out err) ->
  exists out,
    _run_cmd w cmd cwd timeout check s = (Done (false, out), after_run s cmd cwd timeout).
Proof.
  intros E. unfold _run_cmd, bind, get, ask, emit, ret. cbv beta iota.
  destruct (subprocess_run w (tick s) cmd cwd timeout) as [rc out err| |e].
  - by destruct (E rc out err).
  - by eexists.
  - by eexists.
Qed.

(** X9.  [_run_cmd] never raises and runs its command once.  It reports
    success exactly when the process completed with exit code 0, with or
    without [check]; the flag changes the text alone, and that only for a
    command that failed without any output, where it gives the exit code
    in place of the empty text. *)
Theorem run_cmd_check_flag (w : World) (cmd : list pystr) (cwd : pystr)
    (timeout : Z) (s : Sys) :
  exists ok out1 out0,
    _run_cmd w cmd cwd timeout true s
      = (Done (ok, out1), after_run s cmd cwd timeout) /\
    _run_cmd w cmd cwd timeout false s
      = (Done (ok, out0), after_run s cmd cwd timeout) /\
    (ok = true <-> run_passed w (EvRun (tick s) cmd cwd timeout)) /\
    (out1 = out0 \/
     ok = false /\ out0 = [] /\
     exists rc, rc <> 0 /\ out1 = py "Exit code " ++ str_of_Z rc).
Proof.
  unfold run_passed.
  destruct (subprocess_run w (tick s) cmd cwd timeout) as [rc out err| |e] eqn:E.
  - rewrite !(run_cmd_completed w cmd cwd timeout _ s rc out err E).
    cbn [andb]. destruct (Z.eqb_spec rc 0) as [->|Hrc]; cbn [negb].
    + eexists _, _, _. split; [reflexivity|]. split; [reflexivity|].
      split; [|by left]. split; [by eexists _, _ | done].
    + eexists _, _, _. split; [reflexivity|]. split; [reflexivity|].
      split; [split; [done | intros (? & ? & [=]); done]|].
      destruct (output_of out err) eqn:Eo; cbn [nonempty]; [right | by left].
      split; [done|]. split; [done|]. by exists rc.
  - unfold _run_cmd, bind, get, ask, emit, ret. cbv beta iota. rewrite E.
    eexists _, _, _. split; [reflexivity|]. split; [reflexivity|].
    split; [split; [done | intros (? & ? & [=])] | by left].
  - unfold _run_cmd, bind, get, ask, emit, ret. cbv beta iota. rewrite E.
    eexists _, _, _. split; [reflexivity|]. split; [reflexivity|].
    split; [split; [done | intros (? & ? & [=])] | by left].
Qed.

Section CommandFacts.
Context `{Unicode}.
Variable w : World.
Variable c : Config.

Lemma output_of_whitespace out err :
  whitespace (output_of out err) <-> whitespace out /\ err = [].
Proof.
  unfold output_of, whitespace. destruct err as [|ch err]; cbn [nonempty].
  - rewrite app_nil_r. tauto.
  - split; [|by intros [_ [=]]]. intros Hf. exfalso.
    apply Forall_app in Hf as [_ Hf].
    apply Forall_app in Hf as [_ Hf]. apply Forall_app in Hf as [Hf _].
    apply Forall_inv in Hf. rewrite isspace_ascii in Hf by (vm_compute; done).
    vm_compute in Hf. done.
Qed.

Lemma repo_is_clean_run s :
  let cmd := [py "git"; py "status"; py "--porcelain"] in
  exists clean detail,
    _repo_is_clean w c s = (Done (clean, detail), after_run s cmd (repo_root c) 30) /\
    (clean = true <->
     exists out, subprocess_run w (tick s) cmd (repo_root c) 30 = Completed 0 out []
                 /\ whitespace out) /\
    (clean = false ->
       detail = py "failed to read git status" \/
       exists out err,
         subprocess_run w (tick s) cmd (repo_root c) 30 = Completed 0 out err /\
         detail = take 500 (strip (output_of out err)) /\ detail <> []) /\
    (length detail <= 500)%nat.
Proof.
  cbv zeta. unfold _repo_is_clean, bind at 1.
  destruct (subprocess_run w (tick s) [py "git"; py "status"; py "--porcelain"]
              (repo_root c) 30) as [rc out err| |e] eqn:E.
  - rewrite (run_cmd_completed w _ _ _ _ s rc out err E). cbn [andb].
    destruct (Z.eqb_spec rc 0) as [->|Hrc]; cbv beta iota; cbn [negb].
    + destruct (strip (output_of out err)) as [|ch dirty] eqn:Es; cbn [nonempty].
      * eexists _, _. split; [reflexivity|].
        apply strip_nil, output_of_whitespace in Es as [Hout Herr].
        subst err.
        split; [split; [by exists out | done]|]. split; [done|].
        vm_compute. lia.
      * eexists _, _. split; [reflexivity|].
        split; [split; [done|]|].
        { intros (out' & [= -> ->] & Hws). exfalso.
          assert (strip (output_of out' []) = []) as Hnil
            by (by apply strip_nil, output_of_whitespace).
          rewrite Hnil in Es. done. }
        split; [|rewrite length_take; lia].
        intros _. right. exists out, err. split; [done|]. rewrite Es.
        split; [done|]. change 500%nat with (S 499). by cbn [take].
    + eexists _, _. split; [reflexivity|].
      split; [split; [done | intros (? & [=] & _); done]|].
      split; [by left | vm_compute; lia].
  - destruct (run_cmd_not_completed w [py "git"; py "status"; py "--porcelain"]
                (repo_root c) 30 false s) as (o & ->);
      [intros; by rewrite E|].
    cbv beta iota. cbn [negb]. eexists _, _. split; [reflexivity|].
    split; [split; [done | intros (? & [=] & _)]|].
    split; [by left | vm_compute; lia].
  - destruct (run_cmd_not_completed w [py "git"; py "status"; py "--porcelain"]
                (repo_root c) 30 false s) as (o & ->);
      [intros; by rewrite E|].
    cbv beta iota. cbn [negb]. eexists _, _. split; [reflexivity|].
    split; [split; [done | intros (? & [=] & _)]|].
    split; [by left | vm_compute; lia].
Qed.

End CommandFacts.

(** X10.  [_repo_is_clean] runs [git status --porcelain] once, with a
    timeout of 30 seconds, and does not raise.  The tree counts as clean
    exactly when the command completed with exit code 0, printed nothing
    but whitespace and wrote nothing to its standard error: a warning of
    git there makes the tree count as dirty.  The detail it gives has at
    most 500 characters. *)
Theorem repo_is_clean_iff `{Unicode} (w : World) (c : Config) (s : Sys) :
  let cmd := [py "git"; py "status"; py "--porcelain"] in
  exists clean detail,
    _repo_is_clean w c s = (Done (clean, detail), after_run s cmd (repo_root c) 30) /\
    (clean = true <->
     exists out, subprocess_run w (tick s) cmd (repo_root c) 30 = Completed 0 out []
                 /\ whitespace out) /\
    (length detail <= 500)%nat.
Proof.
  cbv zeta. destruct (repo_is_clean_run w c s) as (clean & detail & E & Hc & _ & Hl).
  by exists clean, detail.
Qed.

(* ===================================================================== *)
(** ** Further properties: verification and the develop-verify loop *)
(* ===================================================================== *)

Lemma run_cmd_verdict w cmd cwd timeout check s :
  exists ok out,
    _run_cmd w cmd cwd timeout check s
      = (Done (ok, out), after_run s cmd cwd timeout) /\
    (ok = true <-> run_passed w (EvRun (tick s) cmd cwd timeout)).
Proof.
  unfold run_passed.
  destruct (subprocess_run w (tick s) cmd cwd timeout) as [rc out err| |e] eqn:E.
  - rewrite (run_cmd_completed w cmd cwd timeout check s rc out err E).
    destruct (Z.eqb_spec rc 0) as [->|Hrc]; cbn [negb].
    + rewrite andb_false_r. eexists _, _. split; [reflexivity|].
      split; [by eexists _, _ | done].
    + destruct check; cbn [andb]; cbv iota; eexists _, _; (split; [reflexivity|]);
        (split; [done | intros (? & ? & [=]); done]).
  - destruct (run_cmd_not_completed w cmd cwd timeout check s) as (o & ->);
      [intros; by rewrite E|].
    eexists _, _. split; [reflexivity|]. split; [done | intros (? & ? & [=])].
  - destruct (run_cmd_not_completed w cmd cwd timeout check s) as (o & ->);
      [intros; by rewrite E|].
    eexists _, _. split; [reflexivity|]. split; [done | intros (? & ? & [=])].
Qed.

(** What [_run_cmd] returns depends on the state by its tick alone. *)
Lemma run_cmd_tick w cmd cwd timeout check s1 s2 :
  tick s1 = tick s2 ->
  fst (_run_cmd w cmd cwd timeout check s1) = fst (_run_cmd w cmd cwd timeout check s2).
Proof.
  intros Ht. unfold _run_cmd, bind, get, ask, emit, ret. cbv beta iota.
  rewrite Ht.
  destruct (subprocess_run w (tick s2) cmd cwd timeout) as [rc out err| |e];
    [destruct (check && negb (rc =? 0))| |]; reflexivity.
Qed.

Section VerifyFacts.
Variable w : World.

(** The outcomes of the loop of [_verify]. *)
Lemma verify_loop_verdict cwd todo executed notes s :
  exists ok added evs s',
    verify_loop w cwd todo executed notes s = (Done (ok, notes ++ added), s') /\
    trace s' = trace s ++ evs /\
    (length added <= length todo + 1)%nat /\
    (todo <> [] -> added <> []) /\
    (ok = true /\ (0 < executed + length evs)%nat /\ Forall (run_passed w) evs
     \/ ok = false /\ executed = 0%nat /\ evs = [] /\
        last added = Some (py "No verification tools available.")
     \/ ok = false /\
        exists pre t name cmd out,
          evs = pre ++ [EvRun t cmd cwd 600] /\ Forall (run_passed w) pre /\
          ~ run_passed w (EvRun t cmd cwd 600) /\
          (name, cmd) ∈ todo /\
          (forall s0, tick s0 = t ->
             fst (_run_cmd w cmd cwd 600 false s0) = Done (false, out)) /\
          lastn 2 added = [name ++ py " failed."; _trim out 1200]).
Proof.
  revert executed notes s.
  induction todo as [|[name cmd] todo IH]; intros executed notes s.
  - cbn [verify_loop]. destruct executed as [|n]; cbn [Nat.eqb]; unfold ret.
    + eexists false, [_], [], s. split; [reflexivity|].
      rewrite app_nil_r. split; [done|]. split; [simpl; lia|]. split; [done|].
      right. left. by repeat split.
    + eexists true, [], [], s. rewrite !app_nil_r. split; [reflexivity|].
      split; [done|]. split; [simpl; lia|]. split; [done|].
      left. split; [done|]. split; [lia | constructor].
  - cbn [verify_loop]. unfold bind at 1, ask at 1. cbv beta iota.
    destruct (which w (tick s) (hd [] cmd)); cbn [negb]; cbv beta iota.
    + unfold bind at 1.
      match goal with |- context [ _run_cmd w cmd cwd 600 false ?s1 ] =>
        set (s0 := s1) in *;
        destruct (run_cmd_verdict w cmd cwd 600 false s0)
          as (ok & out & Erun & Hok);
        rewrite Erun
      end.
      cbv beta iota. destruct ok; cbn [negb]; cbv beta iota.
      * destruct (IH (S executed) (notes ++ [name ++ py " passed."])
                    (after_run s0 cmd cwd 600))
          as (ok' & added & evs & s' & -> & Htr & Hlen & _ & Hcases).
        eexists ok', ([_] ++ added), (EvRun (tick s0) cmd cwd 600 :: evs), s'.
        split; [by rewrite <- (app_assoc notes)|].
        split; [rewrite Htr; cbn; by rewrite <- app_assoc|].
        split; [rewrite length_app; simpl in *; lia|]. split; [done|].
        destruct Hcases as [(-> & Hex & Hall)|[(-> & Hex & _)|(-> & Hfail)]].
        -- left. split; [done|]. split; [simpl; lia|].
           constructor; [by apply Hok | done].
        -- lia.
        -- right. right. split; [done|].
           destruct Hfail
             as (pre & t & name' & cmd' & out' & -> & Hpre & Hno & Hin & Hout & Hl).
           exists (EvRun (tick s0) cmd cwd 600 :: pre), t, name', cmd', out'.
           split; [done|]. split; [constructor; [by apply Hok | done]|].
           split; [done|]. split; [by right|]. split; [done|].
           unfold lastn in *. rewrite length_app.
           assert (2 <= length added)%nat as Hge.
           { destruct (decide (2 <= length added)%nat) as [|Hn]; [done|].
             replace (length added - 2)%nat with 0%nat in Hl by lia.
             rewrite drop_0 in Hl. rewrite Hl in Hn. simpl in Hn. lia. }
           replace (length [name ++ py " passed."] + length added - 2)%nat
             with (length [name ++ py " passed."] + (length added - 2))%nat
             by (simpl; lia).
           by rewrite drop_app_add'.
      * unfold ret.
        eexists false, [_; _], [EvRun (tick s0) cmd cwd 600], _.
        split; [reflexivity|]. split; [done|].
        split; [simpl; lia|]. split; [done|].
        right. right. split; [done|].
        exists [], (tick s0), name, cmd, out. split; [done|].
        split; [constructor|]. split; [|split; [by left|split; [|done]]].
        -- intros Hp. apply Hok in Hp. done.
        -- intros s1 Ht. rewrite (run_cmd_tick w cmd cwd 600 false s1 s0 Ht).
           by rewrite Erun.
    + match goal with |- context [ verify_loop w cwd todo executed ?n ?s1 ] =>
        destruct (IH executed n s1)
          as (ok' & added & evs & s' & -> & Htr & Hlen & _ & Hcases)
      end.
      eexists ok', ([_] ++ added), evs, s'. split; [by rewrite <- (app_assoc notes)|].
      split; [done|]. split; [rewrite length_app; simpl in *; lia|].
      split; [done|].
      destruct Hcases as [?|[(-> & -> & -> & Hl)|(-> & Hfail)]]; [by left| |].
      * right. left. repeat split; try done.
        destruct added as [|a added]; [done|]. by rewrite last_app_cons.
      * right. right. split; [done|].
        destruct Hfail
          as (pre & t & name' & cmd' & out' & -> & Hpre & Hno & Hin & Hout & Hl).
        exists pre, t, name', cmd', out'. split; [done|]. split; [done|].
        split; [done|]. split; [by right|]. split; [done|].
        unfold lastn in *. rewrite length_app.
        assert (2 <= length added)%nat as Hge.
        { destruct (decide (2 <= length added)%nat) as [|Hn]; [done|].
          replace (length added - 2)%nat with 0%nat in Hl by lia.
          rewrite drop_0 in Hl. rewrite Hl in Hn. simpl in Hn. lia. }
        match goal with |- drop (length ?l + _ - 2) _ = _ =>
          replace (length l + length added - 2)%nat
            with (length l + (length added - 2))%nat by (simpl; lia)
        end.
        by rewrite drop_app_add'.
Qed.

End VerifyFacts.


(** X12.  The notes of [_verify] are at least one and at most four, so the
    slice [verify_notes[-8:]] from which the loop builds the feedback for
    the next prompt is the list of all of them. *)
Theorem verify_notes_short (w : World) (cwd : pystr) (s : Sys) :
  exists ok notes s',
    _verify w cwd s = (Done (ok, notes), s') /\
    (1 <= length notes <= 4)%nat /\
    lastn 8 notes = notes.
Proof.
  unfold _verify, bind at 1.
  destruct (verify_loop_verdict w cwd checks 0 [] s)
    as (ok & added & evs & s' & -> & _ & Hlen & Hne & _).
  unfold bind, emit, ret. cbn [fst snd app].
  eexists ok, added, _. split; [reflexivity|].
  assert (1 <= length added <= 4)%nat as Hl.
  { split; [|exact Hlen]. destruct added; [by destruct Hne | simpl; lia]. }
  split; [done|]. unfold lastn.
  replace (length added - 8)%nat with 0%nat by lia. done.
Qed.

Section DevelopFacts.
Variable w : World.
Variable c : Config.

(** The notes of the loop grow, and the last one tells how it ended. *)
Lemma develop_loop_notes fuel req wt deadline notes fb attempt s ok notes' s' :
  develop_loop w fuel req wt deadline notes fb attempt s = (Done (ok, notes'), s') ->
  exists added, notes' = notes ++ added /\ last added = Some (closing_note ok).
Proof.
  revert notes fb attempt s.
  induction fuel as [|fuel IH]; intros notes fb attempt s; [done|].
  cbn [develop_loop]. unfold bind at 1, ask at 1. cbv beta iota.
  destruct (Qlt_le_dec (clock w (tick s)) deadline) as [_|_].
  - unfold bind at 1, ask at 1. cbv beta iota. unfold bind at 1.
    match goal with |- context [ _run_optional_codex w ?p ?d ?t ?s1 ] =>
      destruct (total_codex w p d t s1) as [[cok cout] Hc];
      destruct (_run_optional_codex w p d t s1) as [o s2]
    end.
    simpl in Hc. subst o. cbv beta iota. unfold bind at 1.
    destruct (total_verify w wt s2) as [[vok vnotes] Hv].
    destruct (_verify w wt s2) as [o s3]. simpl in Hv. subst o. cbv beta iota.
    destruct vok.
    + intros [= <- <- <-]. eexists. rewrite <- !app_assoc. split; [reflexivity|].
      by rewrite !app_assoc, last_snoc.
    + intros E. apply IH in E as (added & -> & Hl).
      eexists. rewrite <- !app_assoc. split; [reflexivity|].
      rewrite !app_assoc.
      destruct added as [|a added]; [done|]. by rewrite last_app_cons.
  - intros [= <- <- <-]. by exists [closing_note false].
Qed.

Lemma preserves_sandbox_develop_loop fuel req wt deadline notes fb attempt :
  preserves (runs_in wt) (develop_loop w fuel req wt deadline notes fb attempt).
Proof.
  revert notes fb attempt. induction fuel as [|fuel IH]; intros; simpl.
  - apply preserves_diverge.
  - walk; [walk|]. walk; [|walk]. walk; [walk|].
    walk; [by apply preserves_codex|]. walk.
    walk; [by apply preserves_verify|]. walk. walk; [walk | apply IH].
Qed.

Lemma runs_in_quiet wt evs :
  Forall (runs_in wt) evs ->
  Forall (fun e => ~ is_queue e) evs /\ Forall (fun e => ~ is_log e) evs /\
  Forall (fun e => ~ is_patch e) evs.
Proof.
  intros Hf. repeat split; (eapply Forall_impl; [exact Hf|]);
    intros []; simpl; tauto.
Qed.

End DevelopFacts.

(** X13.  When the clock passes the deadline of the loop,
    [_develop_and_verify] returns, and its last note tells how it ended:
    "Verification passed." with [True], and with [False] the note of the
    timeout, which says 30 minutes whatever [build_timeout_s] is. *)
Theorem develop_closing_note (w : World) (c : Config) (fuel : nat)
    (req : UpgradeRequest) (wt : pystr) (s : Sys) :
  deadline_passes w c fuel ->
  exists ok notes s',
    _develop_and_verify w c (S fuel) req wt s = (Done (ok, notes), s') /\
    last notes = Some (closing_note ok).
Proof.
  intros Hpass.
  destruct (develop_and_verify_returns w c fuel req wt s Hpass)
    as ([ok notes] & s' & E & _).
  exists ok, notes, s'. split; [done|].
  unfold _develop_and_verify, bind at 1, ask at 1 in E. cbv beta iota in E.
  apply develop_loop_notes in E as (added & -> & Hl). done.
Qed.

Lemma develop_closing_note_witness :
  deadline_passes brisk site 2 /\
  exists ok notes s',
    _develop_and_verify brisk site 3 first_req
      (sandbox_of first_req) init_sys = (Done (ok, notes), s') /\
    last notes = Some (closing_note ok).
Proof.
  split; [exact brisk_passes|].
  exact (develop_closing_note brisk site 2 first_req
           (sandbox_of first_req) init_sys brisk_passes).
Defined.

(** X14.  Whatever its fuel and however it ends, [_develop_and_verify]
    runs every command in the work tree it was given, and writes nothing
    to the queue, the task records or the backups; it starts and signals no
    process. *)
Theorem develop_in_sandbox (w : World) (c : Config) (fuel : nat)
    (req : UpgradeRequest) (wt : pystr) (s : Sys) :
  let s' := snd (_develop_and_verify w c fuel req wt s) in
  exists evs,
    trace s' = trace s ++ evs /\ Forall (runs_in wt) evs /\
    queue s' = queue s /\ tasks s' = tasks s /\ backups s' = backups s.
Proof.
  cbv zeta.
  assert (preserves (runs_in wt) (_develop_and_verify w c fuel req wt)) as Hp.
  { unfold _develop_and_verify. walk; [walk | apply preserves_sandbox_develop_loop]. }
  destruct (Hp s) as (_ & evs & (Htr & Hta & Hqu & Hba) & Hevs).
  exists evs. split; [done|]. split; [done|].
  destruct (runs_in_quiet wt evs Hevs) as (Hq & Hl & Hb).
  rewrite Hqu, Hta, Hba.
  by rewrite replay_queue_quiet, replay_tasks_quiet, replay_backups_quiet.
Qed.

(** X15.  When the clock at the first test of the loop has reached the
    deadline (the float sum of the first reading and [build_timeout_s]), as
    it has with a [build_timeout_s] of 0 and a clock that does not run
    backwards, [_develop_and_verify] makes no attempt: it
    runs nothing and returns [False] with the note of the timeout alone. *)
Theorem develop_without_budget (w : World) (c : Config)
    (fuel : nat) (req : UpgradeRequest) (wt : pystr) (s : Sys) :
  (float_round w (clock w (tick s) + inject_Z (build_timeout_s c))
   <= clock w (S (tick s)))%Q ->
  exists s',
    _develop_and_verify w c (S fuel) req wt s
      = (Done (false, [closing_note false]), s') /\
    trace s' = trace s /\ tick s' = S (S (tick s)).
Proof.
  intros Hle. unfold _develop_and_verify, bind at 1, ask at 1. cbv beta iota.
  cbn [develop_loop]. unfold bind at 1, ask at 1. cbv beta iota. cbn [tick].
  destruct (Qlt_le_dec (clock w (S (tick s)))
              (float_round w (clock w (tick s) + inject_Z (build_timeout_s c))))
    as [Hlt|_].
  - by apply Qle_not_lt in Hle.
  - by eexists.
Qed.

Lemma develop_without_budget_witness :
  (float_round calm (clock calm 0 + inject_Z (build_timeout_s no_budget))
   <= clock calm 1)%Q /\
  exists s',
    _develop_and_verify calm no_budget 1 first_req
      (sandbox_of first_req) init_sys
      = (Done (false, [closing_note false]), s') /\
    trace s' = trace init_sys /\ tick s' = 2%nat.
Proof.
  assert (float_round calm
            (clock calm (tick init_sys) + inject_Z (build_timeout_s no_budget))
          <= clock calm (S (tick init_sys)))%Q as Hle by (vm_compute; discriminate).
  split; [exact Hle|].
  exact (develop_without_budget calm no_budget 0 first_req
           (sandbox_of first_req) init_sys Hle).
Defined.

(* ===================================================================== *)
(** ** Further properties: the service *)
(* ===================================================================== *)

Section ServiceFacts.
Variable w : World.
Variable c : Config.

(** [_start_service] from [s]: it raises before anything is started, or
    starts the service under a fresh handle and reports whether it is
    alive after the grace period. *)
Lemma start_service_run s :
  _start_service w c s =
  match fault w (tick s) with
  | Some e => (Raised e, after_ask s)
  | None => (Done (poll_alive w (S (S (tick s))) (S (tick s))), after_start c s)
  end.
Proof.
  unfold _start_service, fallible, bind, ask, emit, set_service_proc, ret, raise.
  cbv beta iota. cbn [tick]. destruct (fault w (tick s)); [reflexivity|].
  unfold after_start. cbn. by rewrite <- app_assoc.
Qed.

Lemma terminate_process_run pid s :
  exists s' evs,
    _terminate_process w pid s = (Done tt, s') /\
    trace s' = trace s ++ evs /\ Forall is_service evs /\
    service_proc s' = service_proc s /\ queue s' = queue s /\
    tasks s' = tasks s /\ backups s' = backups s /\
    evs =
      (if poll_alive w (tick s) pid
       then EvSignal pid 15 ::
            (if killpg_ok w (S (tick s)) && wait_ok w (S (S (tick s)))
             then [] else [EvSignal pid 9])
       else []).
Proof.
  unfold _terminate_process, bind, ask, emit, ret. cbn.
  destruct (poll_alive w (tick s) pid); cbn.
  - destruct (killpg_ok w (S (tick s))); cbn;
      [destruct (wait_ok w (S (S (tick s)))); cbn|];
      eexists _, _; (split; [reflexivity|]); cbn;
      rewrite <- ?app_assoc; (split; [reflexivity|]);
      (split; [repeat constructor|]); by repeat split.
  - eexists _, []. split; [reflexivity|]. cbn. rewrite app_nil_r.
    repeat split. constructor.
Qed.

Lemma stop_service_run s :
  exists s' evs,
    _stop_service w s = (Done tt, s') /\
    trace s' = trace s ++ evs /\ Forall is_service evs /\
    service_proc s' = None /\ queue s' = queue s /\
    tasks s' = tasks s /\ backups s' = backups s /\
    (service_proc s = None -> s' = s).
Proof.
  unfold _stop_service, bind at 1, get. cbv beta iota.
  destruct (service_proc s) as [pid|] eqn:E.
  - unfold bind.
    destruct (terminate_process_run pid s)
      as (s1 & evs & -> & Htr & Hevs & _ & Hq & Ht & Hb & _).
    unfold set_service_proc. eexists _, evs. split; [reflexivity|]. cbn.
    by repeat split.
  - eexists s, []. rewrite app_nil_r. by repeat split.
Qed.

Lemma stop_service_signals s :
  exists s' evs,
    _stop_service w s = (Done tt, s') /\
    trace s' = trace s ++ evs /\ Forall is_signal evs /\
    service_proc s' = None.
Proof.
  unfold _stop_service, bind at 1, get. cbv beta iota.
  destruct (service_proc s) as [pid|] eqn:E.
  - unfold bind.
    destruct (terminate_process_run pid s)
      as (s1 & evs & -> & Htr & _ & _ & _ & _ & _ & Hevs).
    unfold set_service_proc. eexists _, evs. split; [reflexivity|].
    cbn [trace service_proc]. split; [done|]. split; [|done].
    subst evs. destruct (poll_alive w (tick s) pid); [|constructor].
    constructor; [exact I|].
    destruct (killpg_ok w (S (tick s)) && wait_ok w (S (S (tick s))));
      by repeat constructor.
  - exists s, []. rewrite app_nil_r. by repeat split.
Qed.

Lemma terminate_process_signals_only pid s :
  exists s' evs,
    _terminate_process w pid s = (Done tt, s') /\
    trace s' = trace s ++ evs /\ Forall is_signal evs /\
    service_proc s' = service_proc s.
Proof.
  destruct (terminate_process_run pid s)
    as (s1 & evs & E & Htr & _ & Hsp & _ & _ & _ & Hevs).
  exists s1, evs. split; [done|]. split; [done|]. split; [|done].
  subst evs. destruct (poll_alive w (tick s) pid); [|constructor].
  constructor; [exact I|].
  destruct (killpg_ok w (S (tick s)) && wait_ok w (S (S (tick s))));
    by repeat constructor.
Qed.

Lemma ensure_service_running_run s :
  _ensure_service_running w c s =
  match service_proc s with
  | Some pid =>
      if poll_alive w (tick s) pid then (Done tt, after_ask s)
      else (_start_service w c ;; ret tt) (after_ask s)
  | None => (_start_service w c ;; ret tt) s
  end.
Proof.
  unfold _ensure_service_running, bind at 1, get. cbv beta iota.
  destruct (service_proc s) as [pid|]; [|done].
  unfold bind at 1, ask at 1. cbv beta iota.
  by destruct (poll_alive w (tick s) pid).
Qed.

End ServiceFacts.

(** X16.  [_terminate_process] does not raise, whatever [killpg] and
    [wait] do, and leaves the handle of the supervisor alone.  A process
    that has exited gets no signal; one that is alive gets SIGTERM, and
    after it SIGKILL exactly when SIGTERM could not be sent or the process
    did not exit within the wait. *)
Theorem terminate_process_signals (w : World) (pid : nat) (s : Sys) :
  exists s',
    _terminate_process w pid s = (Done tt, s') /\
    service_proc s' = service_proc s /\
    trace s' = trace s ++
      (if poll_alive w (tick s) pid
       then EvSignal pid 15 ::
            (if killpg_ok w (S (tick s)) && wait_ok w (S (S (tick s)))
             then [] else [EvSignal pid 9])
       else []).
Proof.
  destruct (terminate_process_run w pid s)
    as (s' & evs & E & Htr & _ & Hsp & _ & _ & _ & ->).
  by exists s'.
Qed.



(* ===================================================================== *)
(** ** Further properties: deploy, cutover and rollback *)
(* ===================================================================== *)

Lemma run_cmd_ignored {A} w cmd cwd timeout check (k : M A) s :
  (_run_cmd w cmd cwd timeout check ;; k) s = k (after_run s cmd cwd timeout).
Proof.
  unfold bind.
  by destruct (run_cmd_verdict w cmd cwd timeout check s) as (ok & out & -> & _).
Qed.

Lemma bind_cong {A B} (m : M A) (k1 k2 : A -> M B) s :
  (forall a s', k1 a s' = k2 a s') -> bind m k1 s = bind m k2 s.
Proof. intros Hk. unfold bind. destruct (m s) as [[a|e|] s']; auto. Qed.

Lemma write_patch_ok w name data s :
  fault w (tick s) = None ->
  write_patch w name data s =
  (Done tt,
   {| tick := S (tick s); service_proc := service_proc s; queue := queue s;
      tasks := tasks s; backups := <[name := data]> (backups s);
      trace := trace s ++ [EvPatch name data] |}).
Proof.
  intros Hf. unfold write_patch, fallible, bind, ask, get, set_backups, emit, ret.
  cbv beta iota. by rewrite Hf.
Qed.

Section CutoverFacts.
Variable w : World.
Variable c : Config.

(** The ways in which the cutover ends. *)
Lemma cutover_run patch notes s o s' :
  cutover w c patch notes s = (o, s') ->
  let undo t := EvRun t (git_apply_reverse patch) (repo_root c) 120 in
  exists stop1,
    Forall is_signal stop1 /\
    match o with
    | Done (true, notes') =>
        exists pid,
          trace s' = trace s ++ stop1 ++ spawned c pid /\
          service_proc s' = Some pid /\
          notes' = notes ++ [py "New service started successfully; cutover complete."]
    | Done (false, notes') =>
        exists pid1 t stop2 pid2 stop3 verdict,
          trace s' = trace s ++ stop1 ++ spawned c pid1 ++ undo t :: stop2
                       ++ spawned c pid2 ++ stop3 /\
          Forall is_signal stop2 /\ Forall is_signal stop3 /\
          service_proc s' = Some pid2 /\
          notes' = notes ++ [py "New service failed health check; starting rollback.";
                             verdict]
    | Raised e =>
        service_proc s' = None /\
        (trace s' = trace s ++ stop1 \/
         exists pid1 t stop2,
           trace s' = trace s ++ stop1 ++ spawned c pid1 ++ undo t :: stop2 /\
           Forall is_signal stop2)
    | Diverged => False
    end.
Proof.
  cbv zeta. unfold cutover, bind at 1, get. cbv beta iota zeta.
  destruct (stop_service_signals w s) as (s1 & stop1 & E1 & Htr1 & Hstop1 & Hsp1).
  unfold bind at 1. rewrite E1. cbv beta iota.
  unfold bind at 1. rewrite (start_service_run w c s1).
  destruct (fault w (tick s1)) as [e|]; cbv beta iota.
  { intros [= <- <-]. exists stop1. split; [done|]. split; [done | by left]. }
  assert (trace (after_start c s1) = trace s ++ stop1 ++ spawned c (S (tick s1)))
    as Htr2 by (cbn [trace after_start]; rewrite Htr1, <- app_assoc; reflexivity).
  destruct (poll_alive w (S (S (tick s1))) (S (tick s1))); cbv beta iota.
  { intros [= <- <-]. exists stop1. split; [done|]. by exists (S (tick s1)). }
  rewrite run_cmd_ignored.
  set (s3 := after_run (after_start c s1) (git_apply_reverse patch) (repo_root c) 120).
  destruct (stop_service_signals w s3) as (s4 & stop2 & E4 & Htr4 & Hstop2 & Hsp4).
  assert (trace s4 = trace s ++ stop1 ++ spawned c (S (tick s1))
            ++ EvRun (tick (after_start c s1)) (git_apply_reverse patch)
                 (repo_root c) 120 :: stop2) as Htr4'.
  { rewrite Htr4. unfold s3. cbn [trace after_run]. rewrite Htr2, <- !app_assoc.
    reflexivity. }
  unfold bind at 1. rewrite E4. cbv beta iota.
  unfold bind at 1. rewrite (start_service_run w c s4).
  destruct (fault w (tick s4)) as [e|]; cbv beta iota.
  { intros [= <- <-]. exists stop1. split; [done|]. split; [exact Hsp4|].
    right. by eexists _, _, stop2. }
  set (verdict := if poll_alive w (S (S (tick s4))) (S (tick s4))
                  then py "Rollback succeeded; previous service restored."
                  else py "Rollback failed to restore service automatically; manual intervention needed.").
  assert (forall stop3 s6,
    trace s6 = trace (after_start c s4) ++ stop3 -> Forall is_signal stop3 ->
    service_proc s6 = Some (S (tick s4)) ->
    exists pid1 t stop2 pid2 stop3 verdict0,
      trace s6 = trace s ++ stop1 ++ spawned c pid1
                   ++ EvRun t (git_apply_reverse patch) (repo_root c) 120 :: stop2
                   ++ spawned c pid2 ++ stop3 /\
      Forall is_signal stop2 /\ Forall is_signal stop3 /\
      service_proc s6 = Some pid2 /\
      (notes ++ [py "New service failed health check; starting rollback."])
        ++ [verdict]
      = notes ++ [py "New service failed health check; starting rollback.";
                  verdict0]) as Hend.
  { intros stop3 s6 Htr6 Hstop3 Hsp6.
    exists (S (tick s1)), (tick (after_start c s1)), stop2, (S (tick s4)), stop3,
      verdict.
    split; [|split; [done|split; [done|split; [done|by rewrite <- app_assoc]]]].
    rewrite Htr6. cbn [trace after_start]. rewrite Htr4'. unfold spawned.
    rewrite <- ?app_assoc. cbn. rewrite <- ?app_assoc. reflexivity. }
  clearbody verdict.
  destruct (service_proc s) as [pid|].
  - unfold bind at 1, ask. cbv beta iota.
    fold (after_ask (after_start c s4)).
    destruct (poll_alive w (tick (after_start c s4)) pid).
    + destruct (terminate_process_signals_only w pid (after_ask (after_start c s4)))
        as (s6 & stop3 & E6 & Htr6 & Hstop3 & Hsp6).
      unfold bind. rewrite E6. intros [= <- <-]. exists stop1. split; [done|].
      by apply (Hend stop3 s6).
    + unfold bind, ret. intros [= <- <-]. exists stop1. split; [done|].
      apply (Hend [] (after_ask (after_start c s4)));
        [by rewrite app_nil_r | constructor | done].
  - unfold ret. intros [= <- <-]. exists stop1. split; [done|].
    apply (Hend [] (after_start c s4)); [by rewrite app_nil_r | constructor | done].
Qed.

Lemma start_service_world w' :
  same_service_world w w' -> _start_service w c = _start_service w' c.
Proof.
  intros (Hf & Hp & _). unfold _start_service, fallible. by rewrite Hf, Hp.
Qed.

Lemma terminate_process_world w' pid :
  same_service_world w w' -> _terminate_process w pid = _terminate_process w' pid.
Proof.
  intros (_ & Hp & Hk & Hw). unfold _terminate_process. by rewrite Hp, Hk, Hw.
Qed.

Lemma stop_service_world w' :
  same_service_world w w' -> _stop_service w = _stop_service w'.
Proof.
  intros (_ & Hp & Hk & Hw). unfold _stop_service, _terminate_process.
  by rewrite Hp, Hk, Hw.
Qed.

End CutoverFacts.


(** X19.  What the cutover returns and notes, "Rollback succeeded; previous
    service restored." included, does not depend on the result of any
    command: in two worlds that treat the service alike it ends in the same
    way, in the same state, whether [git apply -R] worked or not. *)
Theorem rollback_ignores_reverse_apply (w1 w2 : World) (c : Config)
    (patch : pystr) (notes : list pystr) (s : Sys) :
  same_service_world w1 w2 ->
  cutover w1 c patch notes s = cutover w2 c patch notes s.
Proof.
  intros Hs. pose proof Hs as (_ & Hp & _).
  unfold cutover.
  rewrite (stop_service_world w1 w2 Hs), (start_service_world w1 c w2 Hs), Hp.
  apply bind_cong. intros s0 s1. cbv zeta.
  apply bind_cong. intros [] s2.
  apply bind_cong. intros started s3.
  destruct started; [done|].
  rewrite !run_cmd_ignored.
  apply bind_cong. intros [] s4.
  apply bind_cong. intros started s5.
  destruct (service_proc s0) as [pid|]; [|done].
  apply bind_cong. intros alive s6.
  destruct alive; [|done].
  by rewrite (terminate_process_world w1 w2 pid Hs).
Qed.

Lemma rollback_ignores_reverse_apply_witness :
  same_service_world stillborn stillborn_stuck /\
  cutover stillborn site (py "/ws/upgrades/backups/x-forward.patch") [] init_sys
  = cutover stillborn_stuck site (py "/ws/upgrades/backups/x-forward.patch") []
      init_sys.
Proof.
  assert (same_service_world stillborn stillborn_stuck) as Hs
    by (repeat split).
  split; [exact Hs|].
  exact (rollback_ignores_reverse_apply stillborn stillborn_stuck site
           (py "/ws/upgrades/backups/x-forward.patch") [] init_sys Hs).
Defined.

(** X20.  When [git diff] in the work tree does not complete with exit
    code 0, or prints nothing but whitespace, [_deploy] returns [False]
    having done nothing else: no patch is written, the live tree and the
    service are left alone.  Its note is "No code changes were produced."
    exactly when the command had completed with exit code 0. *)
Theorem deploy_without_changes `{Unicode} (w : World) (c : Config)
    (req : UpgradeRequest) (wt : pystr) (s : Sys) :
  let cmd := [py "git"; py "diff"; py "--binary"; py "HEAD"] in
  (forall out err,
     subprocess_run w (tick s) cmd wt 120 = Completed 0 out err ->
     whitespace (output_of out err)) ->
  exists notes,
    _deploy w c req wt s = (Done (false, notes), after_run s cmd wt 120) /\
    (notes = [py "No code changes were produced."]
     <-> run_passed w (EvRun (tick s) cmd wt 120)).
Proof.
  cbv zeta. intros Hblank. unfold _deploy, bind at 1, run_passed.
  destruct (subprocess_run w (tick s)
              [py "git"; py "diff"; py "--binary"; py "HEAD"] wt 120)
    as [rc out err| |e] eqn:E.
  - rewrite (run_cmd_completed w _ _ _ _ s rc out err E). cbn [andb].
    destruct (Z.eqb_spec rc 0) as [->|Hrc]; cbv beta iota; cbn [negb].
    + assert (strip (output_of out err) = []) as ->
        by (by apply strip_nil, Hblank).
      cbn [nonempty negb]. eexists. split; [reflexivity|].
      split; [by eexists _, _ | done].
    + eexists. split; [reflexivity|].
      split; [done | intros (? & ? & [=]); done].
  - destruct (run_cmd_not_completed w
                [py "git"; py "diff"; py "--binary"; py "HEAD"] wt 120 false s)
      as (o & ->); [intros; by rewrite E|].
    cbv beta iota. cbn [negb]. eexists. split; [reflexivity|].
    split; [done | intros (? & ? & [=])].
  - destruct (run_cmd_not_completed w
                [py "git"; py "diff"; py "--binary"; py "HEAD"] wt 120 false s)
      as (o & ->); [intros; by rewrite E|].
    cbv beta iota. cbn [negb]. eexists. split; [reflexivity|].
    split; [done | intros (? & ? & [=])].
Qed.

Lemma deploy_without_changes_witness :
  (forall out err,
     subprocess_run calm (tick init_sys)
       [py "git"; py "diff"; py "--binary"; py "HEAD"] (sandbox_of first_req) 120
     = Completed 0 out err ->
     whitespace (H := ucd_fragment) (output_of out err)) /\
  exists notes,
    _deploy (H := ucd_fragment) calm site first_req (sandbox_of first_req) init_sys
    = (Done (false, notes),
       after_run init_sys [py "git"; py "diff"; py "--binary"; py "HEAD"]
         (sandbox_of first_req) 120) /\
    (notes = [py "No code changes were produced."]
     <-> run_passed calm
           (EvRun (tick init_sys) [py "git"; py "diff"; py "--binary"; py "HEAD"]
              (sandbox_of first_req) 120)).
Proof.
  assert (forall out err,
     subprocess_run calm (tick init_sys)
       [py "git"; py "diff"; py "--binary"; py "HEAD"] (sandbox_of first_req) 120
     = Completed 0 out err ->
     whitespace (H := ucd_fragment) (output_of out err)) as Hblank
    by (intros out err [= <- <-]; constructor).
  split; [exact Hblank|].
  exact (deploy_without_changes (H := ucd_fragment) calm site first_req
           (sandbox_of first_req) init_sys Hblank).
Defined.

(** X21.  When the candidate patch does not apply to the live tree,
    [_deploy] returns [False] with the forward patch left in the backups
    and the service untouched: it ran [git diff] and [git apply] and wrote
    the one patch, no more.  The patch is the output of [git diff] as
    [_run_cmd] gives it, standard error included, and the note of the
    saved patch is not among the notes returned. *)
Theorem deploy_apply_fails `{Unicode} (w : World) (c : Config)
    (req : UpgradeRequest) (wt : pystr) (s : Sys) (out err : pystr) :
  let diff_cmd := [py "git"; py "diff"; py "--binary"; py "HEAD"] in
  let patch := path_join (backups_dir c) (forward_name req) in
  subprocess_run w (tick s) diff_cmd wt 120 = Completed 0 out err ->
  ~ whitespace (output_of out err) ->
  fault w (S (tick s)) = None ->
  ~ run_passed w (EvRun (S (S (tick s))) (git_apply patch) (repo_root c) 120) ->
  exists detail s',
    _deploy w c req wt s
    = (Done (false, [py "Failed to apply candidate patch to live repo."; detail]),
       s') /\
    trace s' = trace s ++
      [EvRun (tick s) diff_cmd wt 120;
       EvPatch (forward_name req) (output_of out err);
       EvRun (S (S (tick s))) (git_apply patch) (repo_root c) 120] /\
    backups s' = <[forward_name req := output_of out err]> (backups s) /\
    service_proc s' = service_proc s.
Proof.
  cbv zeta. intros E Hnw Hf Hfail. unfold _deploy, bind at 1.
  rewrite (run_cmd_completed w _ _ _ _ s 0 out err E).
  cbn [andb Z.eqb negb]. cbv beta iota.
  destruct (strip (output_of out err)) as [|ch rest] eqn:Es.
  { destruct Hnw. by apply strip_nil. }
  cbn [nonempty negb]. cbv iota. unfold bind at 1.
  rewrite write_patch_ok by exact Hf. cbv beta iota. unfold bind at 1.
  match goal with |- context [ _run_cmd w ?a ?b ?t ?k ?s2 ] =>
    destruct (run_cmd_verdict w a b t k s2) as (ok & detail & -> & Hok)
  end.
  cbn [tick after_run] in Hok.
  destruct ok; [destruct Hfail; by apply Hok|].
  cbv beta iota. cbn [negb]. eexists _, _. split; [reflexivity|].
  cbn. rewrite <- !app_assoc. by repeat split.
Qed.

Lemma deploy_apply_fails_witness :
  ~ whitespace (H := ucd_fragment)
      (output_of (py "diff --git a/nanobot/x.py b/nanobot/x.py") []) /\
  exists detail s',
    _deploy (H := ucd_fragment) conflict site first_req (sandbox_of first_req)
      init_sys
    = (Done (false, [py "Failed to apply candidate patch to live repo."; detail]),
       s') /\
    backups s'
    = <[forward_name first_req :=
          output_of (py "diff --git a/nanobot/x.py b/nanobot/x.py") []]>
        (backups init_sys).
Proof.
  assert (~ whitespace (H := ucd_fragment)
            (output_of (py "diff --git a/nanobot/x.py b/nanobot/x.py") [])) as Hnw.
  { intros Hw. apply Forall_inv in Hw. vm_compute in Hw. discriminate. }
  split; [exact Hnw|].
  assert (~ run_passed conflict
            (EvRun 2 (git_apply (path_join (backups_dir site) (forward_name first_req)))
               (repo_root site) 120)) as Hfail.
  { intros (o & e & Hr). vm_compute in Hr. discriminate. }
  destruct (deploy_apply_fails (H := ucd_fragment) conflict site first_req
              (sandbox_of first_req) init_sys
              (py "diff --git a/nanobot/x.py b/nanobot/x.py") []
              eq_refl Hnw eq_refl Hfail) as (detail & s' & E & _ & Hb & _).
  by exists detail, s'.
Defined.

(* ===================================================================== *)
(** ** Further properties: one task, the loop of the supervisor, status *)
(* ===================================================================== *)

Lemma name_le_refl a : name_le a a.
Proof. unfold name_le, pystr_leb. by rewrite pystr_compare_refl. Qed.

Lemma sorted_head_least x l y :
  StronglySorted name_le (x :: l) -> y ∈ x :: l -> name_le x y.
Proof.
  intros Hs Hy. apply StronglySorted_inv in Hs as [_ Hall].
  apply elem_of_cons in Hy as [->|Hy]; [apply name_le_refl|].
  rewrite Forall_forall in Hall. by apply Hall.
Qed.





(** X24.  When the service is down and cannot be started, an iteration of
    the loop of [run_forever] raises the error of the start, which no
    handler catches: the supervisor stops, and a pending request is neither
    served nor marked. *)
Theorem run_forever_start_fault `{Unicode} (w : World) (c : Config)
    (fuel : nat) (poll_interval_s : Z) (n : nat) (s : Sys) (e : pystr) :
  service_down w s ->
  fault w (restart_tick s) = Some e ->
  exists s',
    run_forever_loop w c fuel poll_interval_s (S n) s = (Raised e, s') /\
    run_forever w c fuel poll_interval_s n s = (Raised e, s') /\
    trace s' = trace s /\ queue s' = queue s /\ tasks s' = tasks s /\
    list_pending s' = list_pending s.
Proof.
  unfold service_down, restart_tick. intros Hdown Hf.
  assert (exists s',
    _ensure_service_running w c s = (Raised e, s') /\
    trace s' = trace s /\ queue s' = queue s /\ tasks s' = tasks s)
    as (s' & E & Htr & Hq & Ht).
  { rewrite ensure_service_running_run.
    destruct (service_proc s) as [pid|].
    - rewrite Hdown. unfold bind. rewrite start_service_run.
      cbn [tick after_ask]. rewrite Hf. by eexists.
    - unfold bind. rewrite start_service_run, Hf. by eexists. }
  exists s'. split; [|split].
  - cbn [run_forever_loop]. unfold bind at 1. by rewrite E.
  - unfold run_forever, bind at 1. by rewrite E.
  - split; [done|]. split; [done|]. split; [done|].
    by apply list_pending_queue.
Qed.

Lemma run_forever_start_fault_witness :
  service_down full_disk one_pending /\
  fault full_disk (restart_tick one_pending)
  = Some (py "[Errno 28] No space left on device") /\
  exists s',
    run_forever_loop (H := ucd_fragment) full_disk site 3 3 1 one_pending
    = (Raised (py "[Errno 28] No space left on device"), s') /\
    run_forever (H := ucd_fragment) full_disk site 3 3 0 one_pending
    = (Raised (py "[Errno 28] No space left on device"), s') /\
    trace s' = trace one_pending /\ queue s' = queue one_pending /\
    tasks s' = tasks one_pending /\
    list_pending s' = list_pending one_pending.
Proof.
  assert (service_down full_disk one_pending) as Hdown by exact I.
  assert (fault full_disk (restart_tick one_pending)
          = Some (py "[Errno 28] No space left on device")) as Hf by reflexivity.
  split; [exact Hdown|]. split; [exact Hf|].
  exact (run_forever_start_fault (H := ucd_fragment) full_disk site 3 3 0
           one_pending _ Hdown Hf).
Defined.

(** X25.  [status] changes nothing in the store and sends nothing.  Its
    count is the number of pending requests.  What it calls the latest
    pending request is the first name of the sorted list of pending
    requests: none when nothing is pending, and otherwise the pending
    request with the least name, the next to be served.  It reports the
    service as running exactly when the supervisor holds a handle of a
    process that is alive. *)
Theorem status_snapshot (w : World) (c : Config) (s : Sys) :
  exists st s',
    status w c s = (Done st, s') /\
    trace s' = trace s /\ queue s' = queue s /\ tasks s' = tasks s /\
    backups s' = backups s /\ service_proc s' = service_proc s /\
    pending_tasks st = length (list_pending s) /\
    latest_pending st = head (list_pending s) /\
    (latest_pending st = None <-> list_pending s = []) /\
    (forall name, latest_pending st = Some name ->
       name ∈ list_pending s /\
       forall other, other ∈ list_pending s -> name_le name other) /\
    (service_running st = true <->
     exists pid, service_proc s = Some pid /\ poll_alive w (tick s) pid = true).
Proof.
  assert (forall name, head (list_pending s) = Some name ->
    name ∈ list_pending s /\
    forall other, other ∈ list_pending s -> name_le name other) as Hhead.
  { intros name Hh. pose proof (sorted_sorted
      (List.filter (ends_with (py ".json")) (map fst (map_to_list (queue s)))))
      as Hs.
    fold (list_pending s) in Hs.
    destruct (list_pending s) as [|x l]; [done|]. injection Hh as ->.
    split; [left|]. intros other. by apply sorted_head_least. }
  unfold status, bind at 1, get. cbv beta iota zeta.
  destruct (service_proc s) as [pid|] eqn:E.
  - unfold bind, ask, ret. cbv beta iota.
    eexists _, _. split; [reflexivity|]. cbn.
    repeat split; try done.
    + by destruct (list_pending s).
    + by intros ->.
    + by apply Hhead.
    + by apply Hhead.
    + intros Ha. by exists pid.
    + by intros (pid' & [= <-] & Ha).
  - unfold bind, ret. cbv beta iota.
    eexists _, _. split; [reflexivity|]. cbn.
    repeat split; try done.
    + by destruct (list_pending s).
    + by intros ->.
    + by apply Hhead.
    + by apply Hhead.
    + by intros (pid' & [=] & _).
Qed.

(* ===================================================================== *)
(** ** Further properties: what a record of SUCCESS stands for *)
(* ===================================================================== *)

Section SuccessFacts.
Context `{Unicode}.
Variable w : World.
Variable c : Config.

(** The loop returns [True] right after a verification that passed. *)
Lemma develop_loop_passed fuel req wt deadline notes fb attempt s notes' s' :
  develop_loop w fuel req wt deadline notes fb attempt s = (Done (true, notes'), s') ->
  exists evs vnotes, trace s' = trace s ++ evs ++ [EvVerified true vnotes].
Proof.
  revert notes fb attempt s.
  induction fuel as [|fuel IH]; intros notes fb attempt s; [done|].
  destruct (Qlt_le_dec (clock w (tick s)) deadline) as [Hlt|Hle].
  - destruct (develop_loop_turn w fuel req wt deadline notes fb attempt s Hlt)
      as (runs & evs & ok & vn & n' & s0 & s1 & Htr & _ & _ & _ & _ & ->).
    cbv zeta in Htr. destruct ok.
    + intros [= <- <-]. eexists (_ :: runs ++ evs), vn.
      rewrite Htr. cbn. by rewrite <- !app_assoc.
    + intros E. apply IH in E as (evs' & vn' & Htr').
      eexists ((_ :: runs ++ evs ++ [EvVerified false vn]) ++ evs'), vn'.
      rewrite Htr', Htr, <- !app_assoc. reflexivity.
  - destruct (develop_loop_over w fuel req wt deadline notes fb attempt s Hle)
      as (n' & s1 & -> & _). done.
Qed.

Lemma develop_and_verify_passed fuel req wt s notes s' :
  _develop_and_verify w c fuel req wt s = (Done (true, notes), s') ->
  exists evs vnotes, trace s' = trace s ++ evs ++ [EvVerified true vnotes].
Proof.
  unfold _develop_and_verify, bind at 1, ask at 1. cbv beta iota.
  intros E. by apply develop_loop_passed in E.
Qed.

Lemma service_no_apply evs : Forall is_service evs -> Forall no_apply evs.
Proof. intros Hf. eapply Forall_impl; [exact Hf|]. by intros []. Qed.

Lemma capture_rollback_run req notes s o s' :
  capture_rollback w c req notes s = (o, s') ->
  exists evs, trace s' = trace s ++ evs /\ Forall no_apply evs.
Proof.
  unfold capture_rollback, bind at 1.
  match goal with |- context [ _run_cmd w ?a ?b ?t ?k s ] =>
    destruct (run_cmd_verdict w a b t k s) as (ok & reverse & -> & _)
  end.
  cbv beta iota.
  assert (no_apply (EvRun (tick s)
            [py "git"; py "diff"; py "--binary"; py "--cached"] (repo_root c) 120))
    as Hdiff by (intros Hx; vm_compute in Hx; discriminate).
  destruct (ok && nonempty (strip reverse)).
  - unfold bind at 1.
    match goal with |- context [ write_patch w ?n ?d ?s1 ] =>
      pose proof (write_patch_run w n d s1) as Hwp;
      destruct (fault w (tick s1))
    end.
    + destruct Hwp as (s2 & -> & Htr). intros [= <- <-].
      eexists [_]. rewrite Htr. split; [reflexivity|]. by repeat constructor.
    + destruct Hwp as (s2 & -> & Htr & _). unfold ret. intros [= <- <-].
      eexists [_; _]. rewrite Htr. cbn. rewrite <- app_assoc.
      split; [reflexivity|]. by repeat constructor.
  - unfold ret. intros [= <- <-]. eexists [_]. split; [reflexivity|].
    by repeat constructor.
Qed.

(** [_deploy] returns [True] only by the whole way: patch saved, patch
    applied, service started and alive. *)
Lemma deploy_passed req wt s notes s' :
  _deploy w c req wt s = (Done (true, notes), s') ->
  let patch := path_join (backups_dir c) (forward_name req) in
  exists d t rest,
    trace s' = trace s ++
      [EvRun (tick s) [py "git"; py "diff"; py "--binary"; py "HEAD"] wt 120;
       EvPatch (forward_name req) d;
       EvRun t (git_apply patch) (repo_root c) 120] ++ rest /\
    ~ whitespace d /\
    run_passed w (EvRun t (git_apply patch) (repo_root c) 120) /\
    Forall no_apply rest /\
    is_Some (service_proc s').
Proof.
  cbv zeta. unfold _deploy, bind at 1.
  match goal with |- context [ _run_cmd w ?a ?b ?t ?k s ] =>
    destruct (run_cmd_verdict w a b t k s) as (ok & diff & -> & _)
  end.
  cbv beta iota. destruct ok; cbn [negb]; [|done].
  destruct (strip diff) as [|ch dirty] eqn:Es; cbn [nonempty negb]; [done|].
  cbv iota. unfold bind at 1.
  match goal with |- context [ write_patch w ?n ?d ?s1 ] =>
    pose proof (write_patch_run w n d s1) as Hwp;
    destruct (fault w (tick s1))
  end.
  { by destruct Hwp as (s2 & -> & _). }
  destruct Hwp as (s2 & -> & Htr2 & Hti2). cbv beta iota. unfold bind at 1.
  match goal with |- context [ _run_cmd w ?a ?b ?t ?k s2 ] =>
    destruct (run_cmd_verdict w a b t k s2) as (ok & out & -> & Hok)
  end.
  cbv beta iota. destruct ok; cbn [negb]; [|done].
  unfold bind at 1.
  destruct (capture_rollback w c req
              [py "Saved candidate patch: "
               ++ path_join (backups_dir c) (forward_name req)]
              (after_run s2 (git_apply (path_join (backups_dir c) (forward_name req)))
                 (repo_root c) 120)) as [[notes4|e|] s4] eqn:E4; [|done|done].
  apply capture_rollback_run in E4 as (evs4 & Htr4 & Hevs4).
  intros E5.
  apply cutover_run in E5 as (stop1 & Hstop1 & pid & Htr5 & Hsp & _).
  exists diff, (tick s2), (evs4 ++ stop1 ++ spawned c pid).
  split; [|split; [|split; [by apply Hok|split; [|by eexists]]]].
  - rewrite Htr5, Htr4. cbn [trace after_run]. rewrite Htr2.
    cbn [trace after_run]. cbn. by rewrite <- !app_assoc.
  - intros Hw. apply strip_nil in Hw. by rewrite Hw in Es.
  - apply Forall_app. split; [done|]. apply Forall_app. split.
    + eapply Forall_impl; [exact Hstop1|]. by intros [].
    + by repeat constructor.
Qed.

End SuccessFacts.

(** X26.  A record of SUCCESS is earned.  When [_process] has returned and
    the record of the task says SUCCESS, then in this run a verification
    passed, right after it the candidate patch was exported and saved and
    [git apply] of it on the live tree completed with exit code 0, no other
    [git apply], forward or reverse, followed, and the supervisor holds the
    handle of a service. *)
Theorem success_is_earned `{Unicode} (w : World) (c : Config) (fuel : nat)
    (req : UpgradeRequest) (s s' : Sys) :
  _process w c fuel req s = (Done tt, s') ->
  (md_status <$> tasks s' !! task_name req) = Some (py "SUCCESS") ->
  let patch := path_join (backups_dir c) (forward_name req) in
  exists pre vnotes t0 d t rest,
    trace s' = trace s ++ pre ++
      [EvVerified true vnotes;
       EvRun t0 [py "git"; py "diff"; py "--binary"; py "HEAD"]
         (path_join (worktrees_dir c) (req_id req)) 120;
       EvPatch (forward_name req) d;
       EvRun t (git_apply patch) (repo_root c) 120] ++ rest /\
    ~ whitespace d /\
    run_passed w (EvRun t (git_apply patch) (repo_root c) 120) /\
    Forall no_apply rest /\
    is_Some (service_proc s').
Proof.
  cbv zeta. unfold _process.
  assert (py "REJECTED" <> py "SUCCESS") as Hrej
    by (intros Hx; vm_compute in Hx; discriminate).
  assert (py "FAILED" <> py "SUCCESS") as Hfail
    by (intros Hx; vm_compute in Hx; discriminate).
  destruct (bool_decide (req_scope req = py "core")); cbn [negb].
  2:{ rewrite write_task_md_run. intros [= <-]. cbn [tasks].
      rewrite lookup_insert_eq. by intros [= Hx]. }
  unfold bind at 1.
  destruct (repo_is_clean_run w c s) as (clean & detail & -> & _).
  cbv beta iota. destruct clean; cbn [negb].
  2:{ rewrite write_task_md_run. intros [= <-]. cbn [tasks].
      rewrite lookup_insert_eq. by intros [= Hx]. }
  unfold bind at 1. rewrite write_task_md_run. cbv beta iota.
  rewrite run_cmd_ignored. unfold try_finally, bind at 1.
  match goal with |- context [ _develop_and_verify w c fuel req ?wt ?s3 ] =>
    set (s2 := s3);
    destruct (_develop_and_verify w c fuel req wt s2)
      as [[[ok notes]|e|] s4] eqn:Ed
  end; cbv beta iota.
  - destruct ok; cbn [negb].
    + unfold bind at 1.
      destruct (_deploy w c req (path_join (worktrees_dir c) (req_id req)) s4)
        as [[[dok dn]|e|] s5] eqn:Edp; cbv beta iota.
      * rewrite write_task_md_run, run_cmd_ignored. unfold ret.
        intros [= <-]. cbn [tasks after_run]. rewrite lookup_insert_eq.
        cbn [fmap option_fmap option_map md_status].
        destruct dok; [intros _ | by intros [= Hx]].
        apply develop_and_verify_passed in Ed as (evs1 & vn & Htr1).
        apply deploy_passed in Edp as (d & t & rest & Htr5 & Hd & Hrun & Hrest & Hsp).
        cbn [trace after_run service_proc]. rewrite Htr5, Htr1. unfold s2.
        cbn [trace after_run]. rewrite <- !app_assoc.
        eexists (_ :: _ :: _ :: evs1), vn, (tick s4), d, t, (rest ++ [_; _]).
        split; [reflexivity|]. split; [done|]. split; [done|]. split; [|done].
        apply Forall_app. split; [done|].
        constructor; [exact I|]. constructor; [|constructor].
        intros Hx. vm_compute in Hx. discriminate.
      * rewrite run_cmd_ignored. by unfold ret.
      * done.
    + rewrite write_task_md_run, run_cmd_ignored. unfold ret.
      intros [= <-]. cbn [tasks after_run]. rewrite lookup_insert_eq.
      by intros [= Hx].
  - rewrite run_cmd_ignored. by unfold ret.
  - done.
Qed.

Lemma success_is_earned_witness :
  let s' := snd (_process (H := ucd_fragment) shipping site 3 first_req init_sys) in
  _process (H := ucd_fragment) shipping site 3 first_req init_sys = (Done tt, s') /\
  (md_status <$> tasks s' !! task_name first_req) = Some (py "SUCCESS") /\
  exists pre vnotes t0 d t rest,
    trace s' = trace init_sys ++ pre ++
      [EvVerified true vnotes;
       EvRun t0 [py "git"; py "diff"; py "--binary"; py "HEAD"]
         (path_join (worktrees_dir site) (req_id first_req)) 120;
       EvPatch (forward_name first_req) d;
       EvRun t (git_apply (path_join (backups_dir site) (forward_name first_req)))
         (repo_root site) 120] ++ rest /\
    ~ whitespace (H := ucd_fragment) d /\
    run_passed shipping
      (EvRun t (git_apply (path_join (backups_dir site) (forward_name first_req)))
         (repo_root site) 120) /\
    Forall no_apply rest /\
    is_Some (service_proc s').
Proof.
  cbv zeta.
  assert (_process (H := ucd_fragment) shipping site 3 first_req init_sys
          = (Done tt,
             snd (_process (H := ucd_fragment) shipping site 3 first_req init_sys)))
    as E by (vm_compute; reflexivity).
  assert ((md_status <$>
             tasks (snd (_process (H := ucd_fragment) shipping site 3 first_req
                           init_sys)) !! task_name first_req)
          = Some (py "SUCCESS")) as Hmd by (vm_compute; reflexivity).
  split; [exact E|]. split; [exact Hmd|].
  exact (success_is_earned (H := ucd_fragment) shipping site 3 first_req init_sys
           _ E Hmd).
Defined.

(* ===================================================================== *)
(** ** The two patches of a deploy *)
(* ===================================================================== *)

Section PatchFacts.
Context `{Unicode}.
Variable w : World.
Variable c : Config.

Lemma write_patch_fault name data s e :
  fault w (tick s) = Some e ->
  write_patch w name data s = (Raised e, after_ask s).
Proof.
  intros Hf. unfold write_patch, fallible, bind, ask, raise. cbv beta iota.
  by rewrite Hf.
Qed.

Lemma preserves_cutover_no_patch patch notes :
  preserves (fun e => is_cmd e \/ is_service e) (cutover w c patch notes).
Proof.
  unfold cutover. walk; [walk|].
  walk; [weaken_with (preserves_stop_service w)|].
  walk; [weaken_with (preserves_start_service w c)|].
  walk; [walk|].
  walk; [apply preserves_run_cmd; simpl; tauto|].
  walk; [weaken_with (preserves_stop_service w)|].
  walk; [weaken_with (preserves_start_service w c)|].
  walk; [|walk]. walk; [walk|]. walk; [|walk].
  walk; [weaken_with (preserves_terminate_process w n) | walk].
Qed.

(** The events of [_deploy], step by step. *)
Lemma deploy_events req wt s :
  let patch := path_join (backups_dir c) (forward_name req) in
  let export_cmd := [py "git"; py "diff"; py "--binary"; py "HEAD"] in
  let staged_cmd := [py "git"; py "diff"; py "--binary"; py "--cached"] in
  let export := EvRun (tick s) export_cmd wt 120 in
  let apply := EvRun (S (S (tick s))) (git_apply patch) (repo_root c) 120 in
  let staged := EvRun (S (S (S (tick s)))) staged_cmd (repo_root c) 120 in
  exists evs,
    trace (snd (_deploy w c req wt s)) = trace s ++ evs /\
    (evs = [export] \/
     exists out err,
       subprocess_run w (tick s) export_cmd wt 120 = Completed 0 out err /\
       let saved := EvPatch (forward_name req) (output_of out err) in
       (evs = [export; saved; apply] /\ ~ run_passed w apply \/
        run_passed w apply /\
        exists rest,
          Forall (fun e => is_cmd e \/ is_service e) rest /\
          (evs = export :: saved :: apply :: staged :: rest \/
           exists out' err',
             subprocess_run w (S (S (S (tick s)))) staged_cmd (repo_root c) 120
               = Completed 0 out' err' /\
             ~ whitespace (output_of out' err') /\
             evs = export :: saved :: apply :: staged
                   :: EvPatch (rollback_name req) (output_of out' err') :: rest))).
Proof.
  cbv zeta. unfold _deploy, bind at 1.
  destruct (subprocess_run w (tick s)
              [py "git"; py "diff"; py "--binary"; py "HEAD"] wt 120)
    as [rc out err| |e] eqn:E.
  2,3: destruct (run_cmd_not_completed w
                   [py "git"; py "diff"; py "--binary"; py "HEAD"] wt 120 false s)
         as (o & ->); [intros; by rewrite E|];
       cbv beta iota; cbn [negb]; eexists; split; [reflexivity | by left].
  rewrite (run_cmd_completed w _ _ _ _ s rc out err E). cbn [andb].
  destruct (Z.eqb_spec rc 0) as [->|Hrc]; cbv beta iota; cbn [negb];
    [|eexists; split; [reflexivity | by left]].
  destruct (strip (output_of out err)) as [|ch dirty] eqn:Es;
    cbn [nonempty negb]; cbv iota;
    [eexists; split; [reflexivity | by left]|].
  unfold bind at 1.
  destruct (fault w (S (tick s))) as [e|] eqn:Ef.
  { erewrite write_patch_fault by exact Ef. cbn [snd trace after_ask].
    eexists. split; [reflexivity | by left]. }
  rewrite write_patch_ok by exact Ef. cbv beta iota. unfold bind at 1.
  match goal with |- context [ _run_cmd w ?a ?b ?t ?k ?s2 ] =>
    destruct (run_cmd_verdict w a b t k s2) as (ok & text & -> & Hok)
  end.
  cbn [tick after_run] in Hok. cbv beta iota. destruct ok; cbn [negb].
  2:{ eexists. split; [cbn; rewrite <- !app_assoc; reflexivity|].
      right. exists out, err. split; [done|]. left. split; [done|].
      intros Hp. by apply Hok in Hp. }
  unfold capture_rollback, bind at 1 2.
  destruct (subprocess_run w (S (S (S (tick s))))
              [py "git"; py "diff"; py "--binary"; py "--cached"] (repo_root c) 120)
    as [rc' out' err'| |e'] eqn:E'.
  - erewrite (run_cmd_completed w _ _ _ _ _ rc' out' err') by exact E'.
    cbn [andb]. cbv beta iota.
    destruct (Z.eqb_spec rc' 0) as [->|Hrc'];
      [destruct (strip (output_of out' err')) as [|ch' dirty'] eqn:Es'|];
      cbn [nonempty andb]; cbv iota.
    + unfold ret at 1.
      match goal with |- context [ cutover w c ?p ?n ?s4 ] =>
        pose proof (preserves_cutover_no_patch p n s4)
          as (_ & rest & (Htr & _) & Hrest)
      end.
      eexists. split; [rewrite Htr; cbn; rewrite <- !app_assoc; reflexivity|].
      right. exists out, err. split; [done|]. right. split; [by apply Hok|].
      exists rest. split; [done | by left].
    + unfold bind at 1.
      destruct (fault w (S (S (S (S (tick s)))))) as [e|] eqn:Ef'.
      * erewrite write_patch_fault by exact Ef'.
        eexists. split; [cbn; rewrite <- !app_assoc; reflexivity|].
        right. exists out, err. split; [done|]. right. split; [by apply Hok|].
        exists []. split; [constructor | by left].
      * rewrite write_patch_ok by exact Ef'. cbv beta iota. unfold ret at 1.
        match goal with |- context [ cutover w c ?p ?n ?s4 ] =>
          pose proof (preserves_cutover_no_patch p n s4)
            as (_ & rest & (Htr & _) & Hrest)
        end.
        eexists. split; [rewrite Htr; cbn; rewrite <- !app_assoc; reflexivity|].
        right. exists out, err. split; [done|]. right. split; [by apply Hok|].
        exists rest. split; [done|]. right. exists out', err'.
        split; [done|]. split; [|done].
        intros Hw. apply strip_nil in Hw. by rewrite Hw in Es'.
    + unfold ret at 1.
      match goal with |- context [ cutover w c ?p ?n ?s4 ] =>
        pose proof (preserves_cutover_no_patch p n s4)
          as (_ & rest & (Htr & _) & Hrest)
      end.
      eexists. split; [rewrite Htr; cbn; rewrite <- !app_assoc; reflexivity|].
      right. exists out, err. split; [done|]. right. split; [by apply Hok|].
      exists rest. split; [done | by left].
  - match goal with |- context [ _run_cmd w ?a ?b ?t ?k ?s3 ] =>
      destruct (run_cmd_not_completed w a b t k s3) as (o & ->);
        [intros; cbn [tick after_run]; by rewrite E'|]
    end.
    cbv beta iota. cbn [andb]. unfold ret at 1.
    match goal with |- context [ cutover w c ?p ?n ?s4 ] =>
      pose proof (preserves_cutover_no_patch p n s4)
        as (_ & rest & (Htr & _) & Hrest)
    end.
    eexists. split; [rewrite Htr; cbn; rewrite <- !app_assoc; reflexivity|].
    right. exists out, err. split; [done|]. right. split; [by apply Hok|].
    exists rest. split; [done | by left].
  - match goal with |- context [ _run_cmd w ?a ?b ?t ?k ?s3 ] =>
      destruct (run_cmd_not_completed w a b t k s3) as (o & ->);
        [intros; cbn [tick after_run]; by rewrite E'|]
    end.
    cbv beta iota. cbn [andb]. unfold ret at 1.
    match goal with |- context [ cutover w c ?p ?n ?s4 ] =>
      pose proof (preserves_cutover_no_patch p n s4)
        as (_ & rest & (Htr & _) & Hrest)
    end.
    eexists. split; [rewrite Htr; cbn; rewrite <- !app_assoc; reflexivity|].
    right. exists out, err. split; [done|]. right. split; [by apply Hok|].
    exists rest. split; [done | by left].
Qed.

End PatchFacts.

(** C3, as the code has it.  In [_deploy] the forward patch is in the
    backups before any [git apply] changes the live tree.  The rollback
    patch is written only after [git apply] of the forward patch has
    completed with exit code 0 and [git diff --binary --cached] has then
    been run on the live tree, and what is written is the output of that
    command. *)
Theorem forward_patch_before_apply `{Unicode} (w : World) (c : Config)
    (req : UpgradeRequest) (wt : pystr) (s : Sys) :
  let patch := path_join (backups_dir c) (forward_name req) in
  let staged_cmd := [py "git"; py "diff"; py "--binary"; py "--cached"] in
  exists evs,
    trace (snd (_deploy w c req wt s)) = trace s ++ evs /\
    (forall j t cmd cwd timeout,
       evs !! j = Some (EvRun t cmd cwd timeout) -> is_git_apply cmd ->
       exists i d, (i < j)%nat /\ evs !! i = Some (EvPatch (forward_name req) d)) /\
    (forall j d,
       evs !! j = Some (EvPatch (rollback_name req) d) ->
       exists i k ta ts out err,
         (i < k < j)%nat /\
         evs !! i = Some (EvRun ta (git_apply patch) (repo_root c) 120) /\
         run_passed w (EvRun ta (git_apply patch) (repo_root c) 120) /\
         evs !! k = Some (EvRun ts staged_cmd (repo_root c) 120) /\
         subprocess_run w ts staged_cmd (repo_root c) 120 = Completed 0 out err /\
         d = output_of out err /\ ~ whitespace d).
Proof.
  cbv zeta. destruct (deploy_events w c req wt s) as (evs & Htr & Hshape).
  cbv zeta in Hshape. exists evs. split; [exact Htr|].
  assert (forall rest : list event, Forall (fun e => is_cmd e \/ is_service e) rest ->
    forall j n d, rest !! j = Some (EvPatch n d) -> False) as Hnopatch.
  { intros rest Hrest j n d Hj. rewrite Forall_forall in Hrest.
    apply list_elem_of_lookup_2, Hrest in Hj. simpl in Hj. tauto. }
  assert (~ is_git_apply [py "git"; py "diff"; py "--binary"; py "HEAD"]) as Hexp
    by (intros Hx; vm_compute in Hx; discriminate).
  destruct Hshape as [->|(out & err & E & [[-> Hfail]|[Hpass (rest & Hrest & Hevs)]])].
  - split.
    + intros [|j] ????; simpl; intros Hj Hcmd; simplify_eq. done.
    + intros [|j] ?; simpl; intros Hj; simplify_eq.
  - split.
    + intros [|[|[|j]]] ????; simpl; intros Hj Hcmd; simplify_eq; [done|].
      eexists 1%nat, _. split; [lia | done].
    + intros [|[|[|j]]] ?; simpl; intros Hj; simplify_eq.
      by destruct (forward_not_rollback req).
  - split.
    + intros j t cmd cwd timeout Hj Hcmd.
      destruct j as [|[|j]];
        [destruct Hevs as [->|(? & ? & _ & _ & ->)]; simpl in Hj; simplify_eq; done
        |destruct Hevs as [->|(? & ? & _ & _ & ->)]; simpl in Hj; simplify_eq|].
      eexists 1%nat, _. split; [lia|].
      destruct Hevs as [->|(? & ? & _ & _ & ->)]; done.
    + intros j d Hj.
      destruct Hevs as [->|(out' & err' & E' & Hnw & ->)].
      * destruct j as [|[|[|[|j]]]]; simpl in Hj; simplify_eq.
        -- by destruct (forward_not_rollback req).
        -- by destruct (Hnopatch rest Hrest j _ _ Hj).
      * destruct j as [|[|[|[|[|j]]]]]; simpl in Hj; simplify_eq.
        -- by destruct (forward_not_rollback req).
        -- eexists 2%nat, 3%nat, _, _, out', err'.
           split; [lia|]. split; [reflexivity|]. split; [exact Hpass|].
           split; [reflexivity|]. by repeat split.
        -- by destruct (Hnopatch rest Hrest j _ _ Hj).
Qed.

(** X27.  Whatever the world does and however [_process] ends, nothing of
    a deploy happens before a verification has passed: either the run
    writes no patch, starts and signals no process and runs no
    [git apply], or all of that comes after an event of a verification
    that returned [True]. *)
Theorem deploy_only_after_verification `{Unicode} (w : World) (c : Config)
    (fuel : nat) (req : UpgradeRequest) (s : Sys) :
  exists evs,
    trace (snd (_process w c fuel req s)) = trace s ++ evs /\
    (Forall before_deploy evs \/
     exists pre vnotes post,
       evs = pre ++ EvVerified true vnotes :: post /\ Forall before_deploy pre).
Proof.
  assert (forall e, is_log e -> before_deploy e) as Hlog
    by (intros []; unfold before_deploy; simpl; tauto).
  assert (forall t cmd cwd timeout,
    ~ is_git_apply cmd -> before_deploy (EvRun t cmd cwd timeout)) as Hrun
    by (intros; unfold before_deploy; simpl; tauto).
  assert (~ is_git_apply [py "git"; py "status"; py "--porcelain"]) as Hstatus
    by (intros Hx; vm_compute in Hx; discriminate).
  assert (forall a b, ~ is_git_apply (worktree_add a b)) as Hadd
    by (intros a b Hx; vm_compute in Hx; discriminate).
  assert (forall a, ~ is_git_apply (worktree_remove a)) as Hremove
    by (intros a Hx; vm_compute in Hx; discriminate).
  unfold _process.
  destruct (bool_decide (req_scope req = py "core")); cbn [negb].
  2:{ rewrite write_task_md_run. cbn [snd trace]. eexists [_].
      split; [reflexivity|]. left. constructor; [|constructor].
      apply Hlog. exact I. }
  unfold bind at 1.
  destruct (repo_is_clean_run w c s) as (clean & detail & -> & _).
  cbv beta iota. destruct clean; cbn [negb].
  2:{ rewrite write_task_md_run. cbn [snd trace after_run].
      rewrite <- app_assoc. eexists. split; [reflexivity|]. left.
      constructor; [by apply Hrun|]. constructor; [|constructor].
      apply Hlog. exact I. }
  unfold bind at 1. rewrite write_task_md_run. cbv beta iota.
  rewrite run_cmd_ignored. unfold try_finally, bind at 1.
  match goal with |- context [ _develop_and_verify w c fuel req ?wt ?s3 ] =>
    set (s2 := s3);
    pose proof (preserves_develop_before_deploy w c fuel req wt s2)
      as (_ & evs1 & (Htr1 & _) & Hevs1);
    destruct (_develop_and_verify w c fuel req wt s2)
      as [[[ok notes]|e|] s4] eqn:Ed
  end; cbn [snd] in Htr1; cbv beta iota.
  - destruct ok; cbn [negb].
    + apply develop_and_verify_passed in Ed as (evs1' & vn & Htr1').
      assert (evs1 = evs1' ++ [EvVerified true vn]) as ->
        by (rewrite Htr1 in Htr1'; by apply app_inv_head in Htr1').
      apply Forall_app in Hevs1 as [Hevs1 _].
      pose proof Htr1' as Hn. unfold s2 in Hn. cbn [trace after_run] in Hn.
      rewrite <- !app_assoc in Hn.
      unfold bind at 1.
      pose proof (preserves_deploy w c req
                    (path_join (worktrees_dir c) (req_id req)) s4)
        as (_ & evs2 & (Htr2 & _) & _).
      destruct (_deploy w c req (path_join (worktrees_dir c) (req_id req)) s4)
        as [[[dok dn]|e|] s5]; cbn [snd] in Htr2; cbv beta iota.
      * rewrite write_task_md_run, run_cmd_ignored. unfold ret.
        cbn [snd trace after_run]. rewrite Htr2, Hn, <- !app_assoc.
        eexists. split; [reflexivity|]. right.
        eexists (_ :: _ :: _ :: evs1'), vn, _. split; [reflexivity|].
        constructor; [by apply Hrun|]. constructor; [apply Hlog; exact I|].
        constructor; [by apply Hrun | done].
      * rewrite run_cmd_ignored. unfold ret.
        cbn [snd trace after_run]. rewrite Htr2, Hn, <- !app_assoc.
        eexists. split; [reflexivity|]. right.
        eexists (_ :: _ :: _ :: evs1'), vn, _. split; [reflexivity|].
        constructor; [by apply Hrun|]. constructor; [apply Hlog; exact I|].
        constructor; [by apply Hrun | done].
      * cbn [snd]. rewrite Htr2, Hn, <- !app_assoc.
        eexists. split; [reflexivity|]. right.
        eexists (_ :: _ :: _ :: evs1'), vn, _. split; [reflexivity|].
        constructor; [by apply Hrun|]. constructor; [apply Hlog; exact I|].
        constructor; [by apply Hrun | done].
    + rewrite write_task_md_run, run_cmd_ignored. unfold ret.
      cbn [snd trace after_run]. rewrite Htr1. unfold s2. cbn [trace after_run].
      rewrite <- !app_assoc. eexists. split; [reflexivity|]. left.
      constructor; [by apply Hrun|]. constructor; [apply Hlog; exact I|].
      constructor; [by apply Hrun|]. apply Forall_app. split; [done|].
      constructor; [apply Hlog; exact I|]. constructor; [by apply Hrun|].
      constructor.
  - rewrite run_cmd_ignored. unfold ret.
    cbn [snd trace after_run]. rewrite Htr1. unfold s2. cbn [trace after_run].
    rewrite <- !app_assoc. eexists. split; [reflexivity|]. left.
    constructor; [by apply Hrun|]. constructor; [apply Hlog; exact I|].
    constructor; [by apply Hrun|]. apply Forall_app. split; [done|].
    constructor; [by apply Hrun | constructor].
  - cbn [snd]. rewrite Htr1. unfold s2. cbn [trace after_run].
    rewrite <- !app_assoc. eexists. split; [reflexivity|]. left.
    constructor; [by apply Hrun|]. constructor; [apply Hlog; exact I|].
    constructor; [by apply Hrun | done].
Qed.

(** X28.  [_stop_service] does not raise and leaves the supervisor without
    a handle.  It signals no process but the one whose handle it held, and
    once it has run, a second call does nothing. *)
Theorem stop_service_idempotent (w : World) (s : Sys) :
  exists s' evs,
    _stop_service w s = (Done tt, s') /\
    service_proc s' = None /\
    trace s' = trace s ++ evs /\
    (forall e, e ∈ evs ->
       exists pid sig, service_proc s = Some pid /\ e = EvSignal pid sig) /\
    _stop_service w s' = (Done tt, s').
Proof.
  unfold _stop_service at 1, bind at 1, get. cbv beta iota.
  destruct (service_proc s) as [pid|] eqn:E.
  - unfold bind.
    destruct (terminate_process_run w pid s)
      as (s1 & evs & -> & Htr & _ & _ & _ & _ & _ & Hevs).
    unfold set_service_proc. eexists _, evs. split; [reflexivity|].
    cbn [service_proc trace]. split; [done|]. split; [done|]. split; [|done].
    intros e He. exists pid. subst evs.
    destruct (poll_alive w (tick s) pid); [|by apply elem_of_nil in He].
    apply elem_of_cons in He as [->|He]; [by eexists|].
    destruct (killpg_ok w (S (tick s)) && wait_ok w (S (S (tick s))));
      [by apply elem_of_nil in He|].
    apply list_elem_of_singleton in He as ->. by eexists.
  - exists s, []. rewrite app_nil_r. split; [done|]. split; [done|].
    split; [done|]. split; [by intros e He%elem_of_nil|].
    unfold _stop_service, bind, get. by rewrite E.
Qed.

(* ===================================================================== *)
(** ** A round of the supervisor under hazards *)
(* ===================================================================== *)

Lemma not_terminal_in_progress : ~ terminal (py "IN_PROGRESS").
Proof. intros [Hs|[Hs|Hs]]; vm_compute in Hs; discriminate. Qed.

Lemma unsettled_quiet evs : Forall (fun e => ~ is_log e) evs -> unsettled evs.
Proof. intros Hf. eapply Forall_impl; [exact Hf|]. intros []; simpl; tauto. Qed.

Lemma unsettled_app evs evs' :
  unsettled evs -> unsettled evs' -> unsettled (evs ++ evs').
Proof. intros. by apply Forall_app. Qed.

Lemma popped_app evs evs' : popped (evs ++ evs') = popped evs ++ popped evs'.
Proof. apply omap_app. Qed.

Lemma popped_quiet evs : Forall not_queue evs -> popped evs = [].
Proof.
  induction 1 as [|e evs He _ IH]; [done|].
  destruct e; try exact IH; exfalso; apply He; exact I.
Qed.

(** Without hazards the round is the round defined with [run_forever]. *)
Lemma run_pending_quiet `{Unicode} w c fuel :
  run_pending_fallible quiet w c fuel = run_pending w c fuel.
Proof. reflexivity. Qed.

Lemma write_task_md_fallible_run h w req status notes s :
  write_task_md_fallible h w req status notes s =
  match log_fault h (tick s) with
  | Some e => (Raised e, after_ask s)
  | None => write_task_md w req status notes s
  end.
Proof.
  unfold write_task_md_fallible, bind at 1, get.
  by destruct (log_fault h (tick s)).
Qed.


Section RoundFacts.
Context `{Unicode}.
Variable h : Hazards.
Variable w : World.
Variable c : Config.

Lemma preserves_write_task_md_fallible (P : event -> Prop) req status notes :
  (forall n md, P (EvTaskMd n md)) ->
  preserves P (write_task_md_fallible h w req status notes).
Proof.
  intros HP s. rewrite write_task_md_fallible_run.
  destruct (log_fault h (tick s)) as [e|].
  - split; [simpl; lia|]. exists []. split; [|done].
    unfold reach. simpl. by rewrite app_nil_r.
  - by apply preserves_write_task_md.
Qed.

Lemma preserves_process_fallible fuel req :
  preserves not_queue (_process_fallible h w c fuel req).
Proof.
  unfold _process_fallible.
  walk; [apply preserves_write_task_md_fallible; unfold not_queue; simpl; tauto|].
  walk; [unfold not_queue; weaken_with (preserves_repo_is_clean w c)|].
  walk. walk; [apply preserves_write_task_md_fallible; unfold not_queue; simpl; tauto|].
  walk; [apply preserves_write_task_md_fallible; unfold not_queue; simpl; tauto|].
  walk; [apply preserves_run_cmd; unfold not_queue; simpl; tauto|].
  apply preserves_try_finally.
  - walk; [unfold not_queue; weaken_with (preserves_develop_and_verify w c fuel req
             (path_join (worktrees_dir c) (req_id req)))|].
    walk. walk; [apply preserves_write_task_md_fallible; unfold not_queue; simpl; tauto|].
    walk; [unfold not_queue; weaken_with (preserves_deploy w c req
             (path_join (worktrees_dir c) (req_id req)))|].
    walk. apply preserves_write_task_md_fallible; unfold not_queue; simpl; tauto.
  - walk; [apply preserves_run_cmd; unfold not_queue; simpl; tauto | walk].
Qed.

(** A write of a terminal status: when it returns the record is settled,
    and when it raises nothing was written. *)
Lemma final_write_run req status notes s :
  terminal status ->
  exists o s' evs,
    write_task_md_fallible h w req status notes s = (o, s') /\
    o <> Diverged /\ trace s' = trace s ++ evs /\
    (o = Done tt -> settled req evs) /\
    (forall e, o = Raised e -> evs = []).
Proof.
  intros Ht. rewrite write_task_md_fallible_run.
  destruct (log_fault h (tick s)) as [e|].
  - eexists _, _, []. split; [reflexivity|]. split; [done|]. simpl.
    rewrite app_nil_r. by repeat split.
  - rewrite write_task_md_run. eexists _, _, [_].
    split; [reflexivity|]. split; [done|]. split; [done|].
    split; [|done]. intros _. by apply (settled_write []).
Qed.

(** The [try] block of [_process]: it ends; when it returns the record is
    settled, and when it raises no terminal status was written. *)
Lemma process_attempt_fallible_run fuel req wt s :
  deadline_passes w c fuel ->
  exists o s' evs,
    (r <- _develop_and_verify w c (S fuel) req wt ;;
     let '(ok, notes) := r in
     if negb ok then write_task_md_fallible h w req (py "FAILED") notes
     else
       d <- _deploy w c req wt ;;
       let '(deploy_ok, deploy_notes) := d in
       write_task_md_fallible h w req
         (if deploy_ok then py "SUCCESS" else py "FAILED")
         (notes ++ deploy_notes)) s = (o, s') /\
    o <> Diverged /\ trace s' = trace s ++ evs /\
    (o = Done tt -> settled req evs) /\
    (forall e, o = Raised e -> unsettled evs).
Proof.
  intros Hpass. unfold bind at 1.
  destruct (develop_and_verify_returns w c fuel req wt s Hpass)
    as ([ok notes] & s1 & -> & _ & evs1 & (Htr1 & _) & Hevs1).
  assert (unsettled evs1) as Hu1 by (by apply unsettled_quiet, cmd_not_log).
  destruct ok; cbn [negb]; cbv beta iota.
  - unfold bind at 1.
    pose proof (halts_deploy w c req wt s1) as Hh.
    pose proof (preserves_deploy w c req wt s1) as (_ & evs2 & (Htr2 & _) & Hevs2).
    assert (unsettled evs2) as Hu2 by (by apply unsettled_quiet, deploy_not_log).
    destruct (_deploy w c req wt s1) as [[[dok dnotes]|e|] s2];
      cbn [fst snd] in *; [| |done].
    + destruct (final_write_run req (if dok then py "SUCCESS" else py "FAILED")
                  (notes ++ dnotes) s2)
        as (o & s3 & evs3 & -> & Ho & Htr3 & Hset & Hr).
      { destruct dok; [by left | apply terminal_failed]. }
      exists o, s3, (evs1 ++ evs2 ++ evs3). split; [done|]. split; [done|].
      split; [by rewrite Htr3, Htr2, Htr1, <- !app_assoc|]. split.
      * intros Hd. rewrite app_assoc. apply settled_later. by apply Hset.
      * intros e He. rewrite (Hr e He), app_nil_r. by apply unsettled_app.
    + exists (Raised e), s2, (evs1 ++ evs2). split; [done|]. split; [done|].
      split; [by rewrite Htr2, Htr1, <- app_assoc|]. split; [done|].
      intros _ _. by apply unsettled_app.
  - destruct (final_write_run req (py "FAILED") notes s1)
      as (o & s3 & evs3 & -> & Ho & Htr3 & Hset & Hr); [apply terminal_failed|].
    exists o, s3, (evs1 ++ evs3). split; [done|]. split; [done|].
    split; [by rewrite Htr3, Htr1, <- app_assoc|]. split.
    + intros Hd. apply settled_later. by apply Hset.
    + intros e He. by rewrite (Hr e He), app_nil_r.
Qed.

(** [_process] ends; when it returns the record of the task is settled, and
    when it raises no terminal status was written. *)
Lemma process_fallible_run fuel req s :
  deadline_passes w c fuel ->
  exists o s' evs,
    _process_fallible h w c (S fuel) req s = (o, s') /\
    o <> Diverged /\ trace s' = trace s ++ evs /\
    (o = Done tt -> settled req evs) /\
    (forall e, o = Raised e -> unsettled evs).
Proof.
  intros Hpass. unfold _process_fallible.
  destruct (bool_decide (req_scope req = py "core")); cbn [negb]; cbv beta iota.
  2:{ match goal with |- context [ write_task_md_fallible h w req ?st ?n s ] =>
        destruct (final_write_run req st n s)
          as (o & s' & evs & -> & Ho & Htr & Hset & Hr); [right; by right|]
      end.
      exists o, s', evs. split; [done|]. split; [done|]. split; [done|].
      split; [done|]. intros e He. rewrite (Hr e He). constructor. }
  unfold bind at 1.
  destruct (run_total is_cmd (_repo_is_clean w c) s)
    as ([clean detail] & s1 & -> & _ & evs1 & (Htr1 & _) & Hevs1);
    [apply total_repo_is_clean | apply preserves_repo_is_clean |].
  assert (unsettled evs1) as Hu1 by (by apply unsettled_quiet, cmd_not_log).
  destruct clean; cbn [negb]; cbv beta iota.
  2:{ match goal with |- context [ write_task_md_fallible h w req ?st ?n s1 ] =>
        destruct (final_write_run req st n s1)
          as (o & s' & evs & -> & Ho & Htr & Hset & Hr); [apply terminal_failed|]
      end.
      exists o, s', (evs1 ++ evs). split; [done|]. split; [done|].
      split; [by rewrite Htr, Htr1, <- app_assoc|]. split.
      - intros Hd. apply settled_later. by apply Hset.
      - intros e He. by rewrite (Hr e He), app_nil_r. }
  unfold bind at 1. rewrite write_task_md_fallible_run.
  destruct (log_fault h (tick s1)) as [e1|].
  { exists (Raised e1), (after_ask s1), evs1. by repeat split. }
  rewrite write_task_md_run. unfold bind at 1.
  match goal with |- context [ _run_cmd w ?a ?b ?t ?k ?s2 ] =>
    destruct (run_cmd_run w a b t k s2) as (r3 & s3 & -> & Htr3 & _)
  end.
  simpl in Htr3. unfold try_finally.
  match goal with |- context [ bind (_develop_and_verify _ _ _ _ ?wt) _ ] =>
    destruct (process_attempt_fallible_run fuel req wt s3 Hpass)
      as (o & s4 & evs4 & -> & Ho & Htr4 & Hset & Hr)
  end.
  destruct (run_cmd_run w
    (worktree_remove (path_join (worktrees_dir c) (req_id req)))
    (repo_root c) 120 true s4) as (r5 & s5 & E5 & Htr5 & _).
  destruct o as [[]|e|]; [| |done]; unfold bind at 1; rewrite E5; simpl.
  - eexists _, _, (evs1 ++ [_] ++ [_] ++ evs4 ++ [_]).
    split; [reflexivity|]. split; [done|].
    split; [rewrite Htr5, Htr4, Htr3, Htr1, <- !app_assoc; reflexivity|].
    split; [|done].
    intros _. rewrite !app_assoc. apply settled_quiet.
    { repeat constructor. simpl. tauto. }
    apply settled_later. by apply Hset.
  - eexists _, _, (evs1 ++ [_] ++ [_] ++ evs4 ++ [_]).
    split; [reflexivity|]. split; [done|].
    split; [rewrite Htr5, Htr4, Htr3, Htr1, <- !app_assoc; reflexivity|].
    split; [done|]. intros e' _.
    apply unsettled_app; [done|]. constructor; [apply not_terminal_in_progress|].
    constructor; [done|]. apply unsettled_app; [by apply (Hr e)|].
    by repeat constructor.
Qed.

End RoundFacts.

Section RoundOutcome.
Context `{Unicode}.
Variable h : Hazards.
Variable w : World.
Variable c : Config.

(** A round on a pending request whose file parses. *)
Lemma run_pending_fallible_run fuel s req_file rest :
  list_pending s = req_file :: rest ->
  unparsable h req_file = false ->
  deadline_passes w c fuel ->
  exists req o s' evs,
    queue s !! req_file = Some req /\
    run_pending_fallible h w c (S fuel) s = (o, s') /\
    o <> Diverged /\
    trace s' = trace s ++ evs ++ [EvPop req_file] /\
    Forall not_queue evs /\
    queue s' = delete req_file (queue s) /\
    tasks s' = foldl replay_tasks (tasks s) evs /\
    (o = Done tt -> settled req evs) /\
    (forall e, o = Raised e ->
       unsettled evs /\
       (interrupt h (tick s) = Some e \/ exists t, log_fault h t = Some e)).
Proof.
  intros Hpending Hparse Hpass.
  assert (is_Some (queue s !! req_file)) as [req Hreq].
  { apply (list_pending_elem s req_file). rewrite Hpending. left. }
  exists req.
  unfold run_pending_fallible, bind at 1, get at 1. rewrite Hpending.
  unfold load_fallible, bind at 1 2, get at 1. rewrite Hreq, Hparse.
  unfold raise at 1, ret at 1. cbv beta iota.
  unfold try_finally, bind at 1, get at 1. cbv beta iota.
  destruct (interrupt h (tick s)) as [e|] eqn:Hint.
  - unfold raise. rewrite (pop_run req_file req s) by done.
    eexists _, _, []. split; [done|]. split; [reflexivity|]. cbn.
    split; [done|]. split; [done|]. split; [constructor|].
    split; [done|]. split; [done|]. split; [done|].
    intros e' [= <-]. split; [constructor | by left].
  - unfold try_except.
    destruct (process_fallible_run h w c fuel req s Hpass)
      as (o & s1 & evs & E & Ho & Htr & Hset & Hr).
    pose proof (preserves_process_fallible h w c (S fuel) req s)
      as (_ & evs' & Hreach & Hq).
    rewrite E in Hreach. cbn [snd] in Hreach.
    destruct Hreach as (Htr' & Hta & Hqu & _).
    assert (evs' = evs) as -> by (rewrite Htr in Htr'; by apply app_inv_head in Htr').
    rewrite replay_queue_quiet in Hqu by done.
    rewrite E. destruct o as [[]|e|]; [| |done].
    + rewrite (pop_run req_file req s1) by by rewrite Hqu.
      eexists _, _, evs. split; [done|]. split; [reflexivity|]. cbn.
      split; [done|]. split; [by rewrite Htr, <- app_assoc|]. split; [done|].
      split; [by rewrite Hqu|]. split; [done|]. split; [by auto | done].
    + rewrite write_task_md_fallible_run.
      destruct (log_fault h (tick s1)) as [e2|] eqn:Hf2.
      * rewrite (pop_run req_file req (after_ask s1)) by (cbn; by rewrite Hqu).
        eexists _, _, evs. split; [done|]. split; [reflexivity|]. cbn.
        split; [done|]. split; [by rewrite Htr, <- app_assoc|]. split; [done|].
        split; [by rewrite Hqu|]. split; [done|]. split; [done|].
        intros e' [= <-]. split; [by apply (Hr e) | right; by eexists].
      * rewrite write_task_md_run.
        erewrite (pop_run req_file req) by (cbn; by rewrite Hqu).
        eexists _, _, (evs ++ [_]). split; [done|]. split; [reflexivity|]. cbn.
        split; [done|]. split; [by rewrite Htr, <- !app_assoc|].
        split; [apply Forall_app; split; [done|]; repeat constructor;
                unfold not_queue; simpl; tauto|].
        split; [by rewrite Hqu|].
        split; [by rewrite foldl_app, <- Hta|].
        split; [|done]. intros _. apply settled_write, terminal_failed.
Qed.

(** A round on a pending request whose file does not parse raises before
    the [try] block is entered: nothing is written and nothing removed. *)
Lemma run_pending_fallible_unparsable fuel s req_file rest :
  list_pending s = req_file :: rest ->
  unparsable h req_file = true ->
  run_pending_fallible h w c fuel s = (Raised (py "JSONDecodeError"), s).
Proof.
  intros Hpending Hparse.
  assert (is_Some (queue s !! req_file)) as [req Hreq].
  { apply (list_pending_elem s req_file). rewrite Hpending. left. }
  unfold run_pending_fallible, bind at 1, get at 1. rewrite Hpending.
  unfold load_fallible, bind at 1 2, get at 1. by rewrite Hreq, Hparse.
Qed.

Lemma run_pending_fallible_idle fuel s :
  list_pending s = [] -> run_pending_fallible h w c fuel s = (Done tt, s).
Proof. intros Hp. unfold run_pending_fallible, bind, get. by rewrite Hp. Qed.

End RoundOutcome.

Lemma not_queue_not_enqueue evs :
  Forall not_queue evs -> Forall (fun e => ~ is_enqueue e) evs.
Proof.
  intros Hf. eapply Forall_impl; [exact Hf|].
  intros []; unfold not_queue; simpl; tauto.
Qed.

Lemma service_not_queue evs : Forall is_service evs -> Forall not_queue evs.
Proof.
  intros Hf. eapply Forall_impl; [exact Hf|].
  intros []; unfold not_queue; simpl; tauto.
Qed.

Section LoopOutcome.
Context `{Unicode}.
Variable h : Hazards.
Variable w : World.
Variable c : Config.

(** An iteration of the loop of [run_forever] up to its sleep: it ends,
    and it takes from the queue the first pending entry or, when it raises
    before the [try] block, nothing. *)
Lemma loop_turn fuel s :
  deadline_passes w c fuel ->
  exists o s' evs k,
    (_ensure_service_running w c ;; run_pending_fallible h w c (S fuel)) s
    = (o, s') /\
    o <> Diverged /\ (k <= 1)%nat /\ (o = Done tt -> k = 1%nat) /\
    trace s' = trace s ++ evs /\
    popped evs = take k (list_pending s) /\
    Forall (fun e => ~ is_enqueue e) evs /\
    list_pending s' = drop k (list_pending s).
Proof.
  intros Hpass. unfold bind at 1.
  pose proof (halts_ensure_service_running w c s) as Hh.
  pose proof (preserves_ensure_service_running w c s)
    as (_ & ev1 & (Htr1 & _ & Hq1 & _) & Hev1).
  apply service_not_queue in Hev1.
  rewrite replay_queue_quiet in Hq1 by done.
  destruct (_ensure_service_running w c s) as [[[]|e|] s1];
    cbn [fst snd] in *; [| |done].
  2:{ exists (Raised e), s1, ev1, 0%nat. split; [done|]. split; [done|].
      split; [lia|]. split; [done|]. split; [done|].
      split; [by apply popped_quiet|].
      split; [by apply not_queue_not_enqueue | by apply list_pending_queue]. }
  rewrite <- (list_pending_queue s s1 Hq1).
  destruct (list_pending s1) as [|req_file rest] eqn:Hp.
  { rewrite run_pending_fallible_idle by done.
    exists (Done tt), s1, ev1, 1%nat. split; [done|]. split; [done|].
    split; [lia|]. split; [done|]. split; [done|].
    split; [by apply popped_quiet|].
    split; [by apply not_queue_not_enqueue | done]. }
  destruct (unparsable h req_file) eqn:Hparse.
  { rewrite (run_pending_fallible_unparsable h w c (S fuel) s1 req_file rest)
      by done.
    eexists _, s1, ev1, 0%nat. split; [reflexivity|]. split; [done|].
    split; [lia|]. split; [done|]. split; [done|].
    split; [by apply popped_quiet|].
    split; [by apply not_queue_not_enqueue | done]. }
  destruct (run_pending_fallible_run h w c fuel s1 req_file rest Hp Hparse Hpass)
    as (req & o & s2 & evs & _ & -> & Ho & Htr2 & Hevs & Hq2 & _).
  exists o, s2, (ev1 ++ evs ++ [EvPop req_file]), 1%nat.
  split; [done|]. split; [done|]. split; [lia|]. split; [done|].
  split; [by rewrite Htr2, Htr1, <- app_assoc|].
  split; [by rewrite !popped_app, (popped_quiet ev1), (popped_quiet evs)|].
  split; [|by apply (list_pending_delete s1 s2 req_file)].
  apply Forall_app. split; [by apply not_queue_not_enqueue|].
  apply Forall_app. split; [by apply not_queue_not_enqueue|].
  repeat constructor. simpl. tauto.
Qed.

(** [n] iterations of the loop. *)
Lemma loop_drains fuel poll_interval_s n s o s' :
  deadline_passes w c fuel ->
  run_forever_loop_fallible h w c (S fuel) poll_interval_s n s = (o, s') ->
  exists k evs,
    (k <= n)%nat /\
    trace s' = trace s ++ evs /\
    popped evs = take k (list_pending s) /\
    Forall (fun e => ~ is_enqueue e) evs /\
    list_pending s' = drop k (list_pending s) /\
    match o with
    | Done _ => False
    | Raised _ => True
    | Diverged => k = n
    end.
Proof.
  intros Hpass. revert s. induction n as [|n IH]; intros s.
  - intros [= <- <-]. exists 0%nat, []. rewrite app_nil_r. by repeat split.
  - cbn [run_forever_loop_fallible].
    change (_ensure_service_running w c ;;
            run_pending_fallible h w c (S fuel) ;;
            emit (EvSleep poll_interval_s) ;;
            run_forever_loop_fallible h w c (S fuel) poll_interval_s n)
      with (bind (_ensure_service_running w c)
              (fun _ => bind (run_pending_fallible h w c (S fuel))
                 (fun _ => bind (emit (EvSleep poll_interval_s))
                    (fun _ => run_forever_loop_fallible h w c (S fuel)
                                poll_interval_s n)))).
    destruct (loop_turn fuel s Hpass)
      as (o1 & s1 & evs1 & k1 & E & Ho & Hk1 & Hdone & Htr1 & Hpop1 & Hw1 & Hp1).
    unfold bind at 1 in E.
    unfold bind at 1.
    destruct (_ensure_service_running w c s) as [[[]|e|] s0].
    2:{ injection E as <- <-. intros [= <- <-]. exists k1, evs1.
        split; [lia|]. by repeat split. }
    2:{ injection E as <- <-. done. }
    unfold bind at 1. rewrite E.
    destruct o1 as [[]|e|]; [| |done].
    2:{ intros [= <- <-]. exists k1, evs1. split; [lia|]. by repeat split. }
    rewrite (Hdone eq_refl) in *. clear Hdone Hk1.
    unfold bind at 1, emit at 1. cbv beta iota.
    intros E3. apply IH in E3 as (k & evs & Hk & Htr & Hpop & Hw & Hp & Hout).
    cbn [trace] in Htr.
    match type of Hpop with context [ list_pending ?s3 ] =>
      change (list_pending s3) with (list_pending s1) in Hpop, Hp
    end.
    rewrite Hp1 in Hpop, Hp.
    exists (S k), (evs1 ++ EvSleep poll_interval_s :: evs).
    split; [lia|].
    split; [by rewrite Htr, Htr1, <- !app_assoc|].
    split.
    { rewrite popped_app, Hpop1.
      change (popped (EvSleep poll_interval_s :: evs)) with (popped evs).
      rewrite Hpop. destruct (list_pending s); [|done].
      cbn [drop]. by rewrite !take_nil. }
    split.
    { apply Forall_app. split; [done|]. constructor; [simpl; tauto | done]. }
    split; [by rewrite Hp, drop_drop|].
    destruct o; [done|done|lia].
Qed.

End LoopOutcome.




(** An interrupt as the task is started passes the handler by; the queue
    entry is removed all the same, and the task log still says QUEUED. *)
Example interrupt_skips_handler :
  let r := run_pending_fallible (H := ucd_fragment) interrupted shipping site 3
             one_pending in
  fst r = Raised (py "KeyboardInterrupt") /\
  trace (snd r) = trace one_pending ++ [EvPop (queue_name first_req)] /\
  list_pending (snd r) = [] /\
  (md_status <$> tasks (snd r) !! task_name first_req) = Some (py "QUEUED").
Proof. vm_compute. repeat split. Qed.

(** X6.  The queue is served in the order of the names of its files: a
    round on the pending requests [req_file :: rest] whose first file
    parses ends, when the clock passes the deadline of the loop, and
    leaves exactly [rest] pending, in the same order, with every other
    entry of the queue as it was, whatever became of the task and whether
    the round returned or raised. *)
Theorem run_pending_fifo `{Unicode} (h : Hazards) (w : World) (c : Config)
    (fuel : nat) (s : Sys) (req_file : pystr) (rest : list pystr) :
  list_pending s = req_file :: rest ->
  unparsable h req_file = false ->
  deadline_passes w c fuel ->
  let r := run_pending_fallible h w c (S fuel) s in
  fst r <> Diverged /\
  list_pending (snd r) = rest /\
  (forall name, name <> req_file -> queue (snd r) !! name = queue s !! name).
Proof.
  intros Hpending Hparse Hpass.
  destruct (run_pending_fallible_run h w c fuel s req_file rest Hpending Hparse Hpass)
    as (req & o & s' & evs & _ & E & Ho & _ & _ & Hq & _).
  cbv zeta. rewrite E. cbn [fst snd]. split; [done|].
  split; [by apply (list_pending_delete s s' req_file)|].
  intros name Hne. rewrite Hq. by apply lookup_delete_ne.
Qed.

(** Of two requests made within one second the one submitted second is
    served first here, its random suffix being the smaller. *)
Lemma run_pending_fifo_witness :
  list_pending two_pending = [queue_name second_req; queue_name first_req] /\
  unparsable quiet (queue_name second_req) = false /\
  deadline_passes brisk site 2 /\
  let r := run_pending_fallible (H := ucd_fragment) quiet brisk site 3
             two_pending in
  fst r <> Diverged /\
  list_pending (snd r) = [queue_name first_req] /\
  (forall name, name <> queue_name second_req ->
     queue (snd r) !! name = queue two_pending !! name).
Proof.
  assert (list_pending two_pending = [queue_name second_req; queue_name first_req])
    as Hpending by (vm_compute; reflexivity).
  assert (unparsable quiet (queue_name second_req) = false) as Hparse
    by reflexivity.
  split; [exact Hpending|]. split; [exact Hparse|]. split; [exact brisk_passes|].
  exact (run_pending_fifo (H := ucd_fragment) quiet brisk site 2 two_pending
           (queue_name second_req) [queue_name first_req] Hpending Hparse
           brisk_passes).
Defined.

(** X7.  The loop of [run_forever] never returns, and it serves the queue
    in the order of the names.  When the clock passes the deadline of the
    develop-verify loop, [n] iterations of it have removed the first [k]
    pending requests, in their order, and nothing else; they wrote nothing
    to the queue, and what is pending afterwards is the rest of the list.
    Here [k] is [n] when no iteration raised, so that the first [n] pending
    requests were served; when an iteration raised, be it the start of the
    service, the load of a file that does not parse, an interrupt or a
    write of the handler's record, the loop ended there, after [k]
    removals. *)
Theorem run_forever_drains `{Unicode} (h : Hazards) (w : World) (c : Config)
    (fuel : nat) (poll_interval_s : Z) (n : nat) (s : Sys) :
  deadline_passes w c fuel ->
  let r := run_forever_loop_fallible h w c (S fuel) poll_interval_s n s in
  exists k evs,
    (k <= n)%nat /\
    trace (snd r) = trace s ++ evs /\
    popped evs = take k (list_pending s) /\
    Forall (fun e => ~ is_enqueue e) evs /\
    list_pending (snd r) = drop k (list_pending s) /\
    match fst r with
    | Done _ => False
    | Raised _ => True
    | Diverged => k = n
    end.
Proof.
  intros Hpass. cbv zeta.
  destruct (run_forever_loop_fallible h w c (S fuel) poll_interval_s n s)
    as [o s'] eqn:E.
  cbn [fst snd]. by apply (loop_drains h w c fuel poll_interval_s n s).
Qed.

Lemma run_forever_drains_witness :
  deadline_passes brisk site 2 /\
  let r := run_forever_loop_fallible (H := ucd_fragment) quiet brisk site 3 3 2
             two_pending in
  exists k evs,
    (k <= 2)%nat /\
    trace (snd r) = trace two_pending ++ evs /\
    popped evs = take k (list_pending two_pending) /\
    Forall (fun e => ~ is_enqueue e) evs /\
    list_pending (snd r) = drop k (list_pending two_pending) /\
    match fst r with
    | Done _ => False
    | Raised _ => True
    | Diverged => k = 2%nat
    end.
Proof.
  split; [exact brisk_passes|].
  exact (run_forever_drains (H := ucd_fragment) quiet brisk site 2 3 2
           two_pending brisk_passes).
Defined.

(** Two iterations on two pending requests: both are served, the one with
    the smaller name first, and the loop goes on. *)
Example two_rounds :
  let r := run_forever_loop_fallible (H := ucd_fragment) quiet brisk site 3 3 2
             two_pending in
  fst r = Diverged /\
  popped (trace (snd r)) = [queue_name second_req; queue_name first_req] /\
  list_pending (snd r) = [].
Proof. vm_compute. repeat split. Qed.

(** X29.  A queue file that does not parse stops the supervisor and stays
    in the queue.  [load] stands before the [try] block of [run_forever]:
    when the first pending file does not parse the round raises with the
    state as it was, no record written and no entry removed; and every
    iteration of the loop that starts from such a queue raises, with the
    queue and the task log unchanged, so that the same happens after a
    restart. *)
Theorem unparsable_entry_blocks `{Unicode} (h : Hazards) (w : World)
    (c : Config) (fuel : nat) (poll_interval_s : Z) (n : nat) (s : Sys)
    (req_file : pystr) (rest : list pystr) :
  list_pending s = req_file :: rest ->
  unparsable h req_file = true ->
  run_pending_fallible h w c fuel s = (Raised (py "JSONDecodeError"), s) /\
  let r := run_forever_loop_fallible h w c fuel poll_interval_s (S n) s in
  (exists e, fst r = Raised e) /\
  queue (snd r) = queue s /\ tasks (snd r) = tasks s /\
  list_pending (snd r) = req_file :: rest.
Proof.
  intros Hpending Hparse.
  split; [by apply (run_pending_fallible_unparsable h w c fuel s req_file rest)|].
  cbv zeta.
  destruct (run_forever_loop_fallible h w c fuel poll_interval_s (S n) s)
    as [o s'] eqn:E.
  cbn [fst snd]. cbn [run_forever_loop_fallible] in E. unfold bind at 1 in E.
  pose proof (halts_ensure_service_running w c s) as Hh.
  pose proof (preserves_ensure_service_running w c s)
    as (_ & ev1 & (_ & Hta1 & Hq1 & _) & Hev1).
  rewrite replay_queue_quiet in Hq1
    by (eapply Forall_impl; [exact Hev1|]; intros []; simpl; tauto).
  rewrite replay_tasks_quiet in Hta1
    by (eapply Forall_impl; [exact Hev1|]; intros []; simpl; tauto).
  destruct (_ensure_service_running w c s) as [[[]|e|] s1];
    cbn [fst snd] in *; [| |done].
  - assert (list_pending s1 = req_file :: rest) as Hp1
      by (by rewrite (list_pending_queue s s1 Hq1)).
    unfold bind at 1 in E.
    rewrite (run_pending_fallible_unparsable h w c fuel s1 req_file rest) in E
      by done.
    injection E as <- <-. split; [by eexists|]. by repeat split.
  - injection E as <- <-. split; [by eexists|]. split; [done|]. split; [done|].
    by rewrite (list_pending_queue s s1 Hq1).
Qed.

Lemma unparsable_entry_blocks_witness :
  list_pending one_pending = [queue_name first_req] /\
  unparsable garbled (queue_name first_req) = true /\
  run_pending_fallible (H := ucd_fragment) garbled calm site 3 one_pending
  = (Raised (py "JSONDecodeError"), one_pending) /\
  let r := run_forever_loop_fallible (H := ucd_fragment) garbled calm site 3 3 1
             one_pending in
  (exists e, fst r = Raised e) /\
  queue (snd r) = queue one_pending /\ tasks (snd r) = tasks one_pending /\
  list_pending (snd r) = [queue_name first_req].
Proof.
  assert (list_pending one_pending = [queue_name first_req]) as Hpending
    by (vm_compute; reflexivity).
  assert (unparsable garbled (queue_name first_req) = true) as Hparse
    by (vm_compute; reflexivity).
  split; [exact Hpending|]. split; [exact Hparse|].
  exact (unparsable_entry_blocks (H := ucd_fragment) garbled calm site 3 3 0
           one_pending (queue_name first_req) [] Hpending Hparse).
Defined.
